(** * panos.policies: rule schemas, hit counts and audit comments

    A shallow embedding of [panos/policies.py] and the properties proved
    about it.

    Definitions:
    - [Py]: the Python values, exceptions and built-ins the module relies
      on ([int], [str.split], [str.format], tuple comparison).
    - [ET]: the fragment of [xml.etree.ElementTree] the module uses.
    - [Datetime]: [datetime.strptime] for the format of audit-comment
      times.
    - [OpState]: [RulebaseHitCount], [OpStateObject], [HitCount],
      [RuleAuditComment] and [AuditCommentLog], method by method.
    - [Mapper]: the schema-driven parameter mapper behind
      [VersionedParamPath] and [VersionedPanObject].  Its code is in
      [panos/base.py]; this module only declares schemas for it.
    - [Schemas], [Examples], [MapperExamples]: the parameters of
      [SecurityRule._setup], and the devices, rules and responses the
      examples use.

    Properties:
    - [HitCountRequest]: what [RulebaseHitCount.refresh] sends.
    - [HitCountParsing]: what [HitCount._refresh_xml] stores.
    - [HitCountResponse]: how [RulebaseHitCount.refresh] handles the
      response.
    - [DatetimeFacts], [AuditComment]: audit-comment queries and log
      entries.
    - [IntText], [MapperFacts], [RoundTrip]: parsing back what the mapper
      built. *)

From Stdlib Require Import ZArith Ascii DecimalString DecimalPos.
From Stdlib Require String.
From stdpp Require Import base option list strings gmap.

#[local] Open Scope Z_scope.

(* ===================================================================== *)
(** * Python values, exceptions and built-ins *)
(* ===================================================================== *)

Module Py.

(** Exceptions the module raises or lets through. *)
Inductive exn :=
| PanDeviceError (msg : string)
| ValueError
| KeyError (key : string)
| IndexError
| External (msg : string).

(** The outcome of a call: a value or a raised exception. *)
Inductive result (A : Type) :=
| Ok (a : A)
| Raise (e : exn).
Arguments Ok {A} a.
Arguments Raise {A} e.

Definition bind {A B} (r : result A) (k : A -> result B) : result B :=
  match r with
  | Ok a => k a
  | Raise e => Raise e
  end.

(** The attribute values this module stores on operational-state objects. *)
Inductive value :=
| PyNone
| PyStr (s : string)
| PyInt (z : Z).

Definition chars (s : string) : list ascii := String.list_ascii_of_string s.
Definition str (l : list ascii) : string := String.string_of_list_ascii l.

(** [str.isspace] on the ASCII range. *)
Definition isspace (c : ascii) : bool :=
  let n := nat_of_ascii c in
  ((9 <=? n)%nat && (n <=? 13)%nat) || ((28 <=? n)%nat && (n <=? 32)%nat).

Definition isdigit (c : ascii) : bool :=
  let n := nat_of_ascii c in (48 <=? n)%nat && (n <=? 57)%nat.

Definition digit_value (c : ascii) : Z := Z.of_nat (nat_of_ascii c) - 48.

Fixpoint lstrip (l : list ascii) : list ascii :=
  match l with
  | c :: l' => if isspace c then lstrip l' else l
  | [] => []
  end.

Definition strip (l : list ascii) : list ascii :=
  rev (lstrip (rev (lstrip l))).

(** The digits of an integer literal: a digit, then digits each optionally
    preceded by one underscore.  [acc] is the value read so far. *)
Fixpoint int_digits (acc : Z) (l : list ascii) : option Z :=
  match l with
  | [] => Some acc
  | c :: l' =>
      if isdigit c then int_digits (10 * acc + digit_value c) l'
      else if Ascii.eqb c "_" then
        match l' with
        | d :: l'' =>
            if isdigit d then int_digits (10 * acc + digit_value d) l''
            else None
        | [] => None
        end
      else None
  end.

Definition int_literal (l : list ascii) : option Z :=
  match l with
  | c :: l' => if isdigit c then int_digits (digit_value c) l' else None
  | [] => None
  end.

(** [int(s)] for a string [s], base 10: surrounding white space, an
    optional sign, decimal digits with single underscores between them.
    [None] stands for [ValueError]. *)
Definition int (s : string) : option Z :=
  match strip (chars s) with
  | c :: l =>
      if Ascii.eqb c "-" then Z.opp <$> int_literal l
      else if Ascii.eqb c "+" then int_literal l
      else int_literal (c :: l)
  | [] => None
  end.

(** [str(z)] for an integer: its decimal form, with [-] when negative. *)
Definition str_of_int (z : Z) : string :=
  NilEmpty.string_of_int (Z.to_int z).

(** ["{0}".format(x)] for a string or [None]. *)
Definition format_opt (x : option string) : string :=
  match x with
  | Some s => s
  | None => "None"
  end.

(** [s.split(sep)] for a one-character separator: never empty. *)
Fixpoint split_chars (sep : ascii) (cur : list ascii) (l : list ascii)
  : list string :=
  match l with
  | [] => [str (rev cur)]
  | c :: l' =>
      if Ascii.eqb c sep then str (rev cur) :: split_chars sep [] l'
      else split_chars sep (c :: cur) l'
  end.

Definition split (sep : ascii) (s : string) : list string :=
  split_chars sep [] (chars s).

(** A PAN-OS version, a tuple of three integers. *)
Definition version := (nat * nat * nat)%type.

(** Tuple comparison [a < b]. *)
Definition version_ltb (a b : version) : bool :=
  let '(a1, a2, a3) := a in
  let '(b1, b2, b3) := b in
  (a1 <? b1)%nat
  || ((a1 =? b1)%nat && ((a2 <? b2)%nat
                         || ((a2 =? b2)%nat && (a3 <? b3)%nat))).

(** Tuple comparison [a <= b]. *)
Definition version_leb (a b : version) : bool := negb (version_ltb b a).

(** [l[-k]] for [k >= 1]; [None] stands for [IndexError]. *)
Definition index_from_end {A} (l : list A) (k : nat) : option A :=
  match k with
  | O => None
  | S k' => rev l !! k'
  end.

End Py.

(* ===================================================================== *)
(** * xml.etree.ElementTree *)
(* ===================================================================== *)

Module ET.

#[warnings="-register-all"] Inductive Element :=
| Elem (tag : string) (attrib : list (string * string))
       (text : option string) (children : list Element).

Definition tag (e : Element) : string :=
  match e with Elem t _ _ _ => t end.
Definition attrib (e : Element) : list (string * string) :=
  match e with Elem _ a _ _ => a end.
Definition text (e : Element) : option string :=
  match e with Elem _ _ x _ => x end.
Definition children (e : Element) : list Element :=
  match e with Elem _ _ _ c => c end.

(** [ET.Element(tag, attrib)]: no text, no children. *)
Definition new (t : string) (a : list (string * string)) : Element :=
  Elem t a None [].

Definition set_text (e : Element) (s : string) : Element :=
  match e with
  | Elem t a _ c => Elem t a (Some s) c
  end.

(** [attrib[key]] / [attrib.get(key)]. *)
Fixpoint get (a : list (string * string)) (key : string) : option string :=
  match a with
  | [] => None
  | (k, v) :: a' => if String.eqb k key then Some v else get a' key
  end.

(** [elm.find("./" + t)]: the first child whose tag is [t]. *)
Fixpoint find_child (t : string) (c : list Element) : option Element :=
  match c with
  | [] => None
  | e :: c' => if String.eqb (tag e) t then Some e else find_child t c'
  end.

Definition find (e : Element) (t : string) : option Element :=
  find_child t (children e).

(** The children whose tag is [t], in document order. *)
Definition children_tagged (t : string) (e : Element) : list Element :=
  List.filter (fun c => String.eqb (tag c) t) (children e).

(** [elm.findall("./t1/t2/.../tn")]: every element reached from [elm] by
    a chain of children tagged [t1], ..., [tn], in document order. *)
Fixpoint findall_from (path : list string) (es : list Element)
  : list Element :=
  match path with
  | [] => es
  | t :: path' => findall_from path' (es ≫= children_tagged t)
  end.

Definition findall (e : Element) (path : list string) : list Element :=
  findall_from path [e].

(** [elm.find("./t1/.../tn")]: the first child tagged [t1], then its first
    child tagged [t2], and so on. *)
Fixpoint find_path (rp : list string) (e : Element) : option Element :=
  match rp with
  | [] => Some e
  | t :: rp' =>
      match find e t with
      | Some c => find_path rp' c
      | None => None
      end
  end.

End ET.

(* ===================================================================== *)
(** * datetime.strptime *)
(* ===================================================================== *)

Module Datetime.

(** [strptime] turns the format into a regular expression, one group per
    directive, matches it against the start of the text, refuses
    unconverted data and hands the fields to the [datetime] constructor.
    The model covers the directives of ["%Y/%m/%d %H:%M:%S"], on ASCII
    text. *)

Record datetime := mk_datetime {
  year : Z; month : Z; day : Z; hour : Z; minute : Z; second : Z
}.

(** The directives of a format string: [%Y %m %d %H %M %S], a run of
    white space, or any other character taken literally. *)
Inductive directive := DY | Dm | Dd | DH | DM | DS | DSpace | DLit (c : ascii).

(** Translation of a format string; [None] for a directive outside the
    six above. *)
Fixpoint compile (fmt : list ascii) : option (list directive) :=
  match fmt with
  | [] => Some []
  | c :: fmt' =>
      if Ascii.eqb c "%" then
        match fmt' with
        | k :: fmt'' =>
            d ← (if Ascii.eqb k "Y" then Some DY
                 else if Ascii.eqb k "m" then Some Dm
                 else if Ascii.eqb k "d" then Some Dd
                 else if Ascii.eqb k "H" then Some DH
                 else if Ascii.eqb k "M" then Some DM
                 else if Ascii.eqb k "S" then Some DS
                 else None);
            ds ← compile fmt'';
            Some (d :: ds)
        | [] => None
        end
      else
        ds ← compile fmt';
        Some ((if Py.isspace c then DSpace else DLit c) :: ds)
  end.

(** A run of white space in the format stands for [\s+]. *)
Fixpoint squeeze (ds : list directive) : list directive :=
  match ds with
  | DSpace :: ((DSpace :: _) as ds') => squeeze ds'
  | d :: ds' => d :: squeeze ds'
  | [] => []
  end.

Definition digit1 (l : list ascii) : option (Z * list ascii) :=
  match l with
  | c :: l' => if Py.isdigit c then Some (Py.digit_value c, l') else None
  | [] => None
  end.

Definition digit2 (l : list ascii) : option (Z * Z * list ascii) :=
  '(a, l1) ← digit1 l; '(b, l2) ← digit1 l1; Some (a, b, l2).

(** One alternative of a directive's regular expression: [two] reads
    two digits that [ok] accepts, [one] a single digit that [ok]
    accepts. *)
Definition two (ok : Z -> Z -> bool) (l : list ascii)
  : list (Z * list ascii) :=
  match digit2 l with
  | Some (a, b, l') => if ok a b then [(10 * a + b, l')] else []
  | None => []
  end.

Definition one (ok : Z -> bool) (l : list ascii) : list (Z * list ascii) :=
  match digit1 l with
  | Some (a, l') => if ok a then [(a, l')] else []
  | None => []
  end.

(** [\s+], longest run first. *)
Fixpoint spaces (l : list ascii) : list (list ascii) :=
  match l with
  | c :: l' => if Py.isspace c then spaces l' ++ [l'] else []
  | [] => []
  end.

(** The ways a directive can match a prefix of [l], in the order the
    regular expression tries them: the value read and the rest. *)
Definition candidates (d : directive) (l : list ascii)
  : list (Z * list ascii) :=
  match d with
  | DY =>
      match digit2 l with
      | Some (a, b, l1) =>
          match digit2 l1 with
          | Some (c, e, l2) => [(1000 * a + 100 * b + 10 * c + e, l2)]
          | None => []
          end
      | None => []
      end
  | Dm =>
      two (fun a b => (a =? 1) && (b <=? 2)) l
      ++ two (fun a b => (a =? 0) && (1 <=? b)) l
      ++ one (fun a => 1 <=? a) l
  | Dd =>
      two (fun a b => (a =? 3) && (b <=? 1)) l
      ++ two (fun a b => (1 <=? a) && (a <=? 2)) l
      ++ two (fun a b => (a =? 0) && (1 <=? b)) l
      ++ one (fun a => 1 <=? a) l
      ++ match l with
         | c :: l' => if Ascii.eqb c " " then one (fun a => 1 <=? a) l' else []
         | [] => []
         end
  | DH =>
      two (fun a b => (a =? 2) && (b <=? 3)) l
      ++ two (fun a b => a <=? 1) l
      ++ one (fun _ => true) l
  | DM =>
      two (fun a b => a <=? 5) l ++ one (fun _ => true) l
  | DS =>
      two (fun a b => (a =? 6) && (b <=? 1)) l
      ++ two (fun a b => a <=? 5) l
      ++ one (fun _ => true) l
  | DSpace => (fun r => (0, r)) <$> spaces l
  | DLit c =>
      match l with
      | c' :: l' => if Ascii.eqb c c' then [(0, l')] else []
      | [] => []
      end
  end.

Fixpoint first_some {A B} (f : A -> option B) (l : list A) : option B :=
  match l with
  | [] => None
  | a :: l' => match f a with Some b => Some b | None => first_some f l' end
  end.

(** Backtracking match of the directives against a prefix of [l]: the
    values read, one per directive, and the unconverted rest. *)
Fixpoint rmatch (ds : list directive) (l : list ascii)
  : option (list (directive * Z) * list ascii) :=
  match ds with
  | [] => Some ([], l)
  | d :: ds' =>
      first_some
        (fun '(v, rest) =>
           '(vs, rest') ← rmatch ds' rest; Some ((d, v) :: vs, rest'))
        (candidates d l)
  end.

Definition field (d : directive) (dflt : Z) (vs : list (directive * Z)) : Z :=
  match List.find (fun p => match p.1, d with
                            | DY, DY | Dm, Dm | Dd, Dd
                            | DH, DH | DM, DM | DS, DS => true
                            | _, _ => false
                            end) vs with
  | Some (_, v) => v
  | None => dflt
  end.

Definition is_leap (y : Z) : bool :=
  ((y mod 4 =? 0) && negb (y mod 100 =? 0)) || (y mod 400 =? 0).

Definition days_in_month (y m : Z) : Z :=
  if m =? 2 then (if is_leap y then 29 else 28)
  else if (m =? 4) || (m =? 6) || (m =? 9) || (m =? 11) then 30
  else 31.

(** The range checks of the [datetime] constructor that the regular
    expressions do not already enforce. *)
Definition valid (t : datetime) : bool :=
  (1 <=? year t) && (day t <=? days_in_month (year t) (month t))
  && (second t <=? 59).

(** [datetime.strptime(val, fmt)]; [None] stands for [ValueError]. *)
Definition strptime (val fmt : string) : option datetime :=
  ds ← compile (Py.chars fmt);
  '(vs, rest) ← rmatch (squeeze ds) (Py.chars val);
  match rest with
  | [] =>
      let t := mk_datetime (field DY 1900 vs) (field Dm 1 vs) (field Dd 1 vs)
                           (field DH 0 vs) (field DM 0 vs) (field DS 0 vs) in
      if valid t then Some t else None
  | _ :: _ => None
  end.

(** ** Formatting, to state what [strptime] reads *)

Definition digit_char (d : Z) : ascii := ascii_of_nat (48 + Z.to_nat d).

Definition two_digits (n : Z) : list ascii :=
  [digit_char (n / 10); digit_char (n mod 10)].

Definition four_digits (n : Z) : list ascii :=
  two_digits (n / 100) ++ two_digits (n mod 100).

(** [t.strftime("%Y/%m/%d %H:%M:%S")]: zero-padded fields. *)
Definition strftime_ymd_hms (t : datetime) : string :=
  Py.str (four_digits (year t) ++ "/"%char :: two_digits (month t)
          ++ "/"%char :: two_digits (day t) ++ " "%char :: two_digits (hour t)
          ++ ":"%char :: two_digits (minute t)
          ++ ":"%char :: two_digits (second t)).

(** The instants the [datetime] type holds. *)
Definition is_datetime (t : datetime) : bool :=
  (1 <=? year t) && (year t <=? 9999)
  && (1 <=? month t) && (month t <=? 12)
  && (1 <=? day t) && (day t <=? days_in_month (year t) (month t))
  && (0 <=? hour t) && (hour t <=? 23)
  && (0 <=? minute t) && (minute t <=? 59)
  && (0 <=? second t) && (second t <=? 59).

End Datetime.

(* ===================================================================== *)
(** * Operational state: hit counts and audit comments *)
(* ===================================================================== *)

Module OpState.
Import Py ET.

(** ** The owning device

    [nearest_pandevice()] and the transports behind it are external: a
    device is its PAN-OS version, its vsys, and the two transports as
    functions from the request to the parsed response (or the exception
    the transport raises). *)

Record log_query := mk_log_query {
  log_type : string;
  nlogs : Z;
  log_filter : string;
  extra_qs : gmap string string
}.

Record PanDevice := mk_PanDevice {
  retrieve_panos_version : version;
  vsys : option string;
  op : Element -> result Element;
  xapi_log : log_query -> result Element
}.

(** ** OpStateObject *)

Definition _str (elm : option Element) (field : string) : option string :=
  match elm with
  | Some e =>
      match find e field with
      | Some val => text val
      | None => None
      end
  | None => None
  end.

Definition _int (elm : option Element) (field : string) : result (option Z) :=
  match _str elm field with
  | Some val =>
      match Py.int val with
      | Some z => Ok (Some z)
      | None => Raise ValueError
      end
  | None => Ok None
  end.

(** What [_datetime] returns: the parsed instant, or the raw text when
    [strptime] raised [ValueError]. *)
Inductive time_value :=
| Parsed (t : Datetime.datetime)
| Unparsed (raw : string).

Definition _datetime (elm : option Element) (field fmt : string)
  : option time_value :=
  match _str elm field with
  | Some val =>
      match Datetime.strptime val fmt with
      | Some t => Some (Parsed t)
      | None => Some (Unparsed val)
      end
  | None => None
  end.

(** ** HitCount *)

(** A hit-count object: the rule it belongs to (by uid; [None] for a
    standalone record), its name, and the attributes [_refresh_xml] sets
    with [setattr]. *)
Record HitCount := mk_HitCount {
  obj : option string;
  name : option string;
  attrs : gmap string value
}.

Definition FIELDS : list (string * string * string) :=
  [ ("latest", "latest", "str");
    ("hit_count", "hit-count", "int");
    ("last_hit_timestamp", "last-hit-timestamp", "int");
    ("last_reset_timestamp", "last-reset-timestamp", "int");
    ("first_hit_timestamp", "first-hit-timestamp", "int");
    ("rule_creation_timestamp", "rule-creation-timestamp", "int");
    ("rule_modification_timestamp", "rule-modification-timestamp", "int") ].

Definition setattr (self : HitCount) (param : string) (v : value) : HitCount :=
  mk_HitCount (obj self) (name self) (<[param := v]> (attrs self)).

Definition getattr (self : HitCount) (param : string) : option value :=
  attrs self !! param.

Definition of_str (o : option string) : value :=
  match o with Some s => PyStr s | None => PyNone end.

Definition of_int (o : option Z) : value :=
  match o with Some z => PyInt z | None => PyNone end.

(** The loop of [_refresh_xml] over [fields]: the object as the loop
    leaves it, and whether an [int()] raised on the way. *)
Fixpoint refresh_fields (fields : list (string * string * string))
    (self : HitCount) (elm : option Element) : HitCount * result unit :=
  match fields with
  | [] => (self, Ok ())
  | (param, path, param_type) :: fields' =>
      if String.eqb param_type "int" then
        match _int elm path with
        | Ok v => refresh_fields fields' (setattr self param (of_int v)) elm
        | Raise e => (self, Raise e)
        end
      else
        refresh_fields fields' (setattr self param (of_str (_str elm path))) elm
  end.

Definition _refresh_xml (self : HitCount) (elm : option Element)
  : HitCount * result unit :=
  refresh_fields FIELDS self elm.

(** [HitCount(obj, name, elm)]. *)
Definition HitCount_init (o : option string) (n : option string)
    (elm : option Element) : result HitCount :=
  let self := mk_HitCount o (match o with None => n | Some u => Some u end) ∅ in
  match _refresh_xml self elm with
  | (self', Ok _) => Ok self'
  | (_, Raise e) => Raise e
  end.

(** [HitCount.refresh(elm)] called with an element, as
    [RulebaseHitCount.refresh] calls it: [elm is None] is false, so the
    call is [self._refresh_xml(elm)].  (Called without an element on the
    hit count of a rule, the method asks the rulebase of the rule for
    this one rule instead.) *)
Definition HitCount_refresh (self : HitCount) (elm : Element)
  : HitCount * result unit :=
  _refresh_xml self (Some elm).

(** ** Rules attached to a rulebase *)

(** A child of the rulebase: its uid, its [HIT_COUNT_STYLE] when the
    class has one, and the hit count held by its [opstate]. *)
Record Rule := mk_Rule {
  uid : string;
  HIT_COUNT_STYLE : option string;
  hit_count : HitCount
}.

(** An item of the [rules] argument: a plain string or a rule object. *)
Inductive rule_arg :=
| ByName (s : string)
| ByRule (r : Rule).

(** [u in rules] for a string [u]: equal to one of the strings of the
    list (a string never equals a rule object). *)
Definition uid_in (u : string) (rules : list rule_arg) : bool :=
  existsb (fun x => match x with
                    | ByName s => String.eqb u s
                    | ByRule _ => false
                    end) rules.

(** [x.uid if hasattr(x, "uid") else x]. *)
Definition member_text (x : rule_arg) : string :=
  match x with
  | ByRule r => uid r
  | ByName s => s
  end.

(** What the returned dict holds for a name: the hit count of the child
    at a position of [children] (the very object, shared with the child),
    or a record of its own. *)
Inductive hit_ref :=
| Live (i : nat)
| Standalone (h : HitCount).

(** The positions in [children] (counted from [i]) that the first loop of
    [refresh] keeps as [kids]. *)
Fixpoint select_kids (i : nat) (children : list Rule) (style : string)
    (rules : option (list rule_arg)) : list nat :=
  match children with
  | [] => []
  | x :: children' =>
      let rest := select_kids (S i) children' style rules in
      match HIT_COUNT_STYLE x with
      | Some s =>
          if negb (String.eqb s style) then rest
          else
            match rules with
            | None => i :: rest
            | Some l => if uid_in (uid x) l then i :: rest else rest
            end
      | None => rest
      end
  end.

(** [a or b] on lists. *)
Definition or_list {A} (a b : list A) : list A :=
  match a with
  | [] => b
  | _ :: _ => a
  end.

Definition kid_rules (children : list Rule) (kids : list nat) : list Rule :=
  omap (fun i => children !! i) kids.

(** The command element handed to [dev.op], with [body] under [<rules>]. *)
Definition hit_count_cmd (vsys_name style : string) (body : list Element)
  : Element :=
  Elem "show" [] None
   [Elem "rule-hit-count" [] None
     [Elem "vsys" [] None
       [Elem "vsys-name" [] None
         [Elem "entry" [("name", vsys_name)] None
           [Elem "rule-base" [] None
             [Elem "entry" [("name", style)] None
               [Elem "rules" [] None body]]]]]]].

Definition member (s : string) : Element := Elem "member" [] (Some s) [].

(** The first kid whose uid is [n], with its position. *)
Fixpoint find_kid (children : list Rule) (kids : list nat) (n : string)
  : option (nat * Rule) :=
  match kids with
  | [] => None
  | i :: kids' =>
      match children !! i with
      | Some x =>
          if String.eqb (uid x) n then Some (i, x)
          else find_kid children kids' n
      | None => find_kid children kids' n
      end
  end.

(** The loop over the response entries.  It threads the children (whose
    hit counts it updates in place) and the dict under construction; an
    exception leaves the updates made so far. *)
Fixpoint collect (kids : list nat) (entries : list Element)
    (children : list Rule) (ans : gmap string hit_ref)
  : list Rule * result (gmap string hit_ref) :=
  match entries with
  | [] => (children, Ok ans)
  | elm :: entries' =>
      match get (attrib elm) "name" with
      | None => (children, Raise (KeyError "name"))
      | Some n =>
          match find_kid children kids n with
          | Some (i, x) =>
              let '(h, r) := HitCount_refresh (hit_count x) elm in
              let children' :=
                <[i := mk_Rule (uid x) (HIT_COUNT_STYLE x) h]> children in
              match r with
              | Ok _ => collect kids entries' children' (<[n := Live i]> ans)
              | Raise e => (children', Raise e)
              end
          | None =>
              match HitCount_init None (Some n) (Some elm) with
              | Ok h => collect kids entries' children (<[n := Standalone h]> ans)
              | Raise e => (children, Raise e)
              end
          end
      end
  end.

Definition response_path : list string :=
  ["result"; "rule-hit-count"; "vsys"; "entry"; "rule-base"; "entry";
   "rules"; "entry"].

(** What a call of [RulebaseHitCount.refresh] leaves behind: the commands
    handed to [dev.op], the children after the call, and the returned
    dict or the exception raised. *)
Record outcome := mk_outcome {
  issued : list Element;
  children_after : list Rule;
  returned : result (gmap string hit_ref)
}.

(** [dev.vsys or "vsys1"]: [None] and the empty string are falsy. *)
Definition vsys_or_default (dev : PanDevice) : string :=
  match vsys dev with
  | Some (String _ _ as v) => v
  | _ => "vsys1"
  end.

(** [RulebaseHitCount.refresh(style, rules, all_rules)] on a rulebase
    whose nearest device is [dev] and whose children are [children]. *)
Definition refresh (dev : PanDevice) (children : list Rule)
    (style : string) (rules : option (list rule_arg)) (all_rules : bool)
  : outcome :=
  if version_ltb (retrieve_panos_version dev) (8, 1, 0)%nat then
    mk_outcome [] children
      (Raise (PanDeviceError "Rule hit count is supported in PAN-OS 8.1+"))
  else
    let kids := select_kids 0 children style rules in
    let vsys_name := vsys_or_default dev in
    let body :=
      if all_rules then Some [new "all" []]
      else
        let rule_list :=
          or_list (default [] rules)
                  (or_list (ByRule <$> kid_rules children kids) []) in
        match rule_list with
        | [] => None
        | _ :: _ => Some [Elem "list" [] None (member ∘ member_text <$> rule_list)]
        end in
    match body with
    | None => mk_outcome [] children (Ok ∅)
    | Some b =>
        let cmd := hit_count_cmd vsys_name style b in
        match op dev cmd with
        | Raise e => mk_outcome [cmd] children (Raise e)
        | Ok res =>
            let '(children', r) :=
              collect kids (findall res response_path) children ∅ in
            mk_outcome [cmd] children' r
        end
    end.

(** The hit count a [hit_ref] stands for, read through [children]. *)
Definition deref (children : list Rule) (r : hit_ref) : option HitCount :=
  match r with
  | Live i => hit_count <$> children !! i
  | Standalone h => Some h
  end.

(** ** RuleAuditComment and AuditCommentLog *)

(** The parent of a rule as [history] sees it: whether it is an instance
    of [Rulebase], [PreRulebase] or [PostRulebase], its [xpath()] and its
    [vsys]. *)
Record Parent := mk_Parent {
  is_rulebase : bool;
  parent_xpath : string;
  parent_vsys : option string
}.

(** The rule an audit-comment accessor belongs to: its uid, its
    [xpath_short()] and its parent, if any. *)
Record RuleObj := mk_RuleObj {
  rule_uid : string;
  xpath_short : string;
  parent : option Parent
}.

Record AuditCommentLog := mk_AuditCommentLog {
  admin : option string;
  comment : option string;
  config_version : option Z;
  time : option time_value
}.

Definition time_format : string := "%Y/%m/%d %H:%M:%S".

(** [AuditCommentLog(elm)]. *)
Definition AuditCommentLog_init (elm : Element) : result AuditCommentLog :=
  let a := _str (Some elm) "admin" in
  let c := _str (Some elm) "comment" in
  bind (_int (Some elm) "config_ver") (fun v =>
  Ok (mk_AuditCommentLog a c v
        (_datetime (Some elm) "time_generated" time_format))).

(** [[AuditCommentLog(x) for x in entries]]. *)
Fixpoint logs_of (entries : list Element) : result (list AuditCommentLog) :=
  match entries with
  | [] => Ok []
  | x :: entries' =>
      bind (AuditCommentLog_init x) (fun l =>
      bind (logs_of entries') (fun ls => Ok (l :: ls)))
  end.

(** [" and (path contains '\\'{0}\\'')".format(x)]: the value between a
    backslash-quote pair, inside quotes. *)
Definition quoted_clause (x : string) : string :=
  " and (path contains '\'" +:+ x +:+ "\'')".

(** The filter string [history] builds, from the uid, the rule-type
    segment, the rulebase segment and the vsys of the parent. *)
Definition history_query (u rule_type rulebase_type : string)
    (v : option string) : string :=
  "(subtype eq audit-comment)"
  +:+ quoted_clause u
  +:+ " and (path contains '" +:+ rule_type +:+ "')"
  +:+ " and (path contains " +:+ rulebase_type +:+ ")"
  +:+ quoted_clause (format_opt v).

Definition history_extra_qs (direction : string) (skip : option Z)
  : gmap string string :=
  let extra_qs := <["uniq" := "yes"]> (<["dir" := direction]> ∅) in
  match skip with
  | Some k => <["skip" := str_of_int k]> extra_qs
  | None => extra_qs
  end.

(** [RuleAuditComment.history(count, direction, skip)]: the log queries
    handed to [dev.xapi.log] and the returned list or the exception. *)
Definition history (dev : PanDevice) (self : RuleObj)
    (count : Z) (direction : string) (skip : option Z)
  : list log_query * result (list AuditCommentLog) :=
  match index_from_end (split "/" (xpath_short self)) 2 with
  | None => ([], Raise IndexError)
  | Some rule_type =>
      match parent self with
      | None => ([], Raise (PanDeviceError "rule has empty parent"))
      | Some p =>
          if negb (is_rulebase p) then
            ([], Raise (PanDeviceError (rule_uid self +:+ " has non-rulebase parent")))
          else
            match index_from_end (split "/" (parent_xpath p)) 1 with
            | None => ([], Raise IndexError)
            | Some rulebase_type =>
                let query :=
                  history_query (rule_uid self) rule_type rulebase_type
                                (parent_vsys p) in
                let q := mk_log_query "config" count query
                                      (history_extra_qs direction skip) in
                match xapi_log dev q with
                | Raise e => ([q], Raise e)
                | Ok resp =>
                    ([q], logs_of (findall resp ["result"; "log"; "logs"; "entry"]))
                end
            end
      end
  end.

(** ** Views used to state properties *)

(** The name attribute of the vsys entry of a command. *)
Definition vsys_entry_name (cmd : Element) : option string :=
  e ← find_path ["rule-hit-count"; "vsys"; "vsys-name"; "entry"] cmd;
  get (attrib e) "name".

(** What [_refresh_xml] stores for one row of [FIELDS]. *)
Definition field_value (elm : option Element) (path ty : string)
  : result value :=
  if String.eqb ty "int" then
    match _int elm path with
    | Ok v => Ok (of_int v)
    | Raise e => Raise e
    end
  else Ok (of_str (_str elm path)).

Definition set_all (kvs : list (string * value)) (m : gmap string value)
  : gmap string value :=
  foldl (fun m kv => <[kv.1 := kv.2]> m) m kvs.

(** The entries of a response that carry the name [n]. *)
Definition named (n : string) (entries : list Element) : list Element :=
  filter (fun elm => get (attrib elm) "name" = Some n) entries.

(** A [rules] argument made of names only. *)
Definition by_names (names : option (list string)) : option (list rule_arg) :=
  (fun l : list string => ByName <$> l) <$> names.

(** The first child of the requested style whose uid is [n], with its
    position. *)
Definition first_match (children : list Rule) (style n : string)
  : option (nat * Rule) :=
  list_find (fun x => HIT_COUNT_STYLE x = Some style ∧ uid x = n) children.

End OpState.


(* ===================================================================== *)
(** * The schema-driven parameter mapper *)
(* ===================================================================== *)

Module Mapper.
Import ET.

(** The engine behind [VersionedParamPath] and [VersionedPanObject]
    ([element()], [parse_xml()] and the version profiles) is defined in
    [panos/base.py], outside this module; the definitions below follow
    its specification. *)

(** ** Parameter specifications *)

(** Modelled from the spec: the value kinds of a parameter
    specification ([vartype] of [panos/base.py]'s [VersionedParamPath]):
    scalar string, boolean-as-token, integer, member-list, entry-list. *)
Inductive value_kind := KString | KYesNo | KInt | KMember | KEntry.

Inductive value :=
| VStr (s : string)
| VBool (b : bool)
| VInt (z : Z)
| VList (l : list string).

#[export] Instance value_eq_dec : EqDecision value.
Proof. solve_decision. Defined.

(** A segment of a path template: a literal element name, or a
    placeholder naming the parameter whose value stands there. *)
Inductive segment :=
| Lit (s : string)
| Ref (param : string).

Record override := mk_override {
  min_version : Py.version;
  o_path : list segment;
  o_kind : value_kind
}.

(** Modelled from the spec: a parameter specification, the data held by
    a [VersionedParamPath] of [panos/base.py]: name, value kind, default,
    allowed values, path template, version overrides, activation
    condition and whether it is excluded by default. *)
Record param_spec := mk_param {
  name : string;
  kind : value_kind;
  default : option value;
  allowed_values : option (list value);
  path_template : list segment;
  version_overrides : list override;
  activation_condition : list (string * list value);
  excluded_by_default : bool
}.

Definition schema := list param_spec.

(** ["a/{b}/c"] as a path template. *)
Definition segment_of (tok : string) : segment :=
  match Py.chars tok with
  | c :: l =>
      match rev l with
      | c' :: l' =>
          if Ascii.eqb c "{" && Ascii.eqb c' "}" then Ref (Py.str (rev l'))
          else Lit tok
      | [] => Lit tok
      end
  | [] => Lit tok
  end.

Definition path (s : string) : list segment :=
  segment_of <$> Py.split "/" s.

(** ** Entity instances *)

(** An entity holds a value for every parameter that was given one or
    has a default; the others are unset (absent from [settings]). *)
Record entity := mk_entity {
  ent_name : string;
  settings : gmap string value
}.

(** The value a parameter starts with: the one given, else the default. *)
Definition initial (given : gmap string value) (p : param_spec)
  : option value :=
  match given !! name p with
  | Some x => Some x
  | None => default p
  end.

Definition assign (n : string) (o : option value) (m : gmap string value)
  : gmap string value :=
  match o with
  | Some x => <[n := x]> m
  | None => m
  end.

Definition fill (given : gmap string value) (m : gmap string value)
    (p : param_spec) : gmap string value :=
  assign (name p) (initial given p) m.

(** Modelled from the spec: construction of an entity
    ([VersionedPanObject.__init__] of [panos/base.py]) from a name and
    optional parameter values; a parameter that is given no value takes
    its default. *)
Definition make_entity (sch : schema) (n : string)
    (given : gmap string value) : entity :=
  mk_entity n (foldl (fill given) ∅ sch).

(** ** Resolution of the effective path *)

(** The qualifying override with the greatest minimum version (the later
    one among equals). *)
Definition pick (v : Py.version) (best : option override) (o : override)
  : option override :=
  if Py.version_leb (min_version o) v then
    match best with
    | Some b =>
        if Py.version_leb (min_version b) (min_version o) then Some o
        else Some b
    | None => Some o
    end
  else best.

(** Modelled from the spec: version profile selection of
    [panos/base.py], step 1 of [build].  The effective path template and
    value kind at version [v] are those of the qualifying override with
    the greatest minimum version, else the base declaration; [None] when
    the parameter is excluded by default and no override qualifies. *)
Definition effective (p : param_spec) (v : Py.version)
  : option (list segment * value_kind) :=
  match foldl (pick v) None (version_overrides p) with
  | Some o => Some (o_path o, o_kind o)
  | None =>
      if excluded_by_default p then None
      else Some (path_template p, kind p)
  end.

(** Modelled from the spec: the activation condition of
    [panos/base.py]'s [ParamPath], step 2 of [build].  Every condition
    parameter holds one of its allowed values. *)
Definition condition_holds (m : gmap string value)
    (cond : list (string * list value)) : bool :=
  forallb (fun c => match m !! c.1 with
                    | Some x => bool_decide (x ∈ c.2)
                    | None => false
                    end) cond.

(** Modelled from the spec: placeholder resolution of [panos/base.py],
    step 3 of [build].  Placeholders are replaced by the current (string)
    value of the parameter they name; [None] when one has no such
    value. *)
Fixpoint resolve (m : gmap string value) (tpl : list segment)
  : option (list string) :=
  match tpl with
  | [] => Some []
  | Lit s :: tpl' => r ← resolve m tpl'; Some (s :: r)
  | Ref n :: tpl' =>
      match m !! n with
      | Some (VStr s) => r ← resolve m tpl'; Some (s :: r)
      | _ => None
      end
  end.

(** Steps 1 to 3 together: where the parameter lives and how it is
    represented, or [None] when it is skipped. *)
Definition target (m : gmap string value) (v : Py.version) (p : param_spec)
  : option (list string * value_kind) :=
  match effective p v with
  | Some (tpl, k) =>
      if condition_holds m (activation_condition p) then
        r ← resolve m tpl; Some (r, k)
      else None
  | None => None
  end.

(** ** Building *)

Inductive error :=
| MalformedXml
| ValueNotAllowed (param : string)
| WrongType (param : string)
| NotAnInteger (param : string).

Inductive res (A : Type) :=
| Done (a : A)
| Fail (e : error).
Arguments Done {A} a.
Arguments Fail {A} e.

Definition allowed (p : param_spec) (x : value) : bool :=
  match allowed_values p with
  | Some l => bool_decide (x ∈ l)
  | None => true
  end.

Definition member (s : string) : Element := Elem "member" [] (Some s) [].
Definition entry (s : string) : Element := Elem "entry" [("name", s)] None [].

Definition add_children (c : list Element) (e : Element) : Element :=
  match e with
  | Elem t a x c0 => Elem t a x (c0 ++ c)
  end.

(** A value as a list kind takes it: a string given for a member-list or
    an entry-list stands for the list of that one item (so the default
    ["application-default"] that [SecurityRule._setup] declares for
    [service], a string with [vartype="member"]); other values are taken
    as they are. *)
Definition as_kind (k : value_kind) (x : value) : value :=
  match k, x with
  | KMember, VStr s => VList [s]
  | KEntry, VStr s => VList [s]
  | _, _ => x
  end.

(** Modelled from the spec: the leaf representation per value kind,
    step 4 of [build] ([ParamPath.element] of [panos/base.py]).  [None]
    when the value has the wrong type for the kind. *)
Definition leaf (k : value_kind) (x : value) : option (Element -> Element) :=
  match k, as_kind k x with
  | KString, VStr s => Some (fun e => set_text e s)
  | KYesNo, VBool b => Some (fun e => set_text e (if b then "yes" else "no"))
  | KInt, VInt z => Some (fun e => set_text e (Py.str_of_int z))
  | KMember, VList l => Some (add_children (member <$> l))
  | KEntry, VList l => Some (add_children (entry <$> l))
  | _, _ => None
  end.

(** Modelled from the spec: the chain of elements of step 4 of [build],
    intermediate elements being created only once.  [update_child]
    applies [f] to the first child tagged [t], created at the end when
    there is none; [update_at] walks a whole path that way. *)
Fixpoint update_child (t : string) (f : Element -> Element)
    (c : list Element) : list Element :=
  match c with
  | [] => [f (new t [])]
  | e :: c' =>
      if String.eqb (tag e) t then f e :: c'
      else e :: update_child t f c'
  end.

Fixpoint update_at (rp : list string) (f : Element -> Element)
    (e : Element) : Element :=
  match rp with
  | [] => f e
  | t :: rp' =>
      match e with
      | Elem tg a x c => Elem tg a x (update_child t (update_at rp' f) c)
      end
  end.

(** Modelled from the spec: one parameter of [build].  A skipped or
    unset parameter emits nothing; a value outside the allowed set or of
    the wrong type is a value error. *)
Definition emit (e : entity) (v : Py.version) (t : Element) (p : param_spec)
  : res Element :=
  match target (settings e) v p with
  | None => Done t
  | Some (rp, k) =>
      match settings e !! name p with
      | None => Done t
      | Some x =>
          if allowed p x then
            match leaf k x with
            | Some f => Done (update_at rp f t)
            | None => Fail (WrongType (name p))
            end
          else Fail (ValueNotAllowed (name p))
      end
  end.

Fixpoint build_from (e : entity) (v : Py.version) (ps : schema) (t : Element)
  : res Element :=
  match ps with
  | [] => Done t
  | p :: ps' =>
      match emit e v t p with
      | Done t' => build_from e v ps' t'
      | Fail err => Fail err
      end
  end.

(** Modelled from the spec: [build(entity, device_version)]
    ([VersionedPanObject.element] of [panos/base.py]), over the
    parameters in declaration order, starting from the entity's own
    [<entry name=...>] element. *)
Definition build (sch : schema) (e : entity) (v : Py.version) : res Element :=
  build_from e v sch (Elem "entry" [("name", ent_name e)] None []).

(** ** Parsing *)

(** Modelled from the spec: decoding per value kind
    ([ParamPath.parse_xml] of [panos/base.py]): the text of a scalar,
    [yes]/[no] for a boolean, an integer, the texts of the [<member>]
    children, the names of the [<entry>] children.  [Done None] when a
    scalar element has no text. *)
Definition decode (n : string) (k : value_kind) (x : Element)
  : res (option value) :=
  match k with
  | KString => Done (VStr <$> text x)
  | KYesNo =>
      match text x with
      | Some s =>
          if String.eqb s "yes" then Done (Some (VBool true))
          else if String.eqb s "no" then Done (Some (VBool false))
          else Fail MalformedXml
      | None => Done None
      end
  | KInt =>
      match text x with
      | Some s =>
          match Py.int s with
          | Some z => Done (Some (VInt z))
          | None => Fail (NotAnInteger n)
          end
      | None => Done None
      end
  | KMember =>
      Done (Some (VList (omap text (children_tagged "member" x))))
  | KEntry =>
      Done (Some (VList (omap (fun c => get (attrib c) "name")
                              (children_tagged "entry" x))))
  end.

(** Modelled from the spec: one parameter of [parse].  Conditions and
    placeholders are evaluated against the values parsed so far; a
    skipped parameter, or one whose path is absent, takes its default. *)
Definition absorb (t : Element) (v : Py.version) (m : gmap string value)
    (p : param_spec) : res (gmap string value) :=
  let skipped := assign (name p) (default p) m in
  match target m v p with
  | None => Done skipped
  | Some (rp, k) =>
      match find_path rp t with
      | None => Done skipped
      | Some x =>
          match decode (name p) k x with
          | Done (Some val) =>
              if allowed p val then Done (<[name p := val]> m)
              else Fail (ValueNotAllowed (name p))
          | Done None => Done m
          | Fail err => Fail err
          end
      end
  end.

Fixpoint parse_from (t : Element) (v : Py.version) (ps : schema)
    (m : gmap string value) : res (gmap string value) :=
  match ps with
  | [] => Done m
  | p :: ps' =>
      match absorb t v m p with
      | Done m' => parse_from t v ps' m'
      | Fail err => Fail err
      end
  end.

(** Modelled from the spec: [parse(xml_subtree, device_version)]
    ([VersionedPanObject.parse_xml] of [panos/base.py]), over the
    parameters in declaration order. *)
Definition parse (sch : schema) (t : Element) (v : Py.version)
  : res (gmap string value) :=
  parse_from t v sch ∅.

(** ** Well-formed schemas *)

Fixpoint is_prefix (a b : list string) : bool :=
  match a, b with
  | [], _ => true
  | x :: a', y :: b' => String.eqb x y && is_prefix a' b'
  | _ :: _, [] => false
  end.

(** Neither path leads through the element of the other. *)
Definition incomparable (a b : list string) : bool :=
  negb (is_prefix a b) && negb (is_prefix b a).

(** The paths are non-empty and pairwise incomparable. *)
Fixpoint independent (rs : list (list string)) : bool :=
  match rs with
  | [] => true
  | r :: rs' =>
      match r with
      | [] => false
      | _ :: _ => forallb (incomparable r) rs' && independent rs'
      end
  end.

(** The resolved paths of the parameters that are not skipped. *)
Definition targets (m : gmap string value) (v : Py.version) (sch : schema)
  : list (list string) :=
  omap (fun p => fst <$> target m v p) sch.

Definition placeholders (tpl : list segment) : list string :=
  omap (fun s => match s with Ref n => Some n | Lit _ => None end) tpl.

(** The parameters the effective path and the conditions of [p] name. *)
Definition references (v : Py.version) (p : param_spec) : list string :=
  match effective p v with
  | Some (tpl, _) => (fst <$> activation_condition p) ++ placeholders tpl
  | None => []
  end.

(** Every parameter only names itself or parameters declared before
    it. *)
Fixpoint declared_no_later (v : Py.version) (seen : list string)
    (sch : schema) : bool :=
  match sch with
  | [] => true
  | p :: sch' =>
      forallb (fun n => bool_decide (n ∈ name p :: seen)) (references v p)
      && declared_no_later v (name p :: seen) sch'
  end.

(** Where [parse] looks for a parameter when it reaches it: its own
    value is not known then, so its conditions and placeholders are
    evaluated against the values of the other parameters.  A parameter
    whose path names the parameter itself is skipped by [parse]. *)
Definition parse_target (m : gmap string value) (v : Py.version)
    (p : param_spec) : option (list string * value_kind) :=
  target (delete (name p) m) v p.

(** Every parameter that [parse] skips holds its default (or is unset
    when it has none). *)
Definition defaults_when_skipped (m : gmap string value) (v : Py.version)
    (sch : schema) : bool :=
  forallb (fun p => match parse_target m v p with
                    | None => bool_decide (m !! name p = default p)
                    | Some _ => true
                    end) sch.

(** Every parameter that [parse] does not skip and that holds a value of
    a list kind holds it as a list, not as a bare string. *)
Definition lists_as_lists (m : gmap string value) (v : Py.version)
    (sch : schema) : bool :=
  forallb (fun p => match parse_target m v p, m !! name p with
                    | Some (_, k), Some x => bool_decide (as_kind k x = x)
                    | _, _ => true
                    end) sch.

(** A leaf function that leaves the tag of its element alone. *)
Definition keeps_tag (f : Element → Element) : Prop := ∀ e, tag (f e) = tag e.

End Mapper.

(* ===================================================================== *)
(** * Schemas declared by the module *)
(* ===================================================================== *)

Module Schemas.
Import Mapper.

Definition kind_of (vartype : option string) : value_kind :=
  match vartype with
  | None => KString
  | Some t =>
      if String.eqb t "member" then KMember
      else if String.eqb t "entry" then KEntry
      else if String.eqb t "yesno" then KYesNo
      else if String.eqb t "int" then KInt
      else KString
  end.

(** [VersionedParamPath(n, default=d, vartype=vt, path=p)]. *)
Definition VersionedParamPath (n : string) (d : option value)
    (vt : option string) (p : string) : param_spec :=
  mk_param n (kind_of vt) d None (path p) [] [] false.

(** [VersionedParamPath(n, default=d, values=vs, condition=c, path=p)]. *)
Definition ConditionalParamPath (n : string) (d : option value)
    (vs : option (list value)) (c : list (string * list value)) (p : string)
  : param_spec :=
  mk_param n KString d vs (path p) [] c false.

Definition any_defaults : list (string * string) :=
  [ ("fromzone", "from"); ("tozone", "to"); ("source", "source");
    ("source_user", "source-user"); ("hip_profiles", "hip-profiles");
    ("destination", "destination"); ("application", "application") ].

Definition member_profiles : list string :=
  [ "virus"; "spyware"; "vulnerability"; "url-filtering"; "file-blocking";
    "wildfire-analysis"; "data-filtering" ].

(** The parameters [SecurityRule._setup] declares without a version
    profile, in declaration order.  ([uuid], [source_devices],
    [destination_devices] and [group_tag], which only exist through
    [add_profile], are not among them.) *)
Definition SecurityRule_params : schema :=
  ((fun vp => VersionedParamPath vp.1 (Some (VList ["any"])) (Some "member") vp.2)
     <$> any_defaults)
  ++ [ VersionedParamPath "service" (Some (VStr "application-default"))
         (Some "member") "service";
       VersionedParamPath "category" (Some (VList ["any"])) (Some "member")
         "category";
       VersionedParamPath "action" None None "action";
       VersionedParamPath "log_setting" None None "log-setting";
       VersionedParamPath "log_start" None (Some "yesno") "log-start";
       VersionedParamPath "log_end" None (Some "yesno") "log-end";
       VersionedParamPath "description" None None "description";
       VersionedParamPath "type" (Some (VStr "universal")) None "rule-type";
       VersionedParamPath "tag" None (Some "member") "tag";
       VersionedParamPath "negate_source" None (Some "yesno") "negate-source";
       VersionedParamPath "negate_destination" None (Some "yesno")
         "negate-destination";
       VersionedParamPath "disabled" None (Some "yesno") "disabled";
       VersionedParamPath "schedule" None None "schedule";
       VersionedParamPath "icmp_unreachable" None (Some "yesno")
         "icmp-unreachable";
       VersionedParamPath "disable_server_response_inspection" None
         (Some "yesno") "option/disable-server-response-inspection";
       VersionedParamPath "group" None (Some "member") "profile-setting/group";
       VersionedParamPath "negate_target" None (Some "yesno") "target/negate";
       VersionedParamPath "target" None (Some "entry") "target/devices" ]
  ++ ((fun p => VersionedParamPath p None (Some "member")
                  ("profile-setting/profiles/" +:+ p))
        <$> member_profiles).

(** A selector and a parameter that depends on it, after the [action] /
    [forward_vsys] pair of [PolicyBasedForwarding._setup].  The selector
    is stored as the text of its own element, so that no placeholder
    names the parameter being resolved. *)
Definition forwarding_params : schema :=
  [ ConditionalParamPath "action" (Some (VStr "forward"))
      (Some [VStr "forward"; VStr "forward-to-vsys"; VStr "discard";
             VStr "no-pbf"])
      [] "action";
    ConditionalParamPath "forward_vsys" None None
      [("action", [VStr "forward-to-vsys"])] "forward/{action}/vsys" ].

End Schemas.

(* ===================================================================== *)
(** * Example devices, rules and responses *)
(* ===================================================================== *)

Module Examples.
Import Py ET OpState.

(** Devices used in the examples: PAN-OS 10.0.0 and 8.0.5, with a
    transport that answers every command with [res]. *)
Definition device (v : version) (vs : option string) (res : Element)
  : PanDevice :=
  mk_PanDevice v vs (fun _ => Ok res) (fun _ => Ok res).

Definition empty_response : Element := Elem "response" [] None [].

Definition blank (u : string) : HitCount := mk_HitCount (Some u) (Some u) ∅.

Definition security_rule (u : string) : Rule :=
  mk_Rule u (Some "security") (blank u).

Definition nat_rule (u : string) : Rule := mk_Rule u (Some "nat") (blank u).

(** The entry of the example: [<entry name="r1"><hit-count>42</hit-count>
    </entry>]. *)
Definition entry_r1 : Element :=
  Elem "entry" [("name", "r1")] None [Elem "hit-count" [] (Some "42") []].

(** A response with the single entry [r1]. *)
Definition response_r1 : Element :=
  Elem "response" [("status", "success")] None [Elem "result" [] None
    [Elem "rule-hit-count" [] None [Elem "vsys" [] None
      [Elem "entry" [("name", "vsys1")] None
        [Elem "rule-base" [] None
          [Elem "entry" [("name", "security")] None
            [Elem "rules" [] None [entry_r1]]]]]]]].

(** A response with two entries, [r1] and [r9]. *)
Definition response_r1_r9 : Element :=
  Elem "response" [("status", "success")] None [Elem "result" [] None
    [Elem "rule-hit-count" [] None [Elem "vsys" [] None
      [Elem "entry" [("name", "vsys1")] None
        [Elem "rule-base" [] None
          [Elem "entry" [("name", "security")] None
            [Elem "rules" [] None
              [entry_r1;
               Elem "entry" [("name", "r9")] None
                 [Elem "latest" [] (Some "yes") [];
                  Elem "hit-count" [] (Some "7") []]]]]]]]]].

(** A security rule [r1] in the rulebase of [vsys1]. *)
Definition rule_r1 : RuleObj :=
  mk_RuleObj "r1"
    "/config/devices/entry[@name='localhost.localdomain']/vsys/entry[@name='vsys1']/rulebase/security/rules"
    (Some (mk_Parent true
             "/config/devices/entry[@name='localhost.localdomain']/vsys/entry[@name='vsys1']/rulebase"
             (Some "vsys1"))).

(** Two audit-comment log entries: one with a well-formed time, one
    with a malformed one. *)
Definition audit_entry : Element :=
  Elem "entry" [("logid", "1")] None
    [Elem "admin" [] (Some "admin") [];
     Elem "comment" [] (Some "allow dns") [];
     Elem "config_ver" [] (Some "7") [];
     Elem "time_generated" [] (Some "2021/01/02 03:04:05") []].

Definition audit_entry_bad_time : Element :=
  Elem "entry" [("logid", "2")] None
    [Elem "admin" [] (Some "admin") [];
     Elem "time_generated" [] (Some "not-a-date") []].

End Examples.

Module MapperExamples.
Import Mapper.

(** A security rule: zones, action, logging, service and targets given,
    everything else left to the defaults. *)
Definition security_given : gmap string value :=
  <["fromzone" := VList ["any"]]>
    (<["action" := VStr "allow"]>
       (<["log_start" := VBool true]>
          (<["service" := VList ["application-default"]]>
             (<["tag" := VList []]>
                (<["target" := VList ["fw1"; "fw2"]]> ∅))))).

(** A forwarding rule whose [forward_vsys] is set although its [action]
    is left at [forward]. *)
Definition forwarding_given : gmap string value :=
  <["forward_vsys" := VStr "vsys2"]> ∅.

End MapperExamples.


(* ===================================================================== *)
(** * Further views and examples of the operational state *)
(* ===================================================================== *)

Module OpStateViews.
Import Py ET OpState.

(** An integer row of [fields] whose node in [elm] holds text that
    [int()] rejects. *)
Definition bad_int (fields : list (string * string * string))
    (elm : option Element) : Prop :=
  ∃ param path s,
    (param, path, "int") ∈ fields ∧ _str elm path = Some s ∧ Py.int s = None.

(** The [name] attributes of the entries of a response. *)
Definition entry_names (entries : list Element) : list (option string) :=
  (fun elm => get (attrib elm) "name") <$> entries.

(** The children of the rulebase that have the style [style]. *)
Definition attached (children : list Rule) (style : string) : list Rule :=
  filter (fun x => HIT_COUNT_STYLE x = Some style) children.

(** Two lists of children that agree on uids and styles. *)
Definition same_rules (c1 c0 : list Rule) : Prop :=
  Forall2 (fun a b => uid a = uid b ∧ HIT_COUNT_STYLE a = HIT_COUNT_STYLE b)
          c1 c0.

(** What [refresh] puts under [<rules>]: [<all/>], the [<list>] of the
    rules asked for, or nothing when there is nothing to ask. *)
Definition request_body (children : list Rule) (style : string)
    (rules : option (list rule_arg)) (all_rules : bool)
  : option (list Element) :=
  if all_rules then Some [new "all" []]
  else
    let rule_list :=
      or_list (default [] rules)
              (or_list (ByRule <$> kid_rules children
                                     (select_kids 0 children style rules))
                       []) in
    match rule_list with
    | [] => None
    | _ :: _ => Some [Elem "list" [] None (member ∘ member_text <$> rule_list)]
    end.

End OpStateViews.

(* ===================================================================== *)
(** * The rest of the operational state *)
(* ===================================================================== *)

Module RuleOpState.
Import Py ET OpState.

(** The command [current] builds: [<show><config><list><audit-comments>
    <xpath>] with the rule's [xpath()] as text. *)
Definition current_cmd (xpath : string) : Element :=
  Elem "show" [] None
    [Elem "config" [] None
       [Elem "list" [] None
          [Elem "audit-comments" [] None [set_text (new "xpath" []) xpath]]]].

(** [RuleAuditComment.current()] for a rule whose [xpath()] is [xpath]:
    the commands handed to [dev.op], and the returned text ([None] when
    the response has no [result/entry/comment]) or the exception.
    [ans.find(path)] is the first element, in document order, that
    [ans.findall(path)] gives. *)
Definition current (dev : PanDevice) (xpath : string)
  : list Element * result (option string) :=
  let cmd := current_cmd xpath in
  match op dev cmd with
  | Raise e => ([cmd], Raise e)
  | Ok ans =>
      ([cmd],
       Ok match head (findall ans ["result"; "entry"; "comment"]) with
          | Some resp => text resp
          | None => None
          end)
  end.

(** The command [update] builds: [<set><audit-comment>] with the rule's
    [xpath()] and the comment as the texts of two children. *)
Definition update_cmd (xpath comment : string) : Element :=
  Elem "set" [] None
    [Elem "audit-comment" [] None
       [set_text (new "xpath" []) xpath;
        set_text (new "comment" []) comment]].

(** [RuleAuditComment.update(comment)]: the response is not looked at. *)
Definition update (dev : PanDevice) (xpath comment : string)
  : list Element * result unit :=
  let cmd := update_cmd xpath comment in
  match op dev cmd with
  | Raise e => ([cmd], Raise e)
  | Ok _ => ([cmd], Ok ())
  end.

(** [HitCount.refresh()] called without an element on the hit count of a
    rule ([self.obj] is the rule): the call
    [self.obj.parent.opstate.hit_count.refresh(self.obj.HIT_COUNT_STYLE,
    [self.name])], whose dict is dropped.  [children] are the children
    of the rule's parent, [style] is the rule's [HIT_COUNT_STYLE] and
    [n] is [self.name]. *)
Definition HitCount_refresh_bound (dev : PanDevice) (children : list Rule)
    (style n : string) : list Element * list Rule * result unit :=
  let o := refresh dev children style (Some [ByName n]) false in
  (issued o, children_after o,
   match returned o with
   | Ok _ => Ok ()
   | Raise e => Raise e
   end).

End RuleOpState.

(* ===================================================================== *)
(** * The classes of the module *)
(* ===================================================================== *)

Module Classes.

Inductive rulebase_class := Rulebase | PreRulebase | PostRulebase.

Inductive rule_class := SecurityRule | NatRule | PolicyBasedForwarding.

(** The xpath each [_setup] registers with [self._xpaths.add_profile]. *)
Definition rulebase_xpath (k : rulebase_class) : string :=
  match k with
  | Rulebase => "/rulebase"
  | PreRulebase => "/pre-rulebase"
  | PostRulebase => "/post-rulebase"
  end.

Definition rule_xpath (c : rule_class) : string :=
  match c with
  | SecurityRule => "/security/rules"
  | NatRule => "/nat/rules"
  | PolicyBasedForwarding => "/pbf/rules"
  end.

(** The class attribute [HIT_COUNT_STYLE]. *)
Definition class_HIT_COUNT_STYLE (c : rule_class) : string :=
  match c with
  | SecurityRule => "security"
  | NatRule => "nat"
  | PolicyBasedForwarding => "pbf"
  end.

End Classes.

(* ===================================================================== *)
(** * The parameters the rule classes declare *)
(* ===================================================================== *)

Module Declarations.
Import Py Classes.

(** The values written in the declarations: [None], a string, or a list
    (or tuple) of strings. *)
Inductive pyvalue :=
| NoneV
| Str (s : string)
| Strs (l : list string).

#[export] Instance pyvalue_eq_dec : EqDecision pyvalue.
Proof. solve_decision. Defined.

(** The keyword arguments of [VersionedParamPath(...)] and of
    [add_profile(...)]. *)
Inductive kwarg :=
| Path (p : string)
| Default (v : pyvalue)
| Vartype (t : string)
| Values (vs : list pyvalue)
| Condition (c : list (string * pyvalue))
| Exclude (b : bool).

(** A parameter as [_setup] leaves it: its name, the keyword arguments
    of its constructor call, and the version and keyword arguments of
    each [add_profile] call made on it, in order. *)
Record param := mk_param {
  p_name : string;
  p_args : list kwarg;
  p_profiles : list (string * list kwarg)
}.

Definition VersionedParamPath (n : string) (args : list kwarg) : param :=
  mk_param n args [].

(** The statements of [_setup] that act on [params]:
    [params.append(p)] and [params[-1].add_profile(version, ...)]. *)
Inductive stmt :=
| append (p : param)
| add_profile (version : string) (args : list kwarg).

(** One statement; [params[-1]] on an empty list raises [IndexError]. *)
Definition exec (params : list param) (s : stmt) : option (list param) :=
  match s with
  | append p => Some (params ++ [p])
  | add_profile v args =>
      match rev params with
      | p :: before =>
          Some (rev before
                ++ [mk_param (p_name p) (p_args p) (p_profiles p ++ [(v, args)])])
      | [] => None
      end
  end.

Definition run (stmts : list stmt) : option (list param) :=
  foldl (fun st s => st ≫= fun params => exec params s) (Some []) stmts.

(** [sep.join(l)]. *)
Fixpoint join (sep : string) (l : list string) : string :=
  match l with
  | [] => EmptyString
  | [s] => s
  | s :: l' => s +:+ sep +:+ join sep l'
  end.

(** The [params] list [SecurityRule._setup] builds. *)
Definition SecurityRule_setup : option (list param) :=
  let any_defaults :=
    [ ("fromzone", "from"); ("tozone", "to"); ("source", "source");
      ("source_user", "source-user"); ("hip_profiles", "hip-profiles");
      ("destination", "destination"); ("application", "application") ] in
  let member_profiles :=
    [ "virus"; "spyware"; "vulnerability"; "url-filtering"; "file-blocking";
      "wildfire-analysis"; "data-filtering" ] in
  run
    (((fun '(var_name, path) =>
         append (VersionedParamPath var_name
                   [Default (Strs ["any"]); Vartype "member"; Path path]))
        <$> any_defaults)
     ++ [
      append (VersionedParamPath "service"
          [Default (Str "application-default"); Vartype "member";
           Path "service"]);
      append (VersionedParamPath "category"
          [Default (Strs ["any"]); Vartype "member"; Path "category"]);
      append (VersionedParamPath "action" [Path "action"]);
      append (VersionedParamPath "log_setting" [Path "log-setting"]);
      append (VersionedParamPath "log_start"
          [Path "log-start"; Vartype "yesno"]);
      append (VersionedParamPath "log_end" [Path "log-end"; Vartype "yesno"]);
      append (VersionedParamPath "description" [Path "description"]);
      append (VersionedParamPath "type"
          [Default (Str "universal"); Path "rule-type"]);
      append (VersionedParamPath "tag" [Path "tag"; Vartype "member"]);
      append (VersionedParamPath "negate_source"
          [Path "negate-source"; Vartype "yesno"]);
      append (VersionedParamPath "negate_destination"
          [Path "negate-destination"; Vartype "yesno"]);
      append (VersionedParamPath "disabled"
          [Path "disabled"; Vartype "yesno"]);
      append (VersionedParamPath "schedule" [Path "schedule"]);
      append (VersionedParamPath "icmp_unreachable"
          [Path "icmp-unreachable"; Vartype "yesno"]);
      append (VersionedParamPath "disable_server_response_inspection"
          [Vartype "yesno";
           Path "option/disable-server-response-inspection"]);
      append (VersionedParamPath "group"
          [Path "profile-setting/group"; Vartype "member"]);
      append (VersionedParamPath "negate_target"
          [Path "target/negate"; Vartype "yesno"]);
      append (VersionedParamPath "target"
          [Path "target/devices"; Vartype "entry"]) ]
     ++ ((fun p =>
            append (VersionedParamPath p
                      [Vartype "member";
                       Path ("profile-setting/profiles/" +:+ p)]))
           <$> member_profiles)
     ++ [
      append (VersionedParamPath "uuid" [Exclude true]);
      add_profile "9.0.0" [Vartype "attrib"; Path "uuid"];
      append (VersionedParamPath "source_devices"
          [Default (Strs ["any"]); Exclude true]);
      add_profile "10.0.0" [Vartype "member"; Path "source-hip"];
      append (VersionedParamPath "destination_devices"
          [Default (Strs ["any"]); Exclude true]);
      add_profile "10.0.0" [Vartype "member"; Path "destination-hip"];
      append (VersionedParamPath "group_tag" [Exclude true]);
      add_profile "9.0.0" [Path "group-tag"] ]).

(** The [params] list [NatRule._setup] builds. *)
Definition NatRule_setup : option (list param) :=
  run [
    append (VersionedParamPath "description" [Path "description"]);
    append (VersionedParamPath "nat_type"
        [Path "nat-type"; Default (Str "ipv4");
         Values [Str "ipv4"; Str "nat64"; Str "nptv6"]]);
    append (VersionedParamPath "fromzone"
        [Default (Strs ["any"]); Vartype "member"; Path "from"]);
    append (VersionedParamPath "tozone" [Vartype "member"; Path "to"]);
    append (VersionedParamPath "to_interface" [Path "to-interface"]);
    append (VersionedParamPath "service"
        [Default (Str "any"); Path "service"]);
    append (VersionedParamPath "source"
        [Default (Strs ["any"]); Vartype "member"; Path "source"]);
    append (VersionedParamPath "destination"
        [Default (Strs ["any"]); Vartype "member"; Path "destination"]);
    append (VersionedParamPath "source_translation_type"
        [Path "source-translation/{source_translation_type}";
         Values [Str "dynamic-ip-and-port"; Str "dynamic-ip"; Str "static-ip"]]);
    append (VersionedParamPath "source_translation_address_type"
        [Path (join "/" ["source-translation"; "{source_translation_type}";
                         "{source_translation_address_type}"]);
         Values [Str "interface-address"; Str "translated-address"];
         Default (Str "translated-address");
         Condition [("source_translation_type",
                     Strs ["dynamic-ip-and-port"; "dynamic-ip"])]]);
    append (VersionedParamPath "source_translation_interface"
        [Path (join "/" ["source-translation"; "{source_translation_type}";
                         "{source_translation_address_type}"; "interface"]);
         Condition [("source_translation_type", Str "dynamic-ip-and-port");
                    ("source_translation_address_type",
                     Str "interface-address")]]);
    append (VersionedParamPath "source_translation_ip_address"
        [Path (join "/" ["source-translation"; "{source_translation_type}";
                         "{source_translation_address_type}"; "ip"]);
         Condition [("source_translation_type", Str "dynamic-ip-and-port");
                    ("source_translation_address_type",
                     Str "interface-address")]]);
    append (VersionedParamPath "source_translation_translated_addresses"
        [Vartype "member";
         Path (join "/" ["source-translation"; "{source_translation_type}";
                         "{source_translation_address_type}"]);
         Condition [("source_translation_type",
                     Strs ["dynamic-ip-and-port"; "dynamic-ip"]);
                    ("source_translation_address_type",
                     Str "translated-address")]]);
    append (VersionedParamPath "source_translation_fallback_type"
        [Path (join "/" ["source-translation"; "{source_translation_type}";
                         "fallback"; "{source_translation_fallback_type}"]);
         Values [Str "translated-address"; Str "interface-address"];
         Condition [("source_translation_type", Str "dynamic-ip")]]);
    append (VersionedParamPath "source_translation_fallback_translated_addresses"
        [Path (join "/" ["source-translation"; "{source_translation_type}";
                         "fallback"; "{source_translation_fallback_type}"]);
         Vartype "member";
         Condition [("source_translation_type", Str "dynamic-ip");
                    ("source_translation_fallback_type",
                     Str "translated-address")]]);
    append (VersionedParamPath "source_translation_fallback_interface"
        [Path (join "/" ["source-translation"; "{source_translation_type}";
                         "fallback"; "{source_translation_fallback_type}";
                         "interface"]);
         Condition [("source_translation_type", Str "dynamic-ip");
                    ("source_translation_fallback_type",
                     Str "interface-address")]]);
    append (VersionedParamPath "source_translation_fallback_ip_type"
        [Path (join "/" ["source-translation"; "{source_translation_type}";
                         "fallback"; "{source_translation_fallback_type}";
                         "{source_translation_fallback_ip_type}"]);
         Values [Str "ip"; Str "floating-ip"]; Default (Str "ip");
         Condition [("source_translation_type", Str "dynamic-ip");
                    ("source_translation_fallback_type",
                     Str "interface-address")]]);
    append (VersionedParamPath "source_translation_fallback_ip_address"
        [Path (join "/" ["source-translation"; "{source_translation_type}";
                         "fallback"; "{source_translation_fallback_type}";
                         "{source_translation_fallback_ip_type}"]);
         Condition [("source_translation_type", Str "dynamic-ip");
                    ("source_translation_fallback_type",
                     Str "interface-address")]]);
    append (VersionedParamPath "source_translation_static_translated_address"
        [Path (join "/" ["source-translation"; "{source_translation_type}";
                         "translated-address"]);
         Condition [("source_translation_type", Str "static-ip")]]);
    append (VersionedParamPath "source_translation_static_bi_directional"
        [Vartype "yesno";
         Path (join "/" ["source-translation"; "{source_translation_type}";
                         "bi-directional"]);
         Condition [("source_translation_type", Str "static-ip")]]);
    append (VersionedParamPath "destination_translated_address"
        [Path "destination-translation/translated-address"]);
    append (VersionedParamPath "destination_translated_port"
        [Vartype "int"; Path "destination-translation/translated-port"]);
    append (VersionedParamPath "ha_binding"
        [Path "active-active-device-binding";
         Values [Str "primary"; Str "both"; Str "0"; Str "1"]]);
    append (VersionedParamPath "disabled" [Vartype "yesno"; Path "disabled"]);
    append (VersionedParamPath "negate_target"
        [Path "target/negate"; Vartype "yesno"]);
    append (VersionedParamPath "target"
        [Path "target/devices"; Vartype "entry"]);
    append (VersionedParamPath "tag" [Path "tag"; Vartype "member"]);
    append (VersionedParamPath "destination_dynamic_translated_address"
        [Exclude true]);
    add_profile "8.1.0"
        [Path "dynamic-destination-translation/translated-address"];
    append (VersionedParamPath "destination_dynamic_translated_port"
        [Exclude true]);
    add_profile "8.1.0"
        [Path "dynamic-destination-translation/translated-port";
         Vartype "int"];
    append (VersionedParamPath "destination_dynamic_translated_distribution"
        [Exclude true]);
    add_profile "8.1.0"
        [Path "dynamic-destination-translation/distribution";
         Values [Str "round-robin"]];
    append (VersionedParamPath "uuid" [Exclude true]);
    add_profile "9.0.0" [Vartype "attrib"; Path "uuid"];
    append (VersionedParamPath "group_tag" [Exclude true]);
    add_profile "9.0.0" [Path "group-tag"] ].

(** The [params] list [PolicyBasedForwarding._setup] builds. *)
Definition PolicyBasedForwarding_setup : option (list param) :=
  run [
    append (VersionedParamPath "description" [Path "description"]);
    append (VersionedParamPath "tags" [Vartype "member"; Path "tag"]);
    append (VersionedParamPath "from_type"
        [Default (Str "zone"); Values [Str "zone"; Str "interface"];
         Path "from/{from_type}"]);
    append (VersionedParamPath "from_value"
        [Vartype "member"; Path "from/{from_type}"]);
    append (VersionedParamPath "source_addresses"
        [Vartype "member"; Path "source"]);
    append (VersionedParamPath "source_users"
        [Vartype "member"; Path "source-user"]);
    append (VersionedParamPath "negate_source"
        [Vartype "yesno"; Path "negate-source"]);
    append (VersionedParamPath "destination_addresses"
        [Vartype "member"; Path "destination"]);
    append (VersionedParamPath "negate_destination"
        [Vartype "yesno"; Path "negate-destination"]);
    append (VersionedParamPath "applications"
        [Vartype "member"; Path "application"]);
    append (VersionedParamPath "services" [Vartype "member"; Path "service"]);
    append (VersionedParamPath "schedule" [Path "schedule"]);
    append (VersionedParamPath "disabled" [Vartype "yesno"; Path "disabled"]);
    append (VersionedParamPath "action"
        [Default (Str "forward");
         Values [Str "forward"; Str "forward-to-vsys"; Str "discard";
                 Str "no-pbf"];
         Path "action/{action}"]);
    append (VersionedParamPath "forward_vsys"
        [Condition [("action", Str "forward-to-vsys")];
         Path "action/{action}/forward-to-vsys"]);
    append (VersionedParamPath "forward_egress_interface"
        [Condition [("action", Str "forward")];
         Path "action/{action}/egress-interface"]);
    append (VersionedParamPath "forward_next_hop_type"
        [Condition [("action", Str "forward")];
         Values [Str "ip-address"; Str "fqdn"; NoneV];
         Path "action/{action}/nexthop/{forward_next_hop_type}"]);
    append (VersionedParamPath "forward_next_hop_value"
        [Condition [("action", Str "forward");
                    ("forward_next_hop_type", Strs ["ip-address"; "fqdn"])];
         Path "action/{action}/nexthop/{forward_next_hop_type}"]);
    append (VersionedParamPath "forward_monitor_profile"
        [Condition [("action", Str "forward")];
         Path "action/{action}/monitor/profile"]);
    append (VersionedParamPath "forward_monitor_ip_address"
        [Condition [("action", Str "forward")];
         Path "action/{action}/monitor/ip-address"]);
    append (VersionedParamPath "forward_monitor_disable_if_unreachable"
        [Vartype "yesno"; Condition [("action", Str "forward")];
         Path "action/{action}/monitor/disable-if-unreachable"]);
    append (VersionedParamPath "enable_enforce_symmetric_return"
        [Vartype "yesno"; Path "enforce-symmetric-return/enabled"]);
    append (VersionedParamPath "symmetric_return_addresses"
        [Vartype "entry";
         Path "enforce-symmetric-return/nexthop-address-list"]);
    append (VersionedParamPath "active_active_device_binding"
        [Path "active-active-device-binding"]);
    append (VersionedParamPath "target"
        [Vartype "entry"; Path "target/devices"]);
    append (VersionedParamPath "negate_target"
        [Vartype "yesno"; Path "target/negate"]);
    append (VersionedParamPath "uuid" [Exclude true]);
    add_profile "9.0.0" [Vartype "attrib"; Path "uuid"];
    append (VersionedParamPath "group_tag" [Exclude true]);
    add_profile "9.0.0" [Path "group-tag"] ].

(** [self._params] after [_setup], class by class. *)
Definition _setup (c : rule_class) : option (list param) :=
  match c with
  | SecurityRule => SecurityRule_setup
  | NatRule => NatRule_setup
  | PolicyBasedForwarding => PolicyBasedForwarding_setup
  end.

(** ** Reading a declaration *)

Definition get_path (args : list kwarg) : option string :=
  head (omap (fun a => match a with Path p => Some p | _ => None end) args).

Definition get_default (args : list kwarg) : option pyvalue :=
  head (omap (fun a => match a with Default v => Some v | _ => None end) args).

Definition get_values (args : list kwarg) : option (list pyvalue) :=
  head (omap (fun a => match a with Values vs => Some vs | _ => None end) args).

Definition get_condition (args : list kwarg) : list (string * pyvalue) :=
  match head (omap (fun a => match a with Condition c => Some c | _ => None end)
                   args) with
  | Some c => c
  | None => []
  end.

Definition get_exclude (args : list kwarg) : bool :=
  match head (omap (fun a => match a with Exclude b => Some b | _ => None end)
                   args) with
  | Some b => b
  | None => false
  end.

(** The values a condition entry accepts: the string, or any string of
    the list. *)
Definition accepted (cv : pyvalue) : list pyvalue :=
  match cv with
  | Strs l => Str <$> l
  | v => [v]
  end.

(** The paths a parameter is given, by its constructor and by its
    profiles. *)
Definition paths (p : param) : list string :=
  omap get_path (p_args p :: (p_profiles p).*2).

(** The name in a path segment written [{name}]. *)
Definition placeholder (tok : string) : option string :=
  match chars tok with
  | c :: l =>
      match rev l with
      | c' :: l' =>
          if Ascii.eqb c "{" && Ascii.eqb c' "}" then Some (str (rev l'))
          else None
      | [] => None
      end
  | [] => None
  end.

Definition placeholders (path : string) : list string :=
  omap placeholder (split "/" path).

(** ** Checks over a parameter list, each parameter seen with the ones
    declared before it *)

Fixpoint check_all (f : list param -> param -> bool)
    (seen rest : list param) : bool :=
  match rest with
  | [] => true
  | p :: rest' => f seen p && check_all f (seen ++ [p]) rest'
  end.

(** Some parameter of [known] is named [k] and declares [values] that
    hold every value of [vs]. *)
Definition selector (known : list param) (k : string) (vs : list pyvalue)
  : bool :=
  existsb (fun q =>
             String.eqb (p_name q) k
             && match get_values (p_args q) with
                | Some allowed => forallb (fun v => bool_decide (v ∈ allowed)) vs
                | None => false
                end) known.

Definition conditions_ok (seen : list param) (p : param) : bool :=
  forallb (fun kc => selector seen kc.1 (accepted kc.2))
          (get_condition (p_args p)).

Definition placeholders_ok (seen : list param) (p : param) : bool :=
  forallb (fun path =>
             forallb (fun n => selector (seen ++ [p]) n []) (placeholders path))
          (paths p).

(** A parameter is excluded exactly when its constructor gives no path,
    and exactly when it has a profile; each profile gives a path; a
    default is one of the declared values. *)
Definition shape_ok (p : param) : bool :=
  bool_decide (get_exclude (p_args p) = true ↔ get_path (p_args p) = None)
  && bool_decide (get_exclude (p_args p) = true ↔ p_profiles p ≠ [])
  && forallb (fun pr => bool_decide (is_Some (get_path pr.2))) (p_profiles p)
  && match get_default (p_args p), get_values (p_args p) with
     | Some d, Some vs => bool_decide (d ∈ vs)
     | _, _ => true
     end.

Definition params_ok (params : list param) : bool :=
  check_all conditions_ok [] params
  && check_all placeholders_ok [] params
  && forallb shape_ok params
  && bool_decide (NoDup (p_name <$> params)).

(** [_setup] runs through and its list passes the checks. *)
Definition setup_ok (c : rule_class) : bool :=
  match _setup c with
  | Some params => params_ok params
  | None => false
  end.

End Declarations.

(* ===================================================================== *)
(** * The declarations as parameter specifications *)
(* ===================================================================== *)

Module DeclaredSchemas.
Import Mapper Classes.

Definition value_of (x : Declarations.pyvalue) : option value :=
  match x with
  | Declarations.NoneV => None
  | Declarations.Str s => Some (VStr s)
  | Declarations.Strs l => Some (VList l)
  end.

Definition get_vartype (args : list Declarations.kwarg) : option string :=
  head (omap (fun a => match a with
                       | Declarations.Vartype t => Some t
                       | _ => None
                       end) args).

Definition values_of (l : list Declarations.pyvalue) : list value :=
  omap value_of l.

(** A condition, each entry with the values it accepts. *)
Definition condition_of (c : list (string * Declarations.pyvalue))
  : list (string * list value) :=
  (fun kc : string * Declarations.pyvalue =>
     (kc.1, values_of (Declarations.accepted kc.2))) <$> c.

(** The parameter specification that a declaration without version
    profile stands for: its name, the kind its [vartype] names, its
    default, its [values], its path as a template and its condition.
    A parameter with a profile carries version overrides; [None] for
    it. *)
Definition spec_of (p : Declarations.param) : option param_spec :=
  let args := Declarations.p_args p in
  match Declarations.p_profiles p, Declarations.get_path args with
  | [], Some pth =>
      Some (mk_param (Declarations.p_name p)
              (Schemas.kind_of (get_vartype args))
              (Declarations.get_default args ≫= value_of)
              (option_map values_of (Declarations.get_values args))
              (path pth)
              []
              (condition_of (Declarations.get_condition args))
              (Declarations.get_exclude args))
  | _, _ => None
  end.

(** The parameters a class declares without version profile, in
    declaration order. *)
Definition specs (c : rule_class) : schema :=
  match Declarations._setup c with
  | Some params => omap spec_of params
  | None => []
  end.

(** A NAT rule with static source translation selected. *)
Definition nat_static_given : gmap string value :=
  <["source_translation_type" := VStr "static-ip"]> ∅.

(** A NAT rule given a static translated address although no source
    translation type is selected. *)
Definition nat_orphan_given : gmap string value :=
  <["source_translation_static_translated_address" := VStr "192.0.2.1"]> ∅.

End DeclaredSchemas.

Module OpStateExamples.
Import Py ET OpState Examples.

(** An entry whose hit count is not a number, between two good fields. *)
Definition entry_bad_count : Element :=
  Elem "entry" [("name", "r1")] None
    [Elem "latest" [] (Some "yes") [];
     Elem "hit-count" [] (Some "many") [];
     Elem "last-hit-timestamp" [] (Some "1600000000") []].

(** A hit count holding values of an earlier refresh. *)
Definition stale : HitCount :=
  mk_HitCount (Some "r1") (Some "r1")
    (<["latest" := PyStr "no"]>
       (<["hit_count" := PyInt 3]> (<["last_hit_timestamp" := PyInt 5]> ∅))).

(** A rulebase with two security rules around a NAT rule. *)
Definition mixed_children : list Rule :=
  [security_rule "r1"; nat_rule "r9"; security_rule "r2"].

(** A device whose transport fails. *)
Definition unreachable (v : version) : PanDevice :=
  mk_PanDevice v None (fun _ => Raise (External "URLError"))
               (fun _ => Raise (External "URLError")).

(** A log response with the two audit-comment entries of the examples. *)
Definition audit_response : Element :=
  Elem "response" [("status", "success")] None
    [Elem "result" [] None
       [Elem "log" [] None
          [Elem "logs" [] None [audit_entry; audit_entry_bad_time]]]].

(** A response to [current] whose first entry has no comment. *)
Definition comment_response : Element :=
  Elem "response" [("status", "success")] None
    [Elem "result" [] None
       [Elem "entry" [("name", "r0")] None [];
        Elem "entry" [("name", "r1")] None
          [Elem "comment" [] (Some "allow dns") []]]].

End OpStateExamples.

(* ===================================================================== *)
(** * Hit-count requests *)
(* ===================================================================== *)

Module HitCountRequest.
Import Py ET OpState Examples.

Lemma select_kids_style i children style rules :
  Forall (fun x => HIT_COUNT_STYLE x ≠ Some style) children →
  select_kids i children style rules = [].
Proof.
  intros H. revert i. induction H as [|x l Hx _ IH]; intros i; [done|].
  simpl. rewrite IH. destruct (HIT_COUNT_STYLE x) as [s|]; [|done].
  destruct (String.eqb_spec s style) as [->|]; [congruence|done].
Qed.

(** C4: below PAN-OS 8.1.0 the call raises [PanDeviceError], hands no
    command to the transport and leaves the children alone, whatever the
    style, the rules and [all_rules] are. *)
Theorem refresh_unsupported_version dev children style rules all_rules :
  version_ltb (retrieve_panos_version dev) (8, 1, 0)%nat = true →
  issued (refresh dev children style rules all_rules) = []
  ∧ returned (refresh dev children style rules all_rules)
    = Raise (PanDeviceError "Rule hit count is supported in PAN-OS 8.1+")
  ∧ children_after (refresh dev children style rules all_rules) = children.
Proof. intros H. unfold refresh. rewrite H. done. Qed.

Lemma refresh_unsupported_version_witness :
  version_ltb (8, 0, 5)%nat (8, 1, 0)%nat = true
  ∧ issued (refresh (device (8, 0, 5)%nat None empty_response)
                    [security_rule "r1"] "security" None true) = [].
Proof.
  split; [reflexivity|].
  apply (refresh_unsupported_version
           (device (8, 0, 5)%nat None empty_response)
           [security_rule "r1"] "security" None true).
  reflexivity.
Defined.

Lemma vsys_or_default_cases dev :
  vsys_or_default dev
  = match vsys dev with
    | None => "vsys1"
    | Some v => if String.eqb v "" then "vsys1" else v
    end.
Proof. unfold vsys_or_default. by destruct (vsys dev) as [[|c v]|]. Qed.

(** C5: with [all_rules=True] every command handed to the transport is
    [<show><rule-hit-count><vsys><vsys-name><entry name=VSYS><rule-base>
    <entry name=STYLE><rules><all/>], whatever the children and the
    [rules] argument are; from PAN-OS 8.1.0 on exactly one is sent. *)
Theorem refresh_all_rules_request dev children style rules :
  let vsys_name :=
    match vsys dev with
    | None => "vsys1"
    | Some v => if String.eqb v "" then "vsys1" else v
    end in
  let cmd :=
    Elem "show" [] None
     [Elem "rule-hit-count" [] None
       [Elem "vsys" [] None
         [Elem "vsys-name" [] None
           [Elem "entry" [("name", vsys_name)] None
             [Elem "rule-base" [] None
               [Elem "entry" [("name", style)] None
                 [Elem "rules" [] None
                   [Elem "all" [] None []]]]]]]]] in
  Forall (eq cmd) (issued (refresh dev children style rules true))
  ∧ (version_ltb (retrieve_panos_version dev) (8, 1, 0)%nat = false →
     issued (refresh dev children style rules true) = [cmd]).
Proof.
  intros vsys_name cmd. subst vsys_name cmd.
  rewrite <- vsys_or_default_cases. unfold refresh. simpl.
  destruct (version_ltb _ _); [split; [constructor|done]|].
  unfold hit_count_cmd, new.
  destruct (op dev _); [destruct (collect _ _ _ _)|]; simpl;
    (split; [by repeat constructor|done]).
Qed.

Lemma refresh_all_rules_request_witness :
  issued (refresh (device (10, 0, 0)%nat (Some "vsys2") empty_response)
                  [nat_rule "n1"] "security" (Some [ByName "r7"]) true)
  = [hit_count_cmd "vsys2" "security" [new "all" []]].
Proof.
  apply (refresh_all_rules_request
           (device (10, 0, 0)%nat (Some "vsys2") empty_response)
           [nat_rule "n1"] "security" (Some [ByName "r7"])).
  reflexivity.
Defined.

(** C6: with [all_rules=False], no [rules] argument and no child whose
    [HIT_COUNT_STYLE] is the requested style, no command is handed to the
    transport and the children are left alone; on a device that supports
    hit counts (PAN-OS 8.1.0 or later) the call returns the empty dict. *)
Theorem refresh_nothing_to_request dev children style :
  Forall (fun x => HIT_COUNT_STYLE x ≠ Some style) children →
  issued (refresh dev children style None false) = []
  ∧ children_after (refresh dev children style None false) = children
  ∧ (version_ltb (retrieve_panos_version dev) (8, 1, 0)%nat = false →
     returned (refresh dev children style None false) = Ok ∅).
Proof.
  intros H. unfold refresh.
  destruct (version_ltb _ _); [done|].
  rewrite (select_kids_style 0 children style None H). done.
Qed.

Lemma refresh_nothing_to_request_witness :
  Forall (fun x => HIT_COUNT_STYLE x ≠ Some "security")
         [nat_rule "n1"; mk_Rule "shared" None (blank "shared")]
  ∧ returned (refresh (device (10, 0, 0)%nat None empty_response)
                      [nat_rule "n1"; mk_Rule "shared" None (blank "shared")]
                      "security" None false) = Ok ∅.
Proof.
  assert (H : Forall (fun x => HIT_COUNT_STYLE x ≠ Some "security")
                     [nat_rule "n1"; mk_Rule "shared" None (blank "shared")]).
  { repeat constructor; discriminate. }
  split; [exact H|].
  apply (refresh_nothing_to_request
           (device (10, 0, 0)%nat None empty_response) _ "security" H).
  reflexivity.
Defined.

(** C10: in every command the call hands to the transport, the vsys
    entry is named [vsys1] when the device's vsys is [None] or empty, and
    carries the device's vsys verbatim otherwise. *)
Theorem refresh_vsys_entry dev children style rules all_rules :
  Forall (fun cmd =>
            vsys_entry_name cmd
            = Some (match vsys dev with
                    | None => "vsys1"
                    | Some v => if String.eqb v "" then "vsys1" else v
                    end))
         (issued (refresh dev children style rules all_rules)).
Proof.
  rewrite <- vsys_or_default_cases. unfold refresh.
  destruct (version_ltb _ _); [constructor|].
  set (body := if all_rules then _ else _).
  destruct body as [b|]; [|constructor].
  destruct (op dev _); [destruct (collect _ _ _ _)|]; simpl;
    by repeat constructor.
Qed.

(** A device without a vsys asks for [vsys1]; a device in [vsys3] asks
    for [vsys3]. *)
Example refresh_vsys_entry_examples :
  vsys_entry_name
    <$> issued (refresh (device (10, 0, 0)%nat None empty_response)
                        [] "security" None true) = [Some "vsys1"]
  ∧ vsys_entry_name
      <$> issued (refresh (device (10, 0, 0)%nat (Some "") empty_response)
                          [] "security" None true) = [Some "vsys1"]
  ∧ vsys_entry_name
      <$> issued (refresh (device (10, 0, 0)%nat (Some "vsys3") empty_response)
                          [] "nat" (Some [ByName "n1"]) false) = [Some "vsys3"].
Proof. repeat split; reflexivity. Qed.

(** C2, as stated, fails for the empty list: an explicit empty [rules]
    makes the call return the empty dict without any command, although a
    rule of the requested style is attached. *)
Lemma refresh_empty_rules_no_request :
  let o := refresh (device (10, 0, 0)%nat None empty_response)
                   [security_rule "r1"] "security" (Some []) false in
  issued o = [] ∧ returned o = Ok ∅
  ∧ issued o ≠ [hit_count_cmd "vsys1" "security" [Elem "list" [] None []]].
Proof. repeat split; done. Qed.

(** C2 (amended): from PAN-OS 8.1.0 on, with [all_rules=False] and a
    non-empty [rules] list, exactly one command is handed to the
    transport; its [<list>] holds one [<member>] per given rule, in the
    given order, with the rule's name (the uid of a rule object),
    whatever children are attached.  With an empty [rules] list no
    command is sent and the empty dict is returned. *)
Theorem refresh_explicit_rules dev children style rules :
  version_ltb (retrieve_panos_version dev) (8, 1, 0)%nat = false →
  let vsys_name :=
    match vsys dev with
    | None => "vsys1"
    | Some v => if String.eqb v "" then "vsys1" else v
    end in
  match rules with
  | [] =>
      issued (refresh dev children style (Some rules) false) = []
      ∧ returned (refresh dev children style (Some rules) false) = Ok ∅
  | _ :: _ =>
      issued (refresh dev children style (Some rules) false)
      = [Elem "show" [] None
          [Elem "rule-hit-count" [] None
            [Elem "vsys" [] None
              [Elem "vsys-name" [] None
                [Elem "entry" [("name", vsys_name)] None
                  [Elem "rule-base" [] None
                    [Elem "entry" [("name", style)] None
                      [Elem "rules" [] None
                        [Elem "list" [] None
                           ((fun x => Elem "member" []
                                        (Some (match x with
                                               | ByName s => s
                                               | ByRule r => uid r
                                               end)) [])
                              <$> rules)]]]]]]]]]
  end.
Proof.
  intros Hv vsys_name. subst vsys_name.
  rewrite <- vsys_or_default_cases. unfold refresh. rewrite Hv.
  destruct rules as [|r rules]; simpl.
  - assert (Hk : select_kids 0 children style (Some []) = []).
    { generalize 0%nat. induction children as [|x l IH]; intros i; [done|].
      simpl. rewrite IH. destruct (HIT_COUNT_STYLE x); [|done].
      by destruct (negb _). }
    rewrite Hk. done.
  - unfold hit_count_cmd.
    assert (Hm : ∀ l : list rule_arg,
               (member ∘ member_text <$> l)
               = ((fun x => Elem "member" []
                              (Some (match x with
                                     | ByName s => s
                                     | ByRule r => uid r
                                     end)) []) <$> l)).
    { intros l. apply list_fmap_ext. by intros _ [] _. }
    destruct (op dev _) eqn:E; [destruct (collect _ _ _ _)|]; simpl;
      f_equal; do 8 (f_equal; []); unfold member, member_text; simpl;
      do 3 f_equal; apply Hm.
Qed.

Lemma refresh_explicit_rules_witness :
  issued (refresh (device (10, 0, 0)%nat None empty_response)
                  [nat_rule "n1"] "security"
                  (Some [ByName "r2"; ByRule (security_rule "r1")]) false)
  = [hit_count_cmd "vsys1" "security"
       [Elem "list" [] None [member "r2"; member "r1"]]].
Proof.
  apply (refresh_explicit_rules
           (device (10, 0, 0)%nat None empty_response)
           [nat_rule "n1"] "security"
           [ByName "r2"; ByRule (security_rule "r1")] eq_refl).
Defined.

End HitCountRequest.

(* ===================================================================== *)
(** * Parsing a hit-count entry *)
(* ===================================================================== *)

Module HitCountParsing.
Import Py ET OpState Examples.

Lemma set_all_lookup_notin kvs (m : gmap string value) i :
  i ∉ kvs.*1 → set_all kvs m !! i = m !! i.
Proof.
  revert m. induction kvs as [|[k v] kvs IH]; intros m Hi; [done|].
  simpl in *. apply not_elem_of_cons in Hi as [Hne Hi].
  unfold set_all in *. simpl. rewrite IH by done.
  by rewrite lookup_insert_ne.
Qed.

Lemma set_all_lookup_in kvs (m m' : gmap string value) i :
  i ∈ kvs.*1 → set_all kvs m !! i = set_all kvs m' !! i.
Proof.
  revert m m'. induction kvs as [|[k v] kvs IH]; intros m m' Hi.
  { by apply elem_of_nil in Hi. }
  unfold set_all in *. simpl in *.
  destruct (decide (i ∈ kvs.*1)) as [Hin|Hout]; [by apply IH|].
  apply elem_of_cons in Hi as [->|]; [|done].
  pose proof (set_all_lookup_notin kvs) as Hn. unfold set_all in Hn.
  rewrite !Hn by done. by rewrite !lookup_insert_eq.
Qed.

Lemma set_all_overwrite kvs1 kvs2 (m : gmap string value) :
  kvs1.*1 = kvs2.*1 → set_all kvs2 (set_all kvs1 m) = set_all kvs2 m.
Proof.
  intros Hk. apply map_eq. intros i.
  destruct (decide (i ∈ kvs2.*1)) as [Hin|Hout].
  - by apply set_all_lookup_in.
  - rewrite !set_all_lookup_notin by congruence. done.
Qed.

(** A successful pass of the loop stores one value per row, in order. *)
Lemma refresh_fields_ok fields : ∀ h elm h',
  refresh_fields fields h elm = (h', Ok ()) →
  ∃ kvs,
    kvs.*1 = fields.*1.*1
    ∧ Forall2 (fun kv f => field_value elm f.1.2 f.2 = Ok kv.2) kvs fields
    ∧ h' = mk_HitCount (obj h) (name h) (set_all kvs (attrs h)).
Proof.
  induction fields as [|[[param path] ty] fields IH]; intros h elm h' H.
  - simpl in H. injection H as <-. exists []. by destruct h.
  - simpl in H. destruct (String.eqb ty "int") eqn:Ety.
    + destruct (_int elm path) as [v|e] eqn:Ev; [|discriminate].
      apply IH in H as (kvs & Hk & Hf & ->).
      exists ((param, of_int v) :: kvs). simpl. repeat split.
      * by f_equal.
      * constructor; [|done]. unfold field_value. simpl. by rewrite Ety, Ev.
    + apply IH in H as (kvs & Hk & Hf & ->).
      exists ((param, of_str (_str elm path)) :: kvs). simpl. repeat split.
      * by f_equal.
      * constructor; [|done]. unfold field_value. simpl. by rewrite Ety.
Qed.

Lemma refresh_fields_complete fields : ∀ h elm kvs,
  kvs.*1 = fields.*1.*1 →
  Forall2 (fun kv f => field_value elm f.1.2 f.2 = Ok kv.2) kvs fields →
  refresh_fields fields h elm
  = (mk_HitCount (obj h) (name h) (set_all kvs (attrs h)), Ok ()).
Proof.
  induction fields as [|[[param path] ty] fields IH]; intros h elm kvs Hk Hf.
  - inversion Hf; subst. by destruct h.
  - inversion Hf as [|[k v] f kvs' fs Hv Hf']; subst. simpl in *.
    injection Hk as -> Hk. unfold field_value in Hv.
    destruct (String.eqb ty "int").
    + destruct (_int elm path); [|discriminate]. injection Hv as <-.
      by rewrite (IH _ _ kvs').
    + injection Hv as <-. by rewrite (IH _ _ kvs').
Qed.

(** Refreshing twice with success leaves what the second element alone
    gives. *)
Lemma refresh_xml_overwrite h e1 e2 h1 h2 :
  _refresh_xml h e1 = (h1, Ok ()) →
  _refresh_xml h1 e2 = (h2, Ok ()) →
  _refresh_xml h e2 = (h2, Ok ()).
Proof.
  unfold _refresh_xml. intros H1 H2.
  apply refresh_fields_ok in H1 as (kvs1 & Hk1 & _ & ->).
  apply refresh_fields_ok in H2 as (kvs2 & Hk2 & Hf2 & ->).
  rewrite (refresh_fields_complete FIELDS h e2 kvs2 Hk2 Hf2).
  cbn [obj name attrs]. by rewrite set_all_overwrite by congruence.
Qed.

Lemma refresh_fields_lookup fields : ∀ h elm h' param path ty,
  NoDup fields.*1.*1 →
  refresh_fields fields h elm = (h', Ok ()) →
  (param, path, ty) ∈ fields →
  ∃ v, field_value elm path ty = Ok v ∧ getattr h' param = Some v.
Proof.
  induction fields as [|[[p0 path0] ty0] fields IH];
    intros h elm h' param path ty Hnd H Hin.
  { by apply elem_of_nil in Hin. }
  simpl in Hnd. apply NoDup_cons in Hnd as [Hfresh Hnd].
  apply elem_of_cons in Hin as [Heq|Hin].
  - injection Heq as -> -> ->.
    pose proof (refresh_fields_ok _ _ _ _ H) as (kvs & Hk & Hf & ->).
    destruct kvs as [|[k v] kvs]; [done|]. simpl in Hk.
    injection Hk as -> Hk. inversion Hf; subst. simpl in *.
    exists v. split; [done|]. unfold getattr, set_all. simpl.
    pose proof (set_all_lookup_notin kvs) as Hn. unfold set_all in Hn.
    rewrite Hn; [apply lookup_insert_eq|].
    exact (eq_ind_r (fun l => p0 ∉ l) Hfresh Hk).
  - simpl in H.
    destruct (String.eqb ty0 "int");
      [destruct (_int elm path0); [|discriminate]|]; eauto.
Qed.

Lemma refresh_fields_succeeds fields : ∀ h elm,
  (∀ param path ty, (param, path, ty) ∈ fields →
                    ∃ v, field_value elm path ty = Ok v) →
  ∃ h', refresh_fields fields h elm = (h', Ok ()).
Proof.
  induction fields as [|[[p0 path0] ty0] fields IH]; intros h elm H.
  { by eexists. }
  destruct (H p0 path0 ty0) as [v Hv]; [left|].
  unfold field_value in Hv. simpl.
  destruct (String.eqb ty0 "int").
  - destruct (_int elm path0); [|discriminate].
    apply IH. intros param path ty Hin. apply (H param path ty). by right.
  - apply IH. intros param path ty Hin. apply (H param path ty). by right.
Qed.

(** C7: [_refresh_xml] parses every element whose integer fields, where
    present, hold integer text.  It stores [latest] as the text of its
    node and each of [hit_count] and the five timestamps as the integer
    its node's text denotes; a field whose node is absent (or empty) is
    stored as [None], not as zero. *)
Theorem refresh_xml_fields h elm :
  (∀ param path node s,
     (param, path, "int") ∈ FIELDS →
     find elm path = Some node → text node = Some s → is_Some (Py.int s)) →
  ∃ h',
    _refresh_xml h (Some elm) = (h', Ok ())
    ∧ ∀ param path ty,
        (param, path, ty) ∈ FIELDS →
        match find elm path with
        | None => getattr h' param = Some PyNone
        | Some node =>
            match text node with
            | None => getattr h' param = Some PyNone
            | Some s =>
                if String.eqb ty "int" then
                  ∃ z, Py.int s = Some z ∧ getattr h' param = Some (PyInt z)
                else getattr h' param = Some (PyStr s)
            end
        end.
Proof.
  intros Hint.
  destruct (refresh_fields_succeeds FIELDS h (Some elm)) as [h' H].
  { intros param path ty Hin. unfold field_value, _int, _str.
    destruct (String.eqb_spec ty "int") as [->|]; [|by eexists].
    destruct (find elm path) as [node|] eqn:Ef; [|by eexists].
    destruct (text node) as [s|] eqn:Et; [|by eexists].
    destruct (Hint _ _ _ _ Hin Ef Et) as [z ->]. by eexists. }
  exists h'. split; [exact H|]. intros param path ty Hin.
  assert (Hnd : NoDup FIELDS.*1.*1).
  { apply (bool_decide_unpack _). by vm_compute. }
  destruct (refresh_fields_lookup _ _ _ _ _ _ _ Hnd H Hin) as (v & Hv & ->).
  unfold field_value, _int, _str in Hv.
  destruct (find elm path) as [node|]; simpl in *.
  - destruct (text node) as [s|]; simpl in *.
    + destruct (String.eqb ty "int").
      * destruct (Py.int s) as [z|]; [|discriminate].
        injection Hv as <-. eauto.
      * by injection Hv as <-.
    + destruct (String.eqb ty "int"); by injection Hv as <-.
  - destruct (String.eqb ty "int"); by injection Hv as <-.
Qed.

Lemma refresh_xml_fields_witness :
  ∃ h, HitCount_init None (Some "r1") (Some entry_r1) = Ok h
       ∧ getattr h "hit_count" = Some (PyInt 42)
       ∧ getattr h "latest" = Some PyNone
       ∧ getattr h "last_hit_timestamp" = Some PyNone.
Proof.
  destruct (refresh_xml_fields (mk_HitCount None (Some "r1") ∅) entry_r1)
    as (h & E & Hf).
  { intros param path node s Hin Ef Et.
    unfold FIELDS in Hin. set_unfold in Hin.
    destruct_or!; simplify_eq; vm_compute in Ef; simplify_eq.
    injection Et as <-. by eexists. }
  exists h. split.
  { unfold HitCount_init. by rewrite E. }
  pose proof (Hf "hit_count" "hit-count" "int") as H1.
  pose proof (Hf "latest" "latest" "str") as H2.
  pose proof (Hf "last_hit_timestamp" "last-hit-timestamp" "int") as H3.
  split; [|split].
  - destruct H1 as (z & Hz & ->); [set_solver|].
    vm_compute in Hz. by injection Hz as <-.
  - apply H2. set_solver.
  - apply H3. set_solver.
Defined.

End HitCountParsing.

(* ===================================================================== *)
(** * Handling the hit-count response *)
(* ===================================================================== *)

Module HitCountResponse.
Import Py ET OpState Examples HitCountRequest HitCountParsing.

Lemma find_kid_Some children kids n i x :
  find_kid children kids n = Some (i, x) →
  children !! i = Some x ∧ uid x = n.
Proof.
  induction kids as [|k kids IH]; [done|]. simpl.
  destruct (children !! k) as [y|] eqn:Ek; [|done].
  destruct (String.eqb_spec (uid y) n) as [Hu|]; [|done].
  intros [= <- <-]. done.
Qed.

(** Replacing the child at [i] by one of the same uid does not change
    which kid a name finds. *)
Lemma find_kid_insert children kids n i x x' :
  children !! i = Some x → uid x' = uid x →
  find_kid (<[i := x']> children) kids n
  = match find_kid children kids n with
    | Some (j, y) => if decide (j = i) then Some (i, x') else Some (j, y)
    | None => None
    end.
Proof.
  intros Hi Hu. induction kids as [|k kids IH]; [done|]. simpl.
  destruct (decide (k = i)) as [->|Hne].
  - rewrite list_lookup_insert_eq by (by eapply lookup_lt_Some).
    rewrite Hi, Hu.
    destruct (String.eqb (uid x) n); [|done]. by rewrite decide_True.
  - rewrite list_lookup_insert_ne by done.
    destruct (children !! k) as [y|]; [|done].
    destruct (String.eqb (uid y) n); [|done]. by rewrite decide_False.
Qed.

Lemma last_cons_named n elm entries :
  get (attrib elm) "name" = Some n →
  last (named n (elm :: entries))
  = Some (default elm (last (named n entries))).
Proof.
  intros H. unfold named. rewrite filter_cons_True by done.
  destruct (filter _ entries) as [|e l] eqn:E; [done|].
  rewrite last_cons. by destruct (last (e :: l)) eqn:El.
Qed.

Lemma named_cons_other n m elm entries :
  get (attrib elm) "name" = Some m → m ≠ n →
  named n (elm :: entries) = named n entries.
Proof.
  intros H Hne. unfold named. rewrite filter_cons_False; [done|]. congruence.
Qed.

(** What the loop over the response leaves, name by name: the last entry
    carrying a name decides. *)
Lemma collect_spec kids entries : ∀ children ans children' ans' n,
  collect kids entries children ans = (children', Ok ans') →
  match last (named n entries) with
  | None =>
      ans' !! n = ans !! n
      ∧ ∀ i x, find_kid children kids n = Some (i, x) → children' !! i = Some x
  | Some elm =>
      match find_kid children kids n with
      | Some (i, x) =>
          ans' !! n = Some (Live i)
          ∧ ∃ h, _refresh_xml (hit_count x) (Some elm) = (h, Ok ())
                 ∧ children' !! i = Some (mk_Rule (uid x) (HIT_COUNT_STYLE x) h)
      | None =>
          ∃ h, HitCount_init None (Some n) (Some elm) = Ok h
               ∧ ans' !! n = Some (Standalone h)
      end
  end.
Proof.
  induction entries as [|e entries IH]; intros children ans children' ans' n H.
  { simpl in H. injection H as <- <-. simpl. split; [done|].
    intros i x Hk. by apply find_kid_Some in Hk as [? _]. }
  simpl in H.
  destruct (get (attrib e) "name") as [m|] eqn:Em; [|done].
  destruct (find_kid children kids m) as [[i x]|] eqn:Ek.
  - unfold HitCount_refresh in H.
    destruct (_refresh_xml (hit_count x) (Some e)) as [h1 r1] eqn:Er.
    destruct r1 as [[]|]; [|done].
    pose proof (find_kid_Some _ _ _ _ _ Ek) as [Hi Hu].
    specialize (IH _ _ _ _ n H).
    rewrite (find_kid_insert children kids n i x
               (mk_Rule (uid x) (HIT_COUNT_STYLE x) h1) Hi eq_refl) in IH.
    destruct (decide (m = n)) as [->|Hne].
    + rewrite (last_cons_named n e entries Em), Ek.
      rewrite Ek, decide_True in IH by done.
      destruct (last (named n entries)) as [elm|]; simpl in *.
      * destruct IH as (Ha & h & Hr & Hc). split; [done|].
        exists h. split; [|done]. by eapply refresh_xml_overwrite.
      * destruct IH as [Ha Hc]. rewrite lookup_insert_eq in Ha.
        split; [done|]. exists h1. split; [done|]. by apply Hc.
    + rewrite (named_cons_other n m e entries Em Hne).
      rewrite lookup_insert_ne in IH by done.
      destruct (find_kid children kids n) as [[j y]|] eqn:Ekn; [|done].
      pose proof (find_kid_Some _ _ _ _ _ Ekn) as [Hj Huy].
      rewrite decide_False in IH; [done|].
      intros ->. congruence.
  - destruct (HitCount_init None (Some m) (Some e)) as [h|] eqn:Eh; [|done].
    specialize (IH _ _ _ _ n H).
    destruct (decide (m = n)) as [->|Hne].
    + rewrite (last_cons_named n e entries Em). rewrite Ek in IH |- *.
      destruct (last (named n entries)) as [elm|]; simpl in *; [done|].
      destruct IH as [Ha _]. rewrite lookup_insert_eq in Ha. eauto.
    + rewrite (named_cons_other n m e entries Em Hne).
      by rewrite lookup_insert_ne in IH.
Qed.

(** The kids kept for a name that the [rules] argument lets through are
    the children of the requested style. *)
Lemma find_kid_select pre : ∀ suf style rules n,
  match rules with
  | None => True
  | Some l => uid_in n l = true
  end →
  find_kid (pre ++ suf) (select_kids (length pre) suf style rules) n
  = prod_map (fun i => length pre + i)%nat id
      <$> list_find (fun x => HIT_COUNT_STYLE x = Some style ∧ uid x = n) suf.
Proof.
  intros suf. revert pre.
  induction suf as [|x suf IH]; intros pre style rules n Hr; [done|].
  specialize (IH (pre ++ [x]) style rules n Hr).
  rewrite <- app_assoc, length_app in IH. simpl in IH.
  replace (length pre + 1)%nat with (S (length pre)) in IH by lia.
  assert (Hx : (pre ++ x :: suf) !! length pre = Some x).
  { by rewrite lookup_app_r, Nat.sub_diag by lia. }
  assert (Hskip :
    ¬ (HIT_COUNT_STYLE x = Some style ∧ uid x = n) →
    find_kid (pre ++ x :: suf) (select_kids (S (length pre)) suf style rules) n
    = prod_map (fun i => length pre + i)%nat id
        <$> list_find (fun x => HIT_COUNT_STYLE x = Some style ∧ uid x = n)
                      (x :: suf)).
  { intros Hn. rewrite IH. simpl. rewrite decide_False by done.
    rewrite <- option_fmap_compose.
    apply option_fmap_ext. intros [j y]. simpl. f_equal. lia. }
  simpl select_kids.
  destruct (HIT_COUNT_STYLE x) as [s|] eqn:Es; [|apply Hskip; intros [? _]; congruence].
  destruct (String.eqb_spec s style) as [->|Hs]; simpl;
    [|apply Hskip; intros [? _]; congruence].
  assert (Hkeep :
    find_kid (pre ++ x :: suf)
             (length pre :: select_kids (S (length pre)) suf style rules) n
    = prod_map (fun i => length pre + i)%nat id
        <$> list_find (fun x => HIT_COUNT_STYLE x = Some style ∧ uid x = n)
                      (x :: suf)).
  { simpl find_kid. rewrite Hx.
    destruct (String.eqb_spec (uid x) n) as [Hu|Hu].
    - simpl. rewrite decide_True by done. simpl. do 2 f_equal. lia.
    - apply Hskip. intros [_ ?]. congruence. }
  destruct rules as [l|]; [|exact Hkeep].
  destruct (uid_in (uid x) l) eqn:Ein; [exact Hkeep|].
  apply Hskip. intros [_ Hu]. congruence.
Qed.

(** C3, as stated, fails: a NAT rule named [r1] is among the children,
    the response for style [security] has an entry named [r1], yet the
    dict maps [r1] to a standalone record and the child keeps its old hit
    count. *)
Lemma refresh_other_style_not_updated :
  let o := refresh (device (10, 0, 0)%nat None response_r1) [nat_rule "r1"]
                   "security" None true in
  uid <$> [nat_rule "r1"] = ["r1"]
  ∧ children_after o = [nat_rule "r1"]
  ∧ match returned o with
    | Ok ans =>
        match ans !! "r1" with
        | Some (Standalone h) =>
            obj h = None ∧ getattr h "hit_count" = Some (PyInt 42)
        | _ => False
        end
    | Raise _ => False
    end.
Proof. split; [done|]. split; by vm_compute. Qed.

(** A rule given to [rules] as an object is asked for by its uid, but the
    test [x.uid in rules] never holds for it: the attached rule is not
    among the kids, keeps its old hit count, and the dict gets a
    standalone record. *)
Example refresh_rule_object_not_matched :
  let o := refresh (device (10, 0, 0)%nat None response_r1)
                   [security_rule "r1"] "security"
                   (Some [ByRule (security_rule "r1")]) false in
  issued o = [hit_count_cmd "vsys1" "security"
                [Elem "list" [] None [member "r1"]]]
  ∧ children_after o = [security_rule "r1"]
  ∧ match returned o with
    | Ok ans =>
        match ans !! "r1" with
        | Some (Standalone h) => getattr h "hit_count" = Some (PyInt 42)
        | _ => False
        end
    | Raise _ => False
    end.
Proof. split; [done|]. split; by vm_compute. Qed.

(** C3 (amended): take a call that sent a command and returned a dict,
    with [rules] omitted or given as a list of names.  For the last
    returned entry of each name [n] that [rules], when given, contains:
    if some child has the requested [HIT_COUNT_STYLE] and the uid [n], the
    hit count of the first such child is refreshed in place from that
    entry and the dict maps [n] to it; otherwise the dict maps [n] to a
    new standalone record parsed from the entry. *)
Theorem refresh_response_entries dev children style
    (names : option (list string)) all_rules cmd res ans n elm :
  let o := refresh dev children style (by_names names) all_rules in
  issued o = [cmd] → op dev cmd = Ok res → returned o = Ok ans →
  last (named n (findall res response_path)) = Some elm →
  match names with
  | None => True
  | Some l => n ∈ l
  end →
  match first_match children style n with
  | Some (i, x) =>
      ans !! n = Some (Live i)
      ∧ ∃ h, _refresh_xml (hit_count x) (Some elm) = (h, Ok ())
             ∧ children_after o !! i
               = Some (mk_Rule (uid x) (HIT_COUNT_STYLE x) h)
             ∧ deref (children_after o) (Live i) = Some h
  | None =>
      ∃ h, HitCount_init None (Some n) (Some elm) = Ok h
           ∧ obj h = None
           ∧ ans !! n = Some (Standalone h)
  end.
Proof.
  intros o Hcmd Hop Hret Hlast Hn. subst o. unfold refresh in *.
  destruct (version_ltb _ _); [done|].
  set (kids := select_kids 0 children style (by_names names)) in *.
  destruct (if all_rules then _ else _) as [b|]; [|done].
  destruct (op dev (hit_count_cmd _ _ _)) as [res'|] eqn:Eop;
    [|simpl in Hret; done].
  destruct (collect kids (findall res' response_path) children ∅)
    as [children' r] eqn:Ec.
  simpl in Hcmd, Hret. injection Hcmd as <-. subst r.
  rewrite Eop in Hop. injection Hop as ->.
  pose proof (collect_spec _ _ _ _ _ _ n Ec) as Hspec.
  rewrite Hlast in Hspec.
  assert (Hk : find_kid children kids n = first_match children style n).
  { unfold kids, first_match.
    pose proof (find_kid_select [] children style (by_names names) n) as Hs.
    simpl in Hs. rewrite Hs.
    - destruct (list_find _ _) as [[i x]|]; [|done]. done.
    - destruct names as [l|]; [|done]. simpl.
      unfold uid_in. apply existsb_exists. exists (ByName n).
      split; [|apply String.eqb_refl].
      apply list_elem_of_In, list_elem_of_fmap. eauto. }
  rewrite Hk in Hspec. simpl.
  destruct (first_match children style n) as [[i x]|].
  - destruct Hspec as (Ha & h & Hr & Hc). split; [done|].
    exists h. repeat split; [done..|]. by rewrite Hc.
  - destruct Hspec as (h & Hh & Ha). exists h. repeat split; [done| |done].
    unfold HitCount_init in Hh.
    destruct (_refresh_xml _ _) as [h' [[]|]] eqn:Er; [|done].
    injection Hh as <-.
    apply refresh_fields_ok in Er as (kvs & _ & _ & ->). done.
Qed.

Lemma refresh_response_entries_witness :
  let o := refresh (device (10, 0, 0)%nat None response_r1_r9)
                   [nat_rule "r1"; security_rule "r1"] "security" None true in
  ∃ ans h,
    returned o = Ok ans
    ∧ ans !! "r1" = Some (Live 1)
    ∧ deref (children_after o) (Live 1) = Some h
    ∧ _refresh_xml (blank "r1") (Some entry_r1) = (h, Ok ()).
Proof.
  intros o.
  destruct (returned o) as [ans|e] eqn:Er; [|by vm_compute in Er].
  pose proof (refresh_response_entries
                (device (10, 0, 0)%nat None response_r1_r9)
                [nat_rule "r1"; security_rule "r1"] "security" None true
                (hit_count_cmd "vsys1" "security" [new "all" []])
                response_r1_r9 ans "r1" entry_r1
                eq_refl eq_refl Er eq_refl I) as H.
  change (first_match [nat_rule "r1"; security_rule "r1"] "security" "r1")
    with (Some (1%nat, security_rule "r1")) in H.
  destruct H as (Ha & h & Hr & _ & Hd).
  exists ans, h. done.
Defined.

End HitCountResponse.

(* ===================================================================== *)
(** * Reading a formatted instant back *)
(* ===================================================================== *)

Module DatetimeFacts.
Import Datetime.

(** Linear arithmetic with division and remainder by constants. *)
Ltac dlia := Z.div_mod_to_equations; lia.

Lemma digit1_digit_char d l :
  0 <= d <= 9 → digit1 (digit_char d :: l) = Some (d, l).
Proof.
  intros H.
  assert (Hd : d = 0 ∨ d = 1 ∨ d = 2 ∨ d = 3 ∨ d = 4 ∨ d = 5 ∨ d = 6
               ∨ d = 7 ∨ d = 8 ∨ d = 9) by lia.
  destruct_or!; subst; by vm_compute.
Qed.

Lemma isspace_digit_char d : 0 <= d <= 9 → Py.isspace (digit_char d) = false.
Proof.
  intros H.
  assert (Hd : d = 0 ∨ d = 1 ∨ d = 2 ∨ d = 3 ∨ d = 4 ∨ d = 5 ∨ d = 6
               ∨ d = 7 ∨ d = 8 ∨ d = 9) by lia.
  destruct_or!; subst; by vm_compute.
Qed.

Lemma tens_units n :
  0 <= n < 100 →
  0 <= n / 10 <= 9 ∧ 0 <= n mod 10 <= 9 ∧ 10 * (n / 10) + n mod 10 = n.
Proof. intros H. dlia. Qed.

Lemma digit2_two_digits n l :
  0 <= n < 100 → digit2 (two_digits n ++ l) = Some (n / 10, n mod 10, l).
Proof.
  intros H. destruct (tens_units n H) as (Ht & Hu & _).
  unfold digit2, two_digits. cbn [app].
  rewrite (digit1_digit_char (n / 10)) by done. cbn [mbind option_bind].
  by rewrite (digit1_digit_char (n mod 10)) by done.
Qed.

Lemma two_two_digits ok n l :
  0 <= n < 100 →
  two ok (two_digits n ++ l)
  = if ok (n / 10) (n mod 10) then [(n, l)] else [].
Proof.
  intros H. destruct (tens_units n H) as (_ & _ & Hn).
  unfold two. rewrite (digit2_two_digits n l H).
  destruct (ok _ _); [|done]. by rewrite Hn.
Qed.

(** A zero-padded field in the range of its directive is the first thing
    the directive reads. *)
Lemma candidates_two_digits d n l :
  match d with
  | Dm => 1 <= n <= 12
  | Dd => 1 <= n <= 31
  | DH => 0 <= n <= 23
  | DM | DS => 0 <= n <= 59
  | _ => False
  end →
  ∃ others, candidates d (two_digits n ++ l) = (n, l) :: others.
Proof.
  intros H.
  assert (Hn : 0 <= n < 100) by (destruct d; try done; lia).
  destruct d; try done; unfold candidates;
    rewrite !(two_two_digits _ n l Hn);
    repeat match goal with
           | |- context [if ?b then [(n, l)] else []] =>
               destruct b eqn:?; [by eexists|]
           end;
    exfalso;
    repeat match goal with
           | E : _ && _ = false |- _ => apply andb_false_iff in E as [E|E]
           | E : (_ =? _) = false |- _ => apply Z.eqb_neq in E
           | E : (_ <=? _) = false |- _ => apply Z.leb_gt in E
           end; dlia.
Qed.

Lemma candidates_four_digits n l :
  0 <= n <= 9999 → candidates DY (four_digits n ++ l) = [(n, l)].
Proof.
  intros H. unfold candidates, four_digits. rewrite <- app_assoc.
  rewrite (digit2_two_digits (n / 100)) by dlia.
  rewrite (digit2_two_digits (n mod 100)) by dlia.
  do 2 f_equal. dlia.
Qed.

Lemma candidates_lit c l : candidates (DLit c) (c :: l) = [(0, l)].
Proof. cbn [candidates]. by rewrite Ascii.eqb_refl. Qed.

Lemma candidates_space n l :
  0 <= n < 100 →
  candidates DSpace (" "%char :: two_digits n ++ l) = [(0, two_digits n ++ l)].
Proof.
  intros H. destruct (tens_units n H) as (Ht & _ & _).
  unfold candidates, two_digits. cbn [app spaces].
  change (Py.isspace " ") with true. cbn iota.
  by rewrite (isspace_digit_char (n / 10)) by done.
Qed.

Lemma rmatch_step d ds l n rest others vs r :
  candidates d l = (n, rest) :: others →
  rmatch ds rest = Some (vs, r) →
  rmatch (d :: ds) l = Some ((d, n) :: vs, r).
Proof.
  intros Hc Hr. cbn [rmatch]. rewrite Hc. cbn [first_some].
  by rewrite Hr.
Qed.

(** [strptime] reads back every instant written with the same format. *)
Lemma strptime_strftime t :
  is_datetime t = true →
  strptime (strftime_ymd_hms t) "%Y/%m/%d %H:%M:%S" = Some t.
Proof.
  intros H. unfold is_datetime in H.
  repeat match goal with
         | E : _ && _ = true |- _ => apply andb_prop in E as [E ?]
         | E : (_ <=? _) = true |- _ => apply Z.leb_le in E
         end.
  destruct t as [Y m d h mi sec].
  cbn [year month day hour minute second] in *.
  assert (Hdays : days_in_month Y m <= 31).
  { unfold days_in_month. repeat case_match; lia. }
  unfold strptime, strftime_ymd_hms, Py.chars, Py.str.
  cbn [year month day hour minute second].
  rewrite String.list_ascii_of_string_of_list_ascii.
  change (compile (String.list_ascii_of_string "%Y/%m/%d %H:%M:%S"))
    with (Some [DY; DLit "/"; Dm; DLit "/"; Dd; DSpace; DH; DLit ":"; DM;
                DLit ":"; DS]).
  cbn [mbind option_bind squeeze].
  destruct (candidates_two_digits Dm m
              ("/"%char :: two_digits d ++ " "%char :: two_digits h
               ++ ":"%char :: two_digits mi ++ ":"%char :: two_digits sec))
    as [o1 Hc1]; [lia|].
  destruct (candidates_two_digits Dd d
              (" "%char :: two_digits h
               ++ ":"%char :: two_digits mi ++ ":"%char :: two_digits sec))
    as [o2 Hc2]; [lia|].
  destruct (candidates_two_digits DH h
              (":"%char :: two_digits mi ++ ":"%char :: two_digits sec))
    as [o3 Hc3]; [lia|].
  destruct (candidates_two_digits DM mi (":"%char :: two_digits sec))
    as [o4 Hc4]; [lia|].
  destruct (candidates_two_digits DS sec []) as [o5 Hc5]; [lia|].
  rewrite app_nil_r in Hc5.
  erewrite rmatch_step; [|apply candidates_four_digits; lia|].
  2:{ eapply rmatch_step; [apply candidates_lit|].
      eapply rmatch_step; [exact Hc1|].
      eapply rmatch_step; [apply candidates_lit|].
      eapply rmatch_step; [exact Hc2|].
      eapply rmatch_step; [apply candidates_space; lia|].
      eapply rmatch_step; [exact Hc3|].
      eapply rmatch_step; [apply candidates_lit|].
      eapply rmatch_step; [exact Hc4|].
      eapply rmatch_step; [apply candidates_lit|].
      eapply rmatch_step; [exact Hc5|].
      reflexivity. }
  cbn [mbind option_bind]. unfold field, valid.
  cbn [List.find fst snd year month day hour minute second].
  rewrite (proj2 (Z.leb_le 1 Y)) by lia.
  rewrite (proj2 (Z.leb_le d (days_in_month Y m))) by lia.
  rewrite (proj2 (Z.leb_le sec 59)) by lia.
  done.
Qed.

End DatetimeFacts.

(* ===================================================================== *)
(** * Audit comments *)
(* ===================================================================== *)

Module AuditComment.
Import Py ET OpState Examples.

Lemma append_assoc (a b c : string) : (a +:+ b) +:+ c = a +:+ (b +:+ c).
Proof.
  induction a as [|x a IH]; [reflexivity|].
  change (String x ((a +:+ b) +:+ c) = String x (a +:+ (b +:+ c))).
  by rewrite IH.
Qed.

(** C8, as stated, fails: besides [dir] (and [skip] when given) the call
    always sends [uniq=yes]. *)
Lemma history_sends_uniq :
  ∃ q, (history (device (10, 0, 0)%nat None empty_response) rule_r1
                100 "backward" None).1 = [q]
       ∧ extra_qs q !! "uniq" = Some "yes"
       ∧ extra_qs q ≠ {["dir" := "backward"]}.
Proof.
  eexists. split; [reflexivity|]. split; [reflexivity|].
  intros H. apply (f_equal (fun m => m !! "uniq")) in H.
  by vm_compute in H.
Qed.

(** C8 (amended): for a rule whose parent is a rulebase, [history] sends
    one log query of type [config] with the given count.  Its filter is
    [(subtype eq audit-comment)] followed by four [path contains]
    clauses, each joined by [and]: the rule name, the rule-type segment
    (the last but one of [xpath_short()]), the rulebase segment (the last
    of the parent's [xpath()]) and the parent's vsys, in that order.  The
    extra parameters are [dir] (the direction), [uniq] (always [yes])
    and, only when [skip] is given, [skip] as a decimal integer. *)
Theorem history_log_query dev self p count direction skip
    rule_type rulebase_type :
  parent self = Some p → is_rulebase p = true →
  index_from_end (split "/" (xpath_short self)) 2 = Some rule_type →
  index_from_end (split "/" (parent_xpath p)) 1 = Some rulebase_type →
  ∃ q,
    (history dev self count direction skip).1 = [q]
    ∧ log_type q = "config"
    ∧ nlogs q = count
    ∧ log_filter q
      = "(subtype eq audit-comment)"
        +:+ " and (path contains '\'" +:+ rule_uid self +:+ "\'')"
        +:+ " and (path contains '" +:+ rule_type +:+ "')"
        +:+ " and (path contains " +:+ rulebase_type +:+ ")"
        +:+ " and (path contains '\'" +:+ format_opt (parent_vsys p) +:+ "\'')"
    ∧ ∀ k, extra_qs q !! k
           = if String.eqb k "dir" then Some direction
             else if String.eqb k "uniq" then Some "yes"
             else if String.eqb k "skip" then str_of_int <$> skip
             else None.
Proof.
  intros Hp Hrb Hrt Hrbt. unfold history.
  rewrite Hrt, Hp, Hrb, Hrbt. simpl.
  eexists. split.
  { destruct (xapi_log dev _); reflexivity. }
  split; [done|]. split; [done|]. split.
  { unfold history_query, quoted_clause.
    rewrite !append_assoc. reflexivity. }
  intros k. unfold history_extra_qs. simpl.
  destruct (String.eqb_spec k "dir") as [->|Hd].
  { destruct skip; by vm_compute. }
  destruct (String.eqb_spec k "uniq") as [->|Hu].
  { destruct skip; by vm_compute. }
  destruct (String.eqb_spec k "skip") as [->|Hs].
  { destruct skip; simpl; [by rewrite lookup_insert_eq|by vm_compute]. }
  destruct skip; simpl; rewrite ?lookup_insert_ne by done; done.
Qed.

Lemma history_log_query_witness :
  ∃ q, (history (device (10, 0, 0)%nat None empty_response) rule_r1
                50 "forward" (Some 100)).1 = [q]
       ∧ log_filter q
         = "(subtype eq audit-comment) and (path contains '\'r1\'') and (path contains 'security') and (path contains rulebase) and (path contains '\'vsys1\'')"
       ∧ extra_qs q !! "skip" = Some "100".
Proof.
  destruct (history_log_query
              (device (10, 0, 0)%nat None empty_response) rule_r1
              (mk_Parent true
                 "/config/devices/entry[@name='localhost.localdomain']/vsys/entry[@name='vsys1']/rulebase"
                 (Some "vsys1"))
              50 "forward" (Some 100) "security" "rulebase"
              eq_refl eq_refl eq_refl eq_refl)
    as (q & Hq & _ & _ & Hf & Hx).
  exists q. split; [exact Hq|]. split; [exact Hf|]. exact (Hx "skip").
Defined.

(** C9: [AuditCommentLog] raises only when [config_ver] is not an
    integer.  Otherwise the time it stores is [None] when the
    [time_generated] node is absent (or empty); for a text written as
    [YYYY/MM/DD hh:mm:ss] it is that instant, and more generally the
    instant [strptime] reads with [%Y/%m/%d %H:%M:%S]; when [strptime]
    raises [ValueError] it is the text itself. *)
Theorem audit_comment_time elm :
  (∀ e, AuditCommentLog_init elm = Raise e →
        _int (Some elm) "config_ver" = Raise e)
  ∧ ∀ log, AuditCommentLog_init elm = Ok log →
      match find elm "time_generated" with
      | None => time log = None
      | Some node =>
          match text node with
          | None => time log = None
          | Some s =>
              (∀ t, Datetime.is_datetime t = true →
                    s = Datetime.strftime_ymd_hms t →
                    time log = Some (Parsed t))
              ∧ (∀ t, Datetime.strptime s "%Y/%m/%d %H:%M:%S" = Some t →
                      time log = Some (Parsed t))
              ∧ (Datetime.strptime s "%Y/%m/%d %H:%M:%S" = None →
                 time log = Some (Unparsed s))
          end
      end.
Proof.
  unfold AuditCommentLog_init, bind.
  destruct (_int (Some elm) "config_ver") as [v|e].
  - split; [done|]. intros log [= <-]. cbn [time].
    unfold _datetime, _str, time_format.
    destruct (find elm "time_generated") as [node|]; [|done].
    destruct (text node) as [s|]; [|done].
    split; [|split].
    + intros t Ht ->. by rewrite DatetimeFacts.strptime_strftime.
    + by intros t ->.
    + by intros ->.
  - split; [|done]. by intros e' [= <-].
Qed.

Lemma audit_comment_time_witness :
  (∃ log, AuditCommentLog_init audit_entry = Ok log
          ∧ time log = Some (Parsed (Datetime.mk_datetime 2021 1 2 3 4 5)))
  ∧ (∃ log, AuditCommentLog_init audit_entry_bad_time = Ok log
            ∧ time log = Some (Unparsed "not-a-date")).
Proof.
  split.
  - destruct (AuditCommentLog_init audit_entry) as [log|e] eqn:E;
      [|by vm_compute in E].
    exists log. split; [done|].
    destruct (audit_comment_time audit_entry) as [_ H].
    specialize (H log E). cbn in H. destruct H as (H & _ & _).
    apply H; by vm_compute.
  - destruct (AuditCommentLog_init audit_entry_bad_time) as [log|e] eqn:E;
      [|by vm_compute in E].
    exists log. split; [done|].
    destruct (audit_comment_time audit_entry_bad_time) as [_ H].
    specialize (H log E). cbn in H. destruct H as (_ & _ & H).
    apply H. by vm_compute.
Defined.

End AuditComment.

(* ===================================================================== *)
(** * Decimal text of integers *)
(* ===================================================================== *)

Module IntText.
Import Py.

Lemma lstrip_head l :
  match l with
  | c :: _ => isspace c = false
  | [] => True
  end → lstrip l = l.
Proof. destruct l as [|c l]; [done|]. simpl. by intros ->. Qed.

Lemma strip_no_space l :
  Forall (fun c => isspace c = false) l → strip l = l.
Proof.
  intros H. unfold strip.
  rewrite (lstrip_head l) by (by destruct H).
  apply List.Forall_rev in H.
  rewrite (lstrip_head (rev l)) by (by destruct H).
  apply rev_involutive.
Qed.

Lemma uint_chars_digits d :
  Forall (fun c => isdigit c = true) (chars (NilEmpty.string_of_uint d)).
Proof. induction d; simpl; constructor; done. Qed.

Lemma digit_not_space c : isdigit c = true → isspace c = false.
Proof.
  unfold isdigit, isspace. generalize (nat_of_ascii c). intros n Hn.
  apply andb_prop in Hn as [H1 H2].
  apply Nat.leb_le in H1. apply Nat.leb_le in H2.
  apply orb_false_intro; apply andb_false_intro2; apply Nat.leb_gt; lia.
Qed.

Lemma int_digits_acc d : ∀ acc,
  int_digits (Z.pos acc) (chars (NilEmpty.string_of_uint d))
  = Some (Z.pos (Pos.of_uint_acc d acc)).
Proof.
  induction d; intros acc; simpl; [done|..];
    (etransitivity; [|apply IHd]); f_equal; unfold digit_value;
    match goal with
    | |- context [Z.of_nat (nat_of_ascii ?c)] =>
        let n := eval vm_compute in (Z.of_nat (nat_of_ascii c)) in
        change (Z.of_nat (nat_of_ascii c)) with n
    end; lia.
Qed.

Lemma int_digits_uint d :
  int_digits 0 (chars (NilEmpty.string_of_uint d))
  = Some (Z.of_N (Pos.of_uint d)).
Proof.
  induction d; simpl; [done|exact IHd|..];
    (etransitivity; [|apply int_digits_acc]); f_equal.
Qed.

Lemma int_literal_uint d :
  d ≠ Decimal.Nil →
  int_literal (chars (NilEmpty.string_of_uint d))
  = Some (Z.of_N (Pos.of_uint d)).
Proof.
  intros Hd. rewrite <- int_digits_uint. by destruct d.
Qed.

(** Reading back the decimal text of an integer gives the integer. *)
Lemma int_str_of_int z : Py.int (str_of_int z) = Some z.
Proof.
  unfold Py.int, str_of_int.
  destruct z as [|p|p]; simpl; [done|..].
  - pose proof (uint_chars_digits (Pos.to_uint p)) as Hd.
    rewrite strip_no_space
      by (eapply Forall_impl; [exact Hd|apply digit_not_space]).
    pose proof (DecimalPos.Unsigned.to_uint_nonnil p) as Hn.
    pose proof (int_literal_uint _ Hn) as Hl.
    rewrite DecimalPos.Unsigned.of_to in Hl.
    destruct (chars _) as [|c l] eqn:E.
    { destruct (Pos.to_uint p); done. }
    apply Forall_cons in Hd as [Hc _].
    destruct (Ascii.eqb_spec c "-") as [->|_]; [done|].
    destruct (Ascii.eqb_spec c "+") as [->|_]; [done|].
    exact Hl.
  - pose proof (uint_chars_digits (Pos.to_uint p)) as Hd.
    rewrite strip_no_space.
    2:{ constructor; [done|].
        eapply Forall_impl; [exact Hd|apply digit_not_space]. }
    pose proof (DecimalPos.Unsigned.to_uint_nonnil p) as Hn.
    rewrite (int_literal_uint _ Hn), DecimalPos.Unsigned.of_to. done.
Qed.

End IntText.

(* ===================================================================== *)
(** * Building and parsing back *)
(* ===================================================================== *)

Module MapperFacts.
Import ET Mapper.

Lemma is_prefix_nil_r a : is_prefix a [] = true → a = [].
Proof. by destruct a. Qed.

Lemma incomparable_sym a b : incomparable a b = incomparable b a.
Proof. unfold incomparable. apply andb_comm. Qed.

Lemma incomparable_cons_same s a b :
  incomparable (s :: a) (s :: b) = incomparable a b.
Proof. unfold incomparable. simpl. by rewrite String.eqb_refl. Qed.

Lemma incomparable_nonempty a b :
  incomparable a b = true → a ≠ [] ∧ b ≠ [].
Proof.
  unfold incomparable. destruct a, b; simpl; done.
Qed.

(** *** One level: [update_child] against [find_child] *)

Lemma find_child_update_same t f c :
  keeps_tag f →
  find_child t (update_child t f c)
  = Some (f (from_option id (new t []) (find_child t c))).
Proof.
  intros Hf. induction c as [|e c IH]; simpl.
  - by rewrite Hf, String.eqb_refl.
  - destruct (String.eqb (tag e) t) eqn:E; simpl.
    + by rewrite Hf, E.
    + by rewrite E.
Qed.

Lemma find_child_update_other t t' f c :
  keeps_tag f → t ≠ t' →
  find_child t' (update_child t f c) = find_child t' c.
Proof.
  intros Hf Hne. induction c as [|e c IH]; simpl.
  - rewrite Hf. simpl. by destruct (String.eqb_spec t t').
  - destruct (String.eqb_spec (tag e) t) as [Ht|Ht]; simpl.
    + rewrite Hf, Ht. by destruct (String.eqb_spec t t').
    + by rewrite IH.
Qed.

Lemma update_at_keeps_tag rp f :
  keeps_tag f → keeps_tag (update_at rp f).
Proof. intros Hf [tg a x c]. destruct rp; simpl; [apply Hf|done]. Qed.

(** *** Whole paths: [update_at] against [find_path] *)

Lemma find_path_new s rp tg : find_path (s :: rp) (new tg []) = None.
Proof. done. Qed.

Lemma find_path_update_same rp : ∀ f t,
  keeps_tag f → find_path rp t = None →
  ∃ tg, find_path rp (update_at rp f t) = Some (f (new tg [])).
Proof.
  induction rp as [|s rp IH]; intros f [tg a x c] Hf Hnone; [done|].
  simpl in *. unfold find in *. simpl in *.
  rewrite find_child_update_same by (by apply update_at_keeps_tag).
  destruct rp as [|s' rp].
  - destruct (find_child s c); [done|]. by exists s.
  - apply IH; [done|]. by destruct (find_child s c).
Qed.

Lemma find_path_update_other rp : ∀ q f t,
  keeps_tag f → incomparable rp q = true →
  find_path q (update_at rp f t) = find_path q t.
Proof.
  induction rp as [|s rp IH]; intros q f [tg a x c] Hf Hi; [done|].
  destruct q as [|s' q]; [by apply incomparable_nonempty in Hi as [_ ?]|].
  simpl. unfold find. simpl.
  destruct (String.eqb_spec s s') as [<-|Hne].
  - rewrite incomparable_cons_same in Hi.
    rewrite find_child_update_same by (by apply update_at_keeps_tag).
    rewrite IH by done.
    destruct (find_child s c); [done|].
    apply incomparable_nonempty in Hi as [_ Hq]. by destruct q.
  - by rewrite find_child_update_other by (by try apply update_at_keeps_tag).
Qed.

(** *** Leaves *)

Lemma leaf_keeps_tag k x f : leaf k x = Some f → keeps_tag f.
Proof.
  destruct k, x; simpl; intros [= <-]; by intros [].
Qed.

Lemma children_tagged_all t (c : list Element) tg a x :
  Forall (fun e => tag e = t) c →
  children_tagged t (Elem tg a x c) = c.
Proof.
  unfold children_tagged. simpl. induction 1 as [|e c He _ IH]; [done|].
  simpl. rewrite He, String.eqb_refl. by rewrite IH.
Qed.

Lemma omap_text_member (l : list string) : omap text (member <$> l) = l.
Proof. induction l as [|s l IH]; [done|]. csimpl. by f_equal. Qed.

Lemma omap_name_entry (l : list string) :
  omap (fun c => get (attrib c) "name") (entry <$> l) = l.
Proof. induction l as [|s l IH]; [done|]. csimpl. by f_equal. Qed.

Lemma leaf_decode n k x f tg :
  leaf k x = Some f →
  decode n k (f (new tg [])) = Done (Some (as_kind k x)).
Proof.
  assert (Hm : ∀ l, decode n KMember (add_children (member <$> l) (new tg []))
                    = Done (Some (VList l))).
  { intros l. simpl.
    rewrite children_tagged_all by (by apply Forall_fmap, Forall_true).
    by rewrite omap_text_member. }
  assert (He : ∀ l, decode n KEntry (add_children (entry <$> l) (new tg []))
                    = Done (Some (VList l))).
  { intros l. simpl.
    rewrite children_tagged_all by (by apply Forall_fmap, Forall_true).
    by rewrite omap_name_entry. }
  destruct k, x; unfold leaf; cbn [as_kind]; intros [= <-].
  - done.
  - by destruct b.
  - simpl. by rewrite IntText.int_str_of_int.
  - apply (Hm [s]).
  - apply Hm.
  - apply (He [s]).
  - apply He.
Qed.

(** *** Independent paths *)

Lemma independent_cons r rs :
  independent (r :: rs) = true →
  r ≠ [] ∧ Forall (fun r' => incomparable r r' = true) rs
  ∧ independent rs = true.
Proof.
  simpl. destruct r as [|s r]; [done|].
  intros [H1 H2]%andb_prop. split; [done|]. split; [|done].
  apply Forall_forall. intros r' Hr'.
  rewrite forallb_forall in H1. by apply H1, list_elem_of_In.
Qed.

Lemma independent_nonempty rs r :
  independent rs = true → r ∈ rs → r ≠ [].
Proof.
  induction rs as [|r0 rs IH]; intros Hi Hr; [by apply elem_of_nil in Hr|].
  apply independent_cons in Hi as (Hne & _ & Hi).
  apply elem_of_cons in Hr as [->|Hr]; [done|by apply IH].
Qed.

Section Build.
Context (e : entity) (v : Py.version).

Lemma targets_cons p ps :
  targets (settings e) v (p :: ps)
  = match target (settings e) v p with
    | Some (rp, _) => rp :: targets (settings e) v ps
    | None => targets (settings e) v ps
    end.
Proof. unfold targets. csimpl. by destruct (target _ _ _) as [[]|]. Qed.

Lemma in_targets p rp k ps :
  p ∈ ps → target (settings e) v p = Some (rp, k) →
  rp ∈ targets (settings e) v ps.
Proof.
  intros Hp Ht. unfold targets. apply list_elem_of_omap.
  exists p. split; [done|]. by rewrite Ht.
Qed.

(** What one step of [build] does to the tree. *)
Lemma emit_cases t p t' :
  emit e v t p = Done t' →
  match target (settings e) v p with
  | Some (rp, k) =>
      match settings e !! name p with
      | Some x =>
          allowed p x = true
          ∧ ∃ f, leaf k x = Some f ∧ t' = update_at rp f t
      | None => t' = t
      end
  | None => t' = t
  end.
Proof.
  unfold emit. destruct (target _ _ _) as [[rp k]|]; [|by intros [= <-]].
  destruct (settings e !! name p) as [x|]; [|by intros [= <-]].
  destruct (allowed p x); [|done].
  destruct (leaf k x) as [f|]; [|done].
  intros [= <-]. eauto.
Qed.

(** Building the parameters [ps] leaves alone every path that is
    incomparable with theirs. *)
Lemma build_from_other ps : ∀ t T q,
  build_from e v ps t = Done T →
  Forall (fun r => incomparable r q = true) (targets (settings e) v ps) →
  find_path q T = find_path q t.
Proof.
  induction ps as [|p ps IH]; intros t T q Hb Hq; simpl in Hb.
  { by injection Hb as <-. }
  destruct (emit e v t p) as [t1|] eqn:Ee; [|done].
  apply emit_cases in Ee. rewrite targets_cons in Hq.
  destruct (target _ _ p) as [[rp k]|]; [|subst t1; by apply IH].
  apply Forall_cons in Hq as [Hrp Hq].
  rewrite (IH _ _ _ Hb Hq).
  destruct (settings e !! name p) as [x|]; [|by subst t1].
  destruct Ee as (_ & f & Hf & ->).
  apply find_path_update_other; [|done]. by eapply leaf_keeps_tag.
Qed.

(** Where [build] puts each parameter, when the paths are independent
    and none of them exists in the tree it starts from. *)
Lemma build_from_spec ps : ∀ t T,
  build_from e v ps t = Done T →
  independent (targets (settings e) v ps) = true →
  Forall (fun r => find_path r t = None) (targets (settings e) v ps) →
  ∀ p rp k,
    p ∈ ps → target (settings e) v p = Some (rp, k) →
    match settings e !! name p with
    | Some x =>
        allowed p x = true
        ∧ ∃ el, find_path rp T = Some el
                ∧ decode (name p) k el = Done (Some (as_kind k x))
    | None => find_path rp T = None
    end.
Proof.
  induction ps as [|p0 ps IH]; intros t T Hb Hi Hnone p rp k Hp Ht.
  { by apply elem_of_nil in Hp. }
  simpl in Hb. destruct (emit e v t p0) as [t1|] eqn:Ee; [|done].
  apply emit_cases in Ee. rewrite targets_cons in Hi, Hnone.
  destruct (target _ _ p0) as [[rp0 k0]|] eqn:Et0.
  - apply independent_cons in Hi as (Hne & Hinc & Hi).
    apply Forall_cons in Hnone as [Hnone0 Hnone].
    assert (Hback : Forall (fun r => incomparable r rp0 = true)
                           (targets (settings e) v ps)).
    { eapply Forall_impl; [exact Hinc|]. intros r Hr.
      by rewrite incomparable_sym. }
    assert (Hnone1 : Forall (fun r => find_path r t1 = None)
                            (targets (settings e) v ps)).
    { destruct (settings e !! name p0) as [x|]; [|by subst t1].
      destruct Ee as (_ & f & Hf & ->).
      rewrite Forall_forall in Hinc, Hnone |- *. intros r Hr.
      rewrite find_path_update_other; [by apply Hnone| |by apply Hinc].
      by eapply leaf_keeps_tag. }
    apply elem_of_cons in Hp as [->|Hp]; [|by eapply IH].
    rewrite Et0 in Ht. injection Ht as <- <-.
    rewrite (build_from_other _ _ _ _ Hb Hback).
    destruct (settings e !! name p0) as [x|]; [|by subst t1].
    destruct Ee as (Ha & f & Hf & ->). split; [done|].
    destruct (find_path_update_same rp0 f t) as [tg Htg];
      [by eapply leaf_keeps_tag|done|].
    exists (f (new tg [])). split; [done|]. by apply leaf_decode.
  - subst t1. apply elem_of_cons in Hp as [->|Hp]; [congruence|].
    by eapply IH.
Qed.

End Build.

(** *** The settings of an entity *)

Section Settings.
Context (given : gmap string value).

Lemma foldl_fill_notin ps : ∀ (m : gmap string value) r,
  r ∉ name <$> ps → foldl (fill given) m ps !! r = m !! r.
Proof.
  induction ps as [|p ps IH]; intros m r Hr; [done|].
  rewrite fmap_cons in Hr. apply not_elem_of_cons in Hr as [Hne Hr].
  simpl. rewrite IH by done. unfold fill, assign.
  destruct (initial given p); [|done]. by rewrite lookup_insert_ne.
Qed.

Lemma settings_lookup sch n pre p suf :
  sch = pre ++ p :: suf → NoDup (name <$> sch) →
  settings (make_entity sch n given) !! name p = initial given p.
Proof.
  intros -> Hnd. simpl. rewrite foldl_app. simpl.
  rewrite fmap_app, fmap_cons in Hnd.
  apply NoDup_app in Hnd as (_ & Hpre & Hsuf).
  apply NoDup_cons in Hsuf as [Hsuf _].
  rewrite foldl_fill_notin by done. unfold fill, assign.
  destruct (initial given p); [by rewrite lookup_insert_eq|].
  rewrite foldl_fill_notin; [done|].
  intros Hin. apply (Hpre _ Hin). by left.
Qed.

Lemma settings_prefix sch n pre suf r :
  sch = pre ++ suf → NoDup (name <$> sch) → r ∈ name <$> pre →
  settings (make_entity sch n given) !! r
  = foldl (fill given) ∅ pre !! r.
Proof.
  intros -> Hnd Hr. simpl. rewrite foldl_app.
  rewrite fmap_app in Hnd. apply NoDup_app in Hnd as (_ & Hpre & _).
  apply foldl_fill_notin. by apply Hpre.
Qed.

End Settings.

(** *** Conditions and placeholders only look back *)

Lemma declared_no_later_split v pre : ∀ seen p suf r,
  declared_no_later v seen (pre ++ p :: suf) = true →
  r ∈ references v p → r = name p ∨ r ∈ seen ∨ r ∈ name <$> pre.
Proof.
  induction pre as [|q pre IH]; intros seen p suf r H Hr; simpl in H;
    apply andb_prop in H as [H1 H2].
  - rewrite forallb_forall in H1.
    apply list_elem_of_In, H1 in Hr. apply bool_decide_eq_true in Hr.
    apply elem_of_cons in Hr as [->|Hr]; auto.
  - destruct (IH _ _ _ _ H2 Hr) as [Hs|[Hs|Hs]]; [by left|..].
    + apply elem_of_cons in Hs as [->|Hs]; [|by auto].
      right. right. rewrite fmap_cons. by left.
    + right. right. rewrite fmap_cons. by right.
Qed.

Lemma condition_holds_agree (m m' : gmap string value) cond :
  (∀ r, r ∈ cond.*1 → m !! r = m' !! r) →
  condition_holds m cond = condition_holds m' cond.
Proof.
  induction cond as [|c cond IH]; intros H; [done|].
  simpl. rewrite (H c.1) by (rewrite fmap_cons; by left).
  f_equal. apply IH. intros r Hr. apply H. rewrite fmap_cons. by right.
Qed.

Lemma resolve_agree (m m' : gmap string value) tpl :
  (∀ r, r ∈ placeholders tpl → m !! r = m' !! r) →
  resolve m tpl = resolve m' tpl.
Proof.
  induction tpl as [|[s|r0] tpl IH]; intros H; [done|..]; simpl.
  - rewrite IH; [done|]. intros r Hr. apply H. done.
  - rewrite (H r0) by (unfold placeholders; csimpl; by left).
    rewrite IH; [done|]. intros r Hr. apply H.
    unfold placeholders. csimpl. by right.
Qed.

Lemma target_agree (m m' : gmap string value) v p :
  (∀ r, r ∈ references v p → m !! r = m' !! r) →
  target m v p = target m' v p.
Proof.
  unfold target, references.
  destruct (effective p v) as [[tpl k]|]; [|done]. intros H.
  rewrite (condition_holds_agree m m'), (resolve_agree m m'); [done|..];
    intros r Hr; apply H, elem_of_app; auto.
Qed.

(** A parameter that is not skipped has found a value for every
    parameter it names. *)
Lemma target_defined (m : gmap string value) v p x r :
  target m v p = Some x → r ∈ references v p → is_Some (m !! r).
Proof.
  unfold target, references.
  destruct (effective p v) as [[tpl k]|]; [|done].
  destruct (condition_holds m (activation_condition p)) eqn:Ec; [|done].
  destruct (resolve m tpl) as [rp|] eqn:Er; [|done]. intros _ Hr.
  apply elem_of_app in Hr as [Hr|Hr].
  - clear Er. induction (activation_condition p) as [|c cond IH].
    { by apply elem_of_nil in Hr. }
    simpl in Ec. apply andb_prop in Ec as [Hc Ec].
    rewrite fmap_cons in Hr. apply elem_of_cons in Hr as [->|Hr]; [|by apply IH].
    destruct (m !! c.1); [by eexists|done].
  - clear Ec. revert rp Er. induction tpl as [|[s|r0] tpl IH]; intros rp Er.
    { by apply elem_of_nil in Hr. }
    + simpl in Er. destruct (resolve m tpl) as [rp'|]; [|done].
      by apply (IH Hr rp').
    + simpl in Er. destruct (m !! r0) as [[s| | |]|] eqn:E0; try done.
      destruct (resolve m tpl) as [rp'|]; [|done].
      unfold placeholders in Hr. csimpl in Hr.
      apply elem_of_cons in Hr as [->|Hr]; [by rewrite E0; eexists|].
      by apply (IH Hr rp').
Qed.

(** *** Parsing what was built *)

Lemma absorb_outside t v (m m1 : gmap string value) p r :
  absorb t v m p = Done m1 → r ≠ name p → m1 !! r = m !! r.
Proof.
  intros H Hr. unfold absorb in H.
  assert (Hs : assign (name p) (default p) m !! r = m !! r).
  { unfold assign. destruct (default p); [|done].
    by rewrite lookup_insert_ne. }
  destruct (target m v p) as [[rp k]|]; [|by injection H as <-].
  destruct (find_path rp t) as [x|]; [|by injection H as <-].
  destruct (decode (name p) k x) as [[val|]|]; [| |done].
  - destruct (allowed p val); [|done]. injection H as <-.
    by rewrite lookup_insert_ne.
  - by injection H as <-.
Qed.

Lemma parse_from_outside t v suf : ∀ (m m' : gmap string value) r,
  parse_from t v suf m = Done m' → r ∉ name <$> suf → m' !! r = m !! r.
Proof.
  induction suf as [|p suf IH]; intros m m' r H Hr; simpl in H.
  { by injection H as <-. }
  rewrite fmap_cons in Hr. apply not_elem_of_cons in Hr as [Hne Hr].
  destruct (absorb t v m p) as [m1|] eqn:Ea; [|done].
  rewrite (IH _ _ _ H Hr). by eapply absorb_outside.
Qed.

Section SameVersion.
Context (sch : schema) (n : string) (given : gmap string value).
Context (v : Py.version) (t : Element).
Let e := make_entity sch n given.
Context (Hnames : NoDup (name <$> sch)).
Context (Hrefs : declared_no_later v [] sch = true).
Context (Hpaths : independent (targets (settings e) v sch) = true).
Context (Hbuild : build sch e v = Done t).

(** What [parse] sees of a parameter is what it has parsed of the ones
    declared before. *)
Lemma target_seen pre p suf (m : gmap string value) :
  sch = pre ++ p :: suf →
  (∀ r, r ∈ name <$> pre → m !! r = settings e !! r) →
  m !! name p = None →
  target m v p = parse_target (settings e) v p.
Proof using Hnames Hrefs.
  intros Hsch Hm Hnone. unfold parse_target.
  apply target_agree. intros r Hr.
  rewrite Hsch in Hrefs.
  destruct (declared_no_later_split v pre [] p suf r Hrefs Hr)
    as [->|[Hs|Hs]].
  - by rewrite lookup_delete_eq.
  - by apply elem_of_nil in Hs.
  - rewrite lookup_delete_ne; [by apply Hm|].
    intros <-. rewrite Hsch, fmap_app, fmap_cons in Hnames.
    apply NoDup_app in Hnames as (_ & Hpre & _). apply (Hpre _ Hs). by left.
Qed.

(** A parameter that [parse] does not skip names other parameters only,
    and [build] has put it where [parse] looks for it. *)
Lemma parse_target_built p rp k :
  parse_target (settings e) v p = Some (rp, k) →
  target (settings e) v p = Some (rp, k).
Proof using Type.
  unfold parse_target. intros Ht. rewrite <- Ht. symmetry.
  apply target_agree. intros r Hr.
  destruct (target_defined _ _ _ _ r Ht Hr) as [x Hx].
  rewrite lookup_delete_ne; [done|]. intros <-.
  by rewrite lookup_delete_eq in Hx.
Qed.

(** One step of [parse] on the built tree, from values that agree with
    the entity on the parameters declared before. *)
Lemma absorb_step pre p suf (m : gmap string value) :
  sch = pre ++ p :: suf →
  (∀ r, r ∈ name <$> pre → m !! r = settings e !! r) →
  m !! name p = None →
  match parse_target (settings e) v p, settings e !! name p with
  | Some (rp, k), Some x =>
      allowed p x = true
      ∧ absorb t v m p
        = if allowed p (as_kind k x)
          then Done (<[name p := as_kind k x]> m)
          else Fail (ValueNotAllowed (name p))
  | _, _ => absorb t v m p = Done (assign (name p) (default p) m)
  end.
Proof using All.
  intros Hsch Hm Hnone.
  assert (Hp : p ∈ sch) by (rewrite Hsch; set_solver).
  unfold absorb. rewrite (target_seen pre p suf m Hsch Hm Hnone).
  destruct (parse_target (settings e) v p) as [[rp k]|] eqn:Eparse; [|done].
  pose proof (parse_target_built p rp k Eparse) as Etarget.
  assert (Hroot : Forall (fun r => find_path r (Elem "entry"
                            [("name", ent_name e)] None []) = None)
                         (targets (settings e) v sch)).
  { apply Forall_forall. intros r Hr.
    pose proof (independent_nonempty _ _ Hpaths Hr). by destruct r. }
  pose proof (build_from_spec e v sch _ _ Hbuild Hpaths Hroot p rp k
                Hp Etarget) as Hspec.
  destruct (settings e !! name p) as [x|].
  - destruct Hspec as (Ha & el & -> & ->). done.
  - by rewrite Hspec.
Qed.

Lemma absorb_built pre p suf :
  defaults_when_skipped (settings e) v sch = true →
  lists_as_lists (settings e) v sch = true →
  sch = pre ++ p :: suf →
  absorb t v (foldl (fill given) ∅ pre) p
  = Done (fill given (foldl (fill given) ∅ pre) p).
Proof using All.
  intros Hskip Hlists Hsch.
  assert (Hp : p ∈ sch) by (rewrite Hsch; set_solver).
  pose proof (settings_lookup given sch n pre p suf Hsch Hnames) as Hval.
  fold e in Hval.
  assert (Hm : ∀ r, r ∈ name <$> pre →
                    foldl (fill given) ∅ pre !! r = settings e !! r).
  { intros r Hr. symmetry.
    apply (settings_prefix given sch n pre (p :: suf) r Hsch Hnames Hr). }
  assert (Hnone : foldl (fill given) ∅ pre !! name p = None).
  { rewrite foldl_fill_notin; [done|].
    pose proof Hnames as Hnd. rewrite Hsch, fmap_app, fmap_cons in Hnd.
    apply NoDup_app in Hnd as (_ & Hpre & _).
    intros Hin. apply (Hpre _ Hin). by left. }
  pose proof (absorb_step pre p suf _ Hsch Hm Hnone) as Hstep.
  unfold defaults_when_skipped in Hskip. rewrite forallb_forall in Hskip.
  unfold lists_as_lists in Hlists. rewrite forallb_forall in Hlists.
  apply list_elem_of_In in Hp.
  specialize (Hskip _ Hp). specialize (Hlists _ Hp).
  assert (Hunset : settings e !! name p = None →
                   assign (name p) (default p) (foldl (fill given) ∅ pre)
                   = fill given (foldl (fill given) ∅ pre) p).
  { intros Hn. rewrite Hval in Hn. unfold fill. rewrite Hn.
    unfold initial in Hn. destruct (given !! name p); [done|]. by rewrite Hn. }
  destruct (parse_target (settings e) v p) as [[rp k]|].
  - destruct (settings e !! name p) as [x|] eqn:Ex.
    + destruct Hstep as [Ha ->].
      apply bool_decide_eq_true in Hlists. rewrite Hlists, Ha.
      unfold fill. by rewrite <- Hval.
    + by rewrite Hstep, Hunset.
  - rewrite Hstep. apply bool_decide_eq_true in Hskip. unfold fill.
    by rewrite <- Hval, Hskip.
Qed.

Lemma parse_from_built suf : ∀ pre,
  defaults_when_skipped (settings e) v sch = true →
  lists_as_lists (settings e) v sch = true →
  sch = pre ++ suf →
  parse_from t v suf (foldl (fill given) ∅ pre) = Done (settings e).
Proof using All.
  induction suf as [|p suf IH]; intros pre Hskip Hlists Hsch.
  { rewrite app_nil_r in Hsch. by subst pre. }
  simpl. rewrite (absorb_built pre p suf Hskip Hlists Hsch).
  rewrite <- foldl_snoc. apply IH; [done|done|]. by rewrite <- app_assoc.
Qed.

(** Conversely, a parse that gives the entity's values back shows, for
    each parameter, that it holds its default when [parse] skips it and
    that it holds a list when its kind is a list kind. *)
Lemma parse_from_exact suf : ∀ pre (m : gmap string value),
  sch = pre ++ suf →
  (∀ r, r ∈ name <$> pre → m !! r = settings e !! r) →
  (∀ r, r ∉ name <$> pre → m !! r = None) →
  parse_from t v suf m = Done (settings e) →
  Forall (fun p =>
            match parse_target (settings e) v p, settings e !! name p with
            | None, _ => settings e !! name p = default p
            | Some (_, k), Some x => as_kind k x = x
            | Some _, None => True
            end) suf.
Proof using All.
  induction suf as [|p suf IH]; intros pre m Hsch Hm Hnone Hparse; [done|].
  simpl in Hparse.
  destruct (absorb t v m p) as [m1|] eqn:Ea; [|done].
  pose proof Hnames as Hnd. rewrite Hsch, fmap_app, fmap_cons in Hnd.
  apply NoDup_app in Hnd as (_ & Hpre & Hnd).
  apply NoDup_cons in Hnd as [Hsuf _].
  assert (Hfresh : name p ∉ name <$> pre).
  { intros Hin. apply (Hpre _ Hin). by left. }
  pose proof (parse_from_outside _ _ _ _ _ _ Hparse Hsuf) as Hfinal.
  assert (Hm1 : ∀ r, r ∈ name <$> (pre ++ [p]) → m1 !! r = settings e !! r).
  { intros r Hr. rewrite fmap_app in Hr.
    apply elem_of_app in Hr as [Hr|Hr].
    - rewrite <- (Hm r Hr). eapply absorb_outside; [exact Ea|].
      intros ->. by apply Hfresh.
    - apply list_elem_of_singleton in Hr as ->. done. }
  assert (Hnone1 : ∀ r, r ∉ name <$> (pre ++ [p]) → m1 !! r = None).
  { intros r Hr. rewrite fmap_app in Hr.
    apply not_elem_of_app in Hr as [Hr1 Hr2].
    rewrite <- (Hnone r Hr1). eapply absorb_outside; [exact Ea|].
    intros ->. apply Hr2. by left. }
  constructor.
  2:{ apply (IH (pre ++ [p]) m1); [by rewrite <- app_assoc|done|done|done]. }
  pose proof (absorb_step pre p suf m Hsch Hm (Hnone _ Hfresh)) as Hstep.
  assert (Hskipped : absorb t v m p = Done (assign (name p) (default p) m) →
                     settings e !! name p = default p).
  { rewrite Ea. intros [= ->]. etrans; [exact Hfinal|]. unfold assign.
    destruct (default p) as [d|]; [by rewrite lookup_insert_eq|].
    by apply Hnone. }
  destruct (parse_target (settings e) v p) as [[rp k]|]; [|by apply Hskipped].
  destruct (settings e !! name p) as [x|] eqn:Ex; [|done].
  destruct Hstep as [_ Hstep]. rewrite Ea in Hstep.
  destruct (allowed p (as_kind k x)); [|done]. injection Hstep as ->.
  assert (Hx : Some x = Some (as_kind k x)).
  { rewrite <- Ex. etrans; [exact Hfinal|]. apply lookup_insert_eq. }
  by injection Hx as <-.
Qed.

End SameVersion.

(** The round trip for a well-formed schema: the values come back
    exactly when every skipped parameter holds its default and every
    list is held as a list. *)
Lemma roundtrip_iff sch n given v t :
  NoDup (name <$> sch) →
  declared_no_later v [] sch = true →
  independent (targets (settings (make_entity sch n given)) v sch) = true →
  build sch (make_entity sch n given) v = Done t →
  parse sch t v = Done (settings (make_entity sch n given))
  ↔ defaults_when_skipped (settings (make_entity sch n given)) v sch = true
    ∧ lists_as_lists (settings (make_entity sch n given)) v sch = true.
Proof.
  intros Hnames Hrefs Hpaths Hbuild. split.
  - intros Hparse.
    assert (H1 : ∀ r, r ∈ name <$> ([] : schema) →
                      (∅ : gmap string value) !! r
                      = settings (make_entity sch n given) !! r).
    { intros r Hr. by apply elem_of_nil in Hr. }
    assert (H2 : ∀ r, r ∉ name <$> ([] : schema) →
                      (∅ : gmap string value) !! r = None).
    { intros r _. apply lookup_empty. }
    pose proof (parse_from_exact sch n given v t Hnames Hrefs Hpaths Hbuild
                  sch [] ∅ eq_refl H1 H2 Hparse) as Hall.
    rewrite Forall_forall in Hall.
    unfold defaults_when_skipped, lists_as_lists.
    split; apply forallb_forall; intros p Hp%list_elem_of_In;
      specialize (Hall p Hp);
      destruct (parse_target _ v p) as [[rp k]|]; try done.
    + by apply bool_decide_eq_true.
    + destruct (_ !! name p) as [x|]; [|done]. by apply bool_decide_eq_true.
  - intros [Hskip Hlists].
    exact (parse_from_built sch n given v t Hnames Hrefs Hpaths Hbuild
             sch [] Hskip Hlists eq_refl).
Qed.

(** A parameter at which what [parse] gives differs from what the
    entity holds. *)
Lemma roundtrip_breaks sch n given v k (o : option value) :
  match build sch (make_entity sch n given) v with
  | Done t =>
      match parse sch t v with
      | Done m => Some (m !! k)
      | Fail _ => None
      end
  | Fail _ => None
  end = Some o →
  settings (make_entity sch n given) !! k ≠ o →
  ∃ t m, build sch (make_entity sch n given) v = Done t
         ∧ parse sch t v = Done m
         ∧ m !! k = o
         ∧ parse sch t v ≠ Done (settings (make_entity sch n given)).
Proof.
  intros H Hne.
  destruct (build sch (make_entity sch n given) v) as [t|]; [|done].
  destruct (parse sch t v) as [m|] eqn:Hp; [|done]. injection H as H.
  exists t, m. split; [done|]. split; [done|]. split; [done|].
  rewrite Hp. intros [= ->]. done.
Qed.

(** Paths without conditions and placeholders do not depend on the
    values held. *)
Lemma targets_fixed (m m' : gmap string value) v sch :
  Forall (fun p => references v p = []) sch →
  targets m v sch = targets m' v sch.
Proof.
  intros H. unfold targets. induction H as [|p sch Hp _ IH]; [done|].
  csimpl. rewrite IH, (target_agree m m' v p); [done|].
  intros r Hr. rewrite Hp in Hr. by apply elem_of_nil in Hr.
Qed.

Lemma never_skipped (m : gmap string value) v sch :
  Forall (fun p => references v p = [] ∧ is_Some (effective p v)) sch →
  defaults_when_skipped m v sch = true.
Proof.
  intros H. unfold defaults_when_skipped. apply forallb_forall.
  intros p Hp%list_elem_of_In. rewrite Forall_forall in H.
  destruct (H p Hp) as [Hr [[tpl k] He]].
  unfold parse_target, target, references in *. rewrite He in Hr |- *.
  apply app_eq_nil in Hr as [Hc Hph].
  destruct (activation_condition p); [|done]. simpl.
  assert (Hres : ∀ (m' : gmap string value) tpl,
            placeholders tpl = [] → is_Some (resolve m' tpl)).
  { clear. intros m'.
    induction tpl as [|[s|r] tpl IH]; intros H; [by eexists| |done].
    destruct (IH H) as [r Hr]. simpl. rewrite Hr. by eexists. }
  by destruct (Hres (delete (name p) m) tpl Hph) as [r ->].
Qed.

End MapperFacts.

Module RoundTrip.
Import ET Mapper Schemas Classes DeclaredSchemas MapperExamples MapperFacts.

(** The parameters written out in [SecurityRule_params] are the ones
    [SecurityRule._setup] declares without version profile. *)
Lemma SecurityRule_params_declared : specs SecurityRule = SecurityRule_params.
Proof. vm_compute. reflexivity. Qed.

(** C1, as stated, fails on the classes as they are declared; none of
    the parameters below carries a version override.
    - A [SecurityRule] left at its defaults: [service] is declared with
      the string ["application-default"] as default and
      [vartype="member"]; it is built as one [<member>] and parsed back
      as a list of one string.
    - A [NatRule] with [source_translation_type] set: the path of that
      parameter names the parameter itself, so at parse time its
      placeholder has no value, the parameter is skipped and comes back
      unset (its default).
    - A [NatRule] given [source_translation_static_translated_address]
      while no source translation type is selected: the condition of the
      parameter does not hold, nothing is emitted for it and it comes
      back unset.
    - A [PolicyBasedForwarding] left at its defaults: [from_value]
      shares the element of [from_type], which [build] creates, and
      comes back as the empty list although it was unset. *)
Lemma roundtrip_fails_as_declared :
  let v := (10, 0, 0)%nat in
  let security := make_entity (specs SecurityRule) "r1" ∅ in
  let nat_static := make_entity (specs NatRule) "r1" nat_static_given in
  let nat_orphan := make_entity (specs NatRule) "r1" nat_orphan_given in
  let pbf := make_entity (specs PolicyBasedForwarding) "r1" ∅ in
  Forall (fun p => version_overrides p = [])
         (specs SecurityRule ++ specs NatRule ++ specs PolicyBasedForwarding)
  ∧ (settings security !! "service" = Some (VStr "application-default")
     ∧ ∃ t m, build (specs SecurityRule) security v = Done t
              ∧ parse (specs SecurityRule) t v = Done m
              ∧ m !! "service" = Some (VList ["application-default"])
              ∧ parse (specs SecurityRule) t v ≠ Done (settings security))
  ∧ (settings nat_static !! "source_translation_type"
     = Some (VStr "static-ip")
     ∧ ∃ t m, build (specs NatRule) nat_static v = Done t
              ∧ parse (specs NatRule) t v = Done m
              ∧ m !! "source_translation_type" = None
              ∧ parse (specs NatRule) t v ≠ Done (settings nat_static))
  ∧ (settings nat_orphan !! "source_translation_static_translated_address"
     = Some (VStr "192.0.2.1")
     ∧ ∃ t m, build (specs NatRule) nat_orphan v = Done t
              ∧ parse (specs NatRule) t v = Done m
              ∧ m !! "source_translation_static_translated_address" = None
              ∧ parse (specs NatRule) t v ≠ Done (settings nat_orphan))
  ∧ (settings pbf !! "from_value" = None
     ∧ ∃ t m, build (specs PolicyBasedForwarding) pbf v = Done t
              ∧ parse (specs PolicyBasedForwarding) t v = Done m
              ∧ m !! "from_value" = Some (VList [])
              ∧ parse (specs PolicyBasedForwarding) t v ≠ Done (settings pbf)).
Proof.
  intros v security nat_static nat_orphan pbf.
  split; [apply (bool_decide_unpack _); by vm_compute|].
  split; [|split; [|split]]; (split; [by vm_compute|]).
  - apply roundtrip_breaks; [by vm_compute|].
    intros H. by vm_compute in H.
  - apply roundtrip_breaks; [by vm_compute|].
    intros H. by vm_compute in H.
  - apply roundtrip_breaks; [by vm_compute|].
    intros H. by vm_compute in H.
  - apply roundtrip_breaks; [by vm_compute|].
    intros H. by vm_compute in H.
Qed.

(** C1 (amended): take a schema without version overrides whose
    parameter names are distinct and whose conditions and placeholders
    only name the parameter itself or parameters declared earlier, and
    an entity of it whose active parameters resolve to non-empty paths
    none of which is a prefix of another.  If [build] succeeds at a
    version, [parse] of the tree at the same version gives back exactly
    the entity's parameter values if and only if every parameter that
    [parse] skips (condition not met, placeholder without a value, among
    them a placeholder for the parameter itself, or excluded) holds its
    default and every other parameter of a member-list or entry-list
    kind holds a list, not a bare string. *)
Theorem parse_build_roundtrip sch n given v t :
  let e := make_entity sch n given in
  Forall (fun p => version_overrides p = []) sch →
  NoDup (name <$> sch) →
  declared_no_later v [] sch = true →
  independent (targets (settings e) v sch) = true →
  build sch e v = Done t →
  parse sch t v = Done (settings e)
  ↔ defaults_when_skipped (settings e) v sch = true
    ∧ lists_as_lists (settings e) v sch = true.
Proof.
  intros e _ Hnames Hrefs Hpaths Hbuild. subst e.
  by apply roundtrip_iff.
Qed.

Lemma parse_build_roundtrip_witness :
  (∃ t, build (specs SecurityRule)
              (make_entity (specs SecurityRule) "r1" security_given)
              (10, 0, 0)%nat = Done t
        ∧ parse (specs SecurityRule) t (10, 0, 0)%nat
          = Done (settings (make_entity (specs SecurityRule) "r1"
                                        security_given)))
  ∧ (∃ t, build (specs NatRule) (make_entity (specs NatRule) "n1" ∅)
                (10, 0, 0)%nat = Done t
          ∧ parse (specs NatRule) t (10, 0, 0)%nat
            = Done (settings (make_entity (specs NatRule) "n1" ∅))).
Proof.
  split.
  - destruct (build (specs SecurityRule)
                (make_entity (specs SecurityRule) "r1" security_given)
                (10, 0, 0)%nat) as [t|err] eqn:Hb; [|by vm_compute in Hb].
    exists t. split; [done|].
    apply (parse_build_roundtrip (specs SecurityRule) "r1" security_given
             (10, 0, 0)%nat t).
    + apply (bool_decide_unpack _). by vm_compute.
    + apply (bool_decide_unpack _). by vm_compute.
    + by vm_compute.
    + by vm_compute.
    + exact Hb.
    + split; by vm_compute.
  - destruct (build (specs NatRule) (make_entity (specs NatRule) "n1" ∅)
                (10, 0, 0)%nat) as [t|err] eqn:Hb; [|by vm_compute in Hb].
    exists t. split; [done|].
    apply (parse_build_roundtrip (specs NatRule) "n1" ∅ (10, 0, 0)%nat t).
    + apply (bool_decide_unpack _). by vm_compute.
    + apply (bool_decide_unpack _). by vm_compute.
    + by vm_compute.
    + by vm_compute.
    + exact Hb.
    + split; by vm_compute.
Defined.

(** The three classes as declared meet the two conditions on the schema
    alone: the names are distinct, and a condition or a placeholder
    names the parameter itself or one declared before it. *)
Lemma declared_schemas_well_formed c v :
  NoDup (name <$> specs c) ∧ declared_no_later v [] (specs c) = true.
Proof.
  split.
  - apply (bool_decide_unpack _). by destruct c; vm_compute.
  - by destruct c; vm_compute.
Qed.

(** For [SecurityRule] as declared, every rule that builds comes back
    from [parse] exactly when its list parameters hold lists: its
    parameters have no condition and no placeholder, and no two of them
    share a path. *)
Corollary security_rule_roundtrip n given v t :
  let e := make_entity (specs SecurityRule) n given in
  build (specs SecurityRule) e v = Done t →
  parse (specs SecurityRule) t v = Done (settings e)
  ↔ lists_as_lists (settings e) v (specs SecurityRule) = true.
Proof.
  intros e Hbuild. subst e.
  assert (Hfix : Forall (fun p => references v p = []
                                  ∧ is_Some (effective p v))
                        (specs SecurityRule)).
  { rewrite SecurityRule_params_declared. unfold SecurityRule_params.
    repeat (apply Forall_cons; split; [by split; [|eexists]|]).
    constructor. }
  destruct (declared_schemas_well_formed SecurityRule v) as [Hnames Hrefs].
  assert (Hpaths :
    independent (targets (settings (make_entity (specs SecurityRule) n given))
                         v (specs SecurityRule)) = true).
  { rewrite (targets_fixed _ ∅ v (specs SecurityRule)).
    - by vm_compute.
    - eapply Forall_impl; [exact Hfix|]. by intros p [? _]. }
  rewrite (roundtrip_iff _ _ _ _ _ Hnames Hrefs Hpaths Hbuild).
  rewrite (never_skipped _ v _ Hfix). split; [by intros [_ ?]|done].
Qed.

(** A parameter whose condition does not hold is lost, also when no
    placeholder names the parameter being resolved: [forward_vsys] of
    [forwarding_params] while [action] is left at [forward]. *)
Example roundtrip_loses_inactive_parameter :
  let e := make_entity forwarding_params "p1" forwarding_given in
  let t := Elem "entry" [("name", "p1")] None
             [Elem "action" [] (Some "forward") []] in
  settings e !! "forward_vsys" = Some (VStr "vsys2")
  ∧ build forwarding_params e (10, 0, 0)%nat = Done t
  ∧ parse forwarding_params t (10, 0, 0)%nat
    = Done (<["action" := VStr "forward"]> ∅).
Proof. intros e t. split; [by vm_compute|]. split; by vm_compute. Qed.

(** The same round trip through a condition and a placeholder, both
    satisfied. *)
Example forwarding_roundtrip :
  let given := <["action" := VStr "forward-to-vsys"]> forwarding_given in
  let e := make_entity forwarding_params "p1" given in
  build forwarding_params e (10, 0, 0)%nat
  = Done (Elem "entry" [("name", "p1")] None
            [Elem "action" [] (Some "forward-to-vsys") [];
             Elem "forward" [] None
               [Elem "forward-to-vsys" [] None
                  [Elem "vsys" [] (Some "vsys2") []]]])
  ∧ ∀ t, build forwarding_params e (10, 0, 0)%nat = Done t →
         parse forwarding_params t (10, 0, 0)%nat = Done (settings e).
Proof.
  intros given e. split; [by vm_compute|]. intros t Hb.
  assert (Hn : NoDup (name <$> forwarding_params)).
  { apply (bool_decide_unpack _). by vm_compute. }
  apply (roundtrip_iff forwarding_params "p1" given (10, 0, 0)%nat t
           Hn eq_refl eq_refl Hb).
  split; by vm_compute.
Qed.

End RoundTrip.

(* ===================================================================== *)
(** * More on [HitCount] *)
(* ===================================================================== *)

Module HitCountFacts.
Import Py ET OpState OpStateViews Examples OpStateExamples HitCountParsing.

Lemma setattr_other h p v q : q ≠ p → getattr (setattr h p v) q = getattr h q.
Proof. intros Hne. unfold getattr, setattr. simpl. by apply lookup_insert_ne. Qed.

Lemma setattr_same h p v : getattr (setattr h p v) p = Some v.
Proof. unfold getattr, setattr. simpl. apply lookup_insert_eq. Qed.

(** Where the loop stops: at the first integer row with rejected text.
    The rows before it are stored, the others are left as they were. *)
Lemma refresh_fields_raise fields : ∀ h elm h' e,
  NoDup fields.*1.*1 →
  refresh_fields fields h elm = (h', Raise e) →
  e = ValueError
  ∧ obj h' = obj h ∧ name h' = name h
  ∧ ∃ pre param path post s,
      fields = pre ++ (param, path, "int") :: post
      ∧ _str elm path = Some s ∧ Py.int s = None
      ∧ (∀ p0 path0 ty0, (p0, path0, ty0) ∈ pre →
           ∃ v, field_value elm path0 ty0 = Ok v ∧ getattr h' p0 = Some v)
      ∧ (∀ q, q ∉ pre.*1.*1 → getattr h' q = getattr h q).
Proof.
  induction fields as [|[[p1 path1] ty1] fields IH]; intros h elm h' e Hnd H.
  { done. }
  simpl in Hnd. apply NoDup_cons in Hnd as [Hfresh Hnd]. simpl in H.
  assert (Hcons : ∀ v,
            field_value elm path1 ty1 = Ok v →
            refresh_fields fields (setattr h p1 v) elm = (h', Raise e) →
            e = ValueError
            ∧ obj h' = obj h ∧ name h' = name h
            ∧ ∃ pre param path post s,
                (p1, path1, ty1) :: fields = pre ++ (param, path, "int") :: post
                ∧ _str elm path = Some s ∧ Py.int s = None
                ∧ (∀ p0 path0 ty0, (p0, path0, ty0) ∈ pre →
                     ∃ v, field_value elm path0 ty0 = Ok v
                          ∧ getattr h' p0 = Some v)
                ∧ (∀ q, q ∉ pre.*1.*1 → getattr h' q = getattr h q)).
  { intros v Hv Hr.
    destruct (IH _ _ _ _ Hnd Hr)
      as (-> & Ho & Hn & pre & param & path & post & s & -> & Hs & Hi & Hpre & Hrest).
    split; [done|]. split; [done|]. split; [done|].
    exists ((p1, path1, ty1) :: pre), param, path, post, s.
    split; [done|]. split; [done|]. split; [done|]. split.
    - intros p0 path0 ty0 [Heq|Hin]%elem_of_cons; [|by eapply Hpre].
      injection Heq as -> -> ->. exists v. split; [done|].
      rewrite Hrest; [apply setattr_same|].
      intros Hin. apply Hfresh. rewrite !fmap_app. apply elem_of_app. by left.
    - intros q Hq. simpl in Hq. apply not_elem_of_cons in Hq as [Hne Hq].
      rewrite Hrest by done. by apply setattr_other. }
  destruct (String.eqb_spec ty1 "int") as [->|Hty].
  - unfold _int in H. destruct (_str elm path1) as [s|] eqn:Es.
    + destruct (Py.int s) as [z|] eqn:Ez.
      * apply (Hcons (of_int (Some z))); [|done].
        unfold field_value, _int. simpl. by rewrite Es, Ez.
      * injection H as <- <-. split; [done|]. split; [done|]. split; [done|].
        exists [], p1, path1, fields, s. repeat split; try done.
        intros p0 path0 ty0 Hin. by apply elem_of_nil in Hin.
    + apply (Hcons (of_int None)); [|done].
      unfold field_value, _int. simpl. by rewrite Es.
  - apply (Hcons (of_str (_str elm path1))); [|done].
    unfold field_value. by apply String.eqb_neq in Hty as ->.
Qed.

Lemma refresh_fields_bad fields : ∀ h elm,
  bad_int fields elm → ∃ h', refresh_fields fields h elm = (h', Raise ValueError).
Proof.
  induction fields as [|[[p1 path1] ty1] fields IH];
    intros h elm (param & path & s & Hin & Hs & Hi).
  { by apply elem_of_nil in Hin. }
  simpl. apply elem_of_cons in Hin as [Heq|Hin].
  - injection Heq as <- <- <-. simpl. unfold _int. rewrite Hs, Hi. by eexists.
  - assert (Hb : bad_int fields elm) by (by exists param, path, s).
    destruct (String.eqb ty1 "int").
    + destruct (_int elm path1) as [v|e] eqn:Ev; [by apply IH|].
      unfold _int in Ev. destruct (_str elm path1) as [s1|]; [|done].
      destruct (Py.int s1); [done|]. injection Ev as <-. by eexists.
    + by apply IH.
Qed.

Lemma FIELDS_NoDup : NoDup FIELDS.*1.*1.
Proof. apply (bool_decide_unpack _). by vm_compute. Qed.

Lemma refresh_xml_raise_bad h elm h' e :
  _refresh_xml h elm = (h', Raise e) → e = ValueError ∧ bad_int FIELDS elm.
Proof.
  intros H.
  destruct (refresh_fields_raise _ _ _ _ _ FIELDS_NoDup H)
    as (-> & _ & _ & pre & param & path & post & s & Hf & Hs & Hi & _).
  split; [done|]. exists param, path, s. split; [|done].
  rewrite Hf. apply elem_of_app. right. by left.
Qed.

Lemma refresh_xml_good h elm :
  ¬ bad_int FIELDS elm → ∃ h', _refresh_xml h elm = (h', Ok ()).
Proof.
  intros Hgood. destruct (_refresh_xml h elm) as [h' [[]|e]] eqn:E; [by eexists|].
  by apply refresh_xml_raise_bad in E as [_ ?].
Qed.

(** X1: [_refresh_xml] raises exactly when some integer field of the
    element holds text that [int()] rejects, and what it raises then is
    [ValueError]. *)
Theorem refresh_xml_raises_iff h elm :
  (∀ e, (_refresh_xml h elm).2 = Raise e → e = ValueError)
  ∧ ((_refresh_xml h elm).2 = Raise ValueError ↔ bad_int FIELDS elm).
Proof.
  unfold _refresh_xml. split; [|split].
  - intros e H. destruct (refresh_fields FIELDS h elm) as [h' r] eqn:E.
    simpl in H. subst r.
    by destruct (refresh_fields_raise _ _ _ _ _ FIELDS_NoDup E) as [-> _].
  - intros H. destruct (refresh_fields FIELDS h elm) as [h' r] eqn:E.
    simpl in H. subst r.
    destruct (refresh_fields_raise _ _ _ _ _ FIELDS_NoDup E)
      as (_ & _ & _ & pre & param & path & post & s & Hf & Hs & Hi & _).
    exists param, path, s. split; [|done].
    rewrite Hf. apply elem_of_app. right. by left.
  - intros Hb. destruct (refresh_fields_bad FIELDS h elm Hb) as [h' ->]. done.
Qed.

(** X2: a refresh that raises has already stored the fields declared
    before the offending one (from the element) and leaves every other
    attribute, the offending field included, as it was; [obj] and [name]
    are kept. *)
Theorem refresh_xml_partial h elm h' e :
  _refresh_xml h elm = (h', Raise e) →
  obj h' = obj h ∧ name h' = name h
  ∧ ∃ pre param path post s,
      FIELDS = pre ++ (param, path, "int") :: post
      ∧ _str elm path = Some s ∧ Py.int s = None
      ∧ (∀ p0 path0 ty0, (p0, path0, ty0) ∈ pre →
           ∃ v, field_value elm path0 ty0 = Ok v ∧ getattr h' p0 = Some v)
      ∧ (∀ q, q ∉ pre.*1.*1 → getattr h' q = getattr h q).
Proof.
  intros H.
  by destruct (refresh_fields_raise _ _ _ _ _ FIELDS_NoDup H) as (_ & ? & ? & ?).
Qed.

Lemma refresh_xml_partial_witness :
  let h' := (_refresh_xml stale (Some entry_bad_count)).1 in
  (_refresh_xml stale (Some entry_bad_count)).2 = Raise ValueError
  ∧ getattr h' "latest" = Some (PyStr "yes")
  ∧ getattr h' "hit_count" = Some (PyInt 3)
  ∧ obj h' = obj stale ∧ name h' = name stale
  ∧ ∃ pre param path post s,
      FIELDS = pre ++ (param, path, "int") :: post
      ∧ _str (Some entry_bad_count) path = Some s ∧ Py.int s = None
      ∧ (∀ p0 path0 ty0, (p0, path0, ty0) ∈ pre →
           ∃ v, field_value (Some entry_bad_count) path0 ty0 = Ok v
                ∧ getattr h' p0 = Some v)
      ∧ (∀ q, q ∉ pre.*1.*1 → getattr h' q = getattr stale q).
Proof.
  intros h'. split; [by vm_compute|]. split; [by vm_compute|].
  split; [by vm_compute|].
  apply (refresh_xml_partial stale (Some entry_bad_count) h' ValueError).
  by vm_compute.
Defined.

(** X3: without an element nothing can raise: [HitCount(obj, name)]
    returns an object whose seven fields are all [None] and whose name
    is the uid of [obj] when there is one (the [name] argument
    otherwise), and [_refresh_xml(None)] resets the seven fields of any
    object. *)
Theorem refresh_xml_no_element h o n :
  (∃ h', _refresh_xml h None = (h', Ok ())
         ∧ obj h' = obj h ∧ name h' = name h
         ∧ ∀ param path ty, (param, path, ty) ∈ FIELDS →
                            getattr h' param = Some PyNone)
  ∧ (∃ h0, HitCount_init o n None = Ok h0
           ∧ obj h0 = o
           ∧ name h0 = match o with Some u => Some u | None => n end
           ∧ ∀ param path ty, (param, path, ty) ∈ FIELDS →
                              getattr h0 param = Some PyNone).
Proof.
  assert (Hgen : ∀ g, ∃ g', _refresh_xml g None = (g', Ok ())
                            ∧ obj g' = obj g ∧ name g' = name g
                            ∧ ∀ param path ty, (param, path, ty) ∈ FIELDS →
                                               getattr g' param = Some PyNone).
  { intros g.
    destruct (refresh_fields_succeeds FIELDS g None) as [g' Hg].
    { intros param path ty _. unfold field_value, _int. simpl.
      destruct (String.eqb ty "int"); by eexists. }
    exists g'. split; [exact Hg|].
    pose proof (refresh_fields_ok _ _ _ _ Hg) as (kvs & _ & _ & ->).
    split; [done|]. split; [done|]. intros param path ty Hin.
    destruct (refresh_fields_lookup _ _ _ _ _ _ _ FIELDS_NoDup Hg Hin)
      as (v & Hv & ->).
    unfold field_value, _int in Hv. simpl in Hv.
    destruct (String.eqb ty "int"); by injection Hv as <-. }
  split; [apply Hgen|]. unfold HitCount_init.
  destruct (Hgen (mk_HitCount o (match o with None => n | Some u => Some u end) ∅))
    as (h0 & -> & Ho & Hn & Hf).
  exists h0. split; [done|]. split; [done|]. split; [|done].
  rewrite Hn. simpl. by destruct o.
Qed.

End HitCountFacts.

(* ===================================================================== *)
(** * More on [RulebaseHitCount.refresh] *)
(* ===================================================================== *)

Module RefreshFacts.
Import Py ET OpState OpStateViews Examples OpStateExamples.
Import HitCountParsing HitCountResponse HitCountFacts.

(** The names the entries of a response carry. *)
Lemma find_kid_elem children kids n i x :
  find_kid children kids n = Some (i, x) → i ∈ kids.
Proof.
  induction kids as [|k kids IH]; [done|]. simpl.
  destruct (children !! k) as [y|]; [|by right; auto].
  destruct (String.eqb (uid y) n); [|by right; auto].
  intros [= <- <-]. by left.
Qed.

Lemma refresh_fields_keeps fields : ∀ h elm h' r,
  refresh_fields fields h elm = (h', r) →
  obj h' = obj h ∧ name h' = name h
  ∧ match r with Ok _ => True | Raise e => e = ValueError end.
Proof.
  induction fields as [|[[param path] ty] fields IH]; intros h elm h' r H.
  { simpl in H. by injection H as <- <-. }
  simpl in H. destruct (String.eqb ty "int").
  - unfold _int in H. destruct (_str elm path) as [s|].
    + destruct (Py.int s); [by apply IH in H|]. by injection H as <- <-.
    + by apply IH in H.
  - by apply IH in H.
Qed.

(** The loop over the response only replaces hit counts, and only the
    hit count of a kid whose uid an entry carries. *)
Lemma collect_frame kids entries : ∀ children ans children' r,
  collect kids entries children ans = (children', r) →
  ∀ i x, children !! i = Some x →
    ∃ h, children' !! i = Some (mk_Rule (uid x) (HIT_COUNT_STYLE x) h)
         ∧ (i ∉ kids ∨ Some (uid x) ∉ entry_names entries
            → h = hit_count x).
Proof.
  induction entries as [|e entries IH]; intros children ans children' r H i x Hi.
  { simpl in H. injection H as <- <-. exists (hit_count x).
    split; [by destruct x|done]. }
  simpl in H.
  assert (Hsame : ∃ h, children !! i
                       = Some (mk_Rule (uid x) (HIT_COUNT_STYLE x) h)
                       ∧ h = hit_count x).
  { exists (hit_count x). split; [by destruct x|done]. }
  destruct (get (attrib e) "name") as [m|] eqn:Em.
  2:{ injection H as <- <-. destruct Hsame as (h & Hh & ->). eauto. }
  destruct (find_kid children kids m) as [[j y]|] eqn:Ek.
  - pose proof (find_kid_Some _ _ _ _ _ Ek) as [Hj Hu].
    pose proof (find_kid_elem _ _ _ _ _ Ek) as Hjk.
    destruct (HitCount_refresh (hit_count y) e) as [h1 r1] eqn:Er.
    set (children1 := <[j := mk_Rule (uid y) (HIT_COUNT_STYLE y) h1]> children)
      in *.
    assert (Hstep : ∃ h, children1 !! i
                         = Some (mk_Rule (uid x) (HIT_COUNT_STYLE x) h)
                         ∧ (i ≠ j → h = hit_count x)).
    { unfold children1. destruct (decide (i = j)) as [->|Hne].
      - rewrite list_lookup_insert_eq by (by eapply lookup_lt_Some).
        assert (y = x) as -> by congruence.
        exists h1. split; [done|]. by intros [].
      - rewrite list_lookup_insert_ne by done.
        destruct Hsame as (h & Hh & ->). eauto. }
    destruct Hstep as (h & Hh & Hkeep).
    assert (Hout : i ∉ kids ∨ Some (uid x) ∉ entry_names (e :: entries)
                   → i ≠ j).
    { intros [Hn|Hn] ->; [done|]. apply Hn. unfold entry_names.
      rewrite fmap_cons, Em.
      assert (y = x) as -> by congruence. rewrite Hu. by left. }
    destruct r1 as [[]|err].
    + destruct (IH _ _ _ _ H i _ Hh) as (h' & Hh' & Hkeep').
      exists h'. split; [done|]. intros Hc. simpl in Hkeep'.
      rewrite Hkeep'; [by apply Hkeep, Hout|].
      destruct Hc as [Hc|Hc]; [by left|]. right.
      unfold entry_names in Hc. rewrite fmap_cons in Hc.
      by apply not_elem_of_cons in Hc as [_ ?].
    + injection H as <- <-. exists h. split; [done|].
      intros Hc. by apply Hkeep, Hout.
  - destruct (HitCount_init None (Some m) (Some e)) as [h0|err].
    + destruct (IH _ _ _ _ H i x Hi) as (h' & Hh' & Hkeep').
      exists h'. split; [done|]. intros Hc. apply Hkeep'.
      destruct Hc as [Hc|Hc]; [by left|]. right.
      unfold entry_names in Hc. rewrite fmap_cons in Hc.
      by apply not_elem_of_cons in Hc as [_ ?].
    + injection H as <- <-. destruct Hsame as (h & Hh & ->). eauto.
Qed.

Lemma collect_length kids entries : ∀ children ans children' r,
  collect kids entries children ans = (children', r) →
  length children' = length children.
Proof.
  induction entries as [|e entries IH]; intros children ans children' r H.
  { simpl in H. by injection H as <- <-. }
  simpl in H. destruct (get (attrib e) "name") as [m|]; [|by injection H as <- <-].
  destruct (find_kid children kids m) as [[j y]|].
  - destruct (HitCount_refresh (hit_count y) e) as [h1 [[]|err]].
    + apply IH in H. by rewrite H, length_insert.
    + injection H as <- <-. by rewrite length_insert.
  - destruct (HitCount_init None (Some m) (Some e)) as [h0|err];
      [by apply IH in H|by injection H as <- <-].
Qed.

(** Where the kids are: a position is kept exactly when its child has
    the requested style and passes the [rules] filter. *)
Lemma select_kids_elem children : ∀ k style rules i,
  i ∈ select_kids k children style rules →
  ∃ x, (k ≤ i)%nat ∧ children !! (i - k)%nat = Some x
       ∧ HIT_COUNT_STYLE x = Some style
       ∧ match rules with
         | None => True
         | Some l => uid_in (uid x) l = true
         end.
Proof.
  induction children as [|y children IH]; intros k style rules i Hi.
  { by apply elem_of_nil in Hi. }
  assert (Hrest : i ∈ select_kids (S k) children style rules →
                  ∃ x, (k ≤ i)%nat ∧ (y :: children) !! (i - k)%nat = Some x
                       ∧ HIT_COUNT_STYLE x = Some style
                       ∧ match rules with
                         | None => True
                         | Some l => uid_in (uid x) l = true
                         end).
  { intros Hr. destruct (IH _ _ _ _ Hr) as (x & Hk & Hx & Hs & Hl).
    exists x. split; [lia|]. split; [|done].
    replace (i - k)%nat with (S (i - S k)) by lia. done. }
  simpl in Hi. destruct (HIT_COUNT_STYLE y) as [s|] eqn:Es; [|by apply Hrest].
  destruct (String.eqb_spec s style) as [->|]; simpl in Hi; [|by apply Hrest].
  assert (Hhead : match rules with
                  | None => True
                  | Some l => uid_in (uid y) l = true
                  end →
                  i ∈ k :: select_kids (S k) children style rules →
                  ∃ x, (k ≤ i)%nat ∧ (y :: children) !! (i - k)%nat = Some x
                       ∧ HIT_COUNT_STYLE x = Some style
                       ∧ match rules with
                         | None => True
                         | Some l => uid_in (uid x) l = true
                         end).
  { intros Hl [->|Hr]%elem_of_cons; [|by apply Hrest].
    exists y. rewrite Nat.sub_diag. done. }
  destruct rules as [l|]; [|by apply Hhead].
  destruct (uid_in (uid y) l) eqn:El; [by apply Hhead|by apply Hrest].
Qed.

Lemma collect_keys kids entries : ∀ children ans children' ans' n,
  collect kids entries children ans = (children', Ok ans') →
  is_Some (ans' !! n) ↔ is_Some (ans !! n) ∨ Some n ∈ entry_names entries.
Proof.
  induction entries as [|e entries IH]; intros children ans children' ans' n H.
  { simpl in H. injection H as <- <-. split; [by left|].
    intros [?|Hin]; [done|]. by apply elem_of_nil in Hin. }
  simpl in H. unfold entry_names. rewrite fmap_cons.
  destruct (get (attrib e) "name") as [m|] eqn:Em; [|done].
  assert (Hins : ∀ r : hit_ref,
            is_Some (<[m := r]> ans !! n) ∨ Some n ∈ entry_names entries
            ↔ is_Some (ans !! n) ∨ Some n ∈ Some m :: entry_names entries).
  { intros r. rewrite elem_of_cons. destruct (decide (m = n)) as [->|Hne].
    - rewrite lookup_insert_eq. split.
      + intros _. right. by left.
      + intros _. left. by eexists.
    - rewrite lookup_insert_ne by done. split.
      + intros [?|?]; auto.
      + intros [?|[[=]|?]]; auto. congruence. }
  destruct (find_kid children kids m) as [[j y]|].
  - destruct (HitCount_refresh (hit_count y) e) as [h1 [[]|err]]; [|done].
    rewrite (IH _ _ _ _ n H). apply Hins.
  - destruct (HitCount_init None (Some m) (Some e)) as [h0|err]; [|done].
    rewrite (IH _ _ _ _ n H). apply Hins.
Qed.

Lemma collect_raise kids entries : ∀ children ans children' e,
  collect kids entries children ans = (children', Raise e) →
  (e = KeyError "name" ∧ None ∈ entry_names entries)
  ∨ (e = ValueError ∧ ∃ elm, elm ∈ entries ∧ bad_int FIELDS (Some elm)).
Proof.
  induction entries as [|e0 entries IH]; intros children ans children' e H.
  { done. }
  assert (Hlater : ∀ c a, collect kids entries c a = (children', Raise e) →
            (e = KeyError "name" ∧ None ∈ entry_names (e0 :: entries))
            ∨ (e = ValueError
               ∧ ∃ elm, elm ∈ e0 :: entries ∧ bad_int FIELDS (Some elm))).
  { intros c a Hc. destruct (IH _ _ _ _ Hc) as [[-> Hn]|[-> (elm & Hin & Hb)]].
    - left. split; [done|]. unfold entry_names. rewrite fmap_cons. by right.
    - right. split; [done|]. exists elm. split; [by right|done]. }
  simpl in H. destruct (get (attrib e0) "name") as [m|] eqn:Em.
  2:{ injection H as <- <-. left. split; [done|].
      unfold entry_names. rewrite fmap_cons, Em. by left. }
  destruct (find_kid children kids m) as [[j y]|].
  - unfold HitCount_refresh in H.
    destruct (_refresh_xml (hit_count y) (Some e0)) as [h1 [[]|err]] eqn:Er.
    + by eapply Hlater.
    + injection H as <- <-. apply refresh_xml_raise_bad in Er as [-> Hb].
      right. split; [done|]. exists e0. split; [by left|done].
  - unfold HitCount_init in H.
    destruct (_refresh_xml _ (Some e0)) as [h1 [[]|err]] eqn:Er.
    + by eapply Hlater.
    + injection H as <- <-. apply refresh_xml_raise_bad in Er as [-> Hb].
      right. split; [done|]. exists e0. split; [by left|done].
Qed.

Lemma collect_ok kids entries : ∀ children ans,
  None ∉ entry_names entries →
  (∀ elm, elm ∈ entries → ¬ bad_int FIELDS (Some elm)) →
  ∃ children' ans', collect kids entries children ans = (children', Ok ans').
Proof.
  induction entries as [|e0 entries IH]; intros children ans Hn Hg.
  { by eexists _, _. }
  unfold entry_names in Hn. rewrite fmap_cons in Hn.
  apply not_elem_of_cons in Hn as [Hn0 Hn].
  assert (Hg' : ∀ elm, elm ∈ entries → ¬ bad_int FIELDS (Some elm)).
  { intros elm Hin. apply Hg. by right. }
  assert (Hg0 : ¬ bad_int FIELDS (Some e0)) by (apply Hg; by left).
  simpl. destruct (get (attrib e0) "name") as [m|]; [|done].
  destruct (find_kid children kids m) as [[j y]|].
  - unfold HitCount_refresh.
    destruct (refresh_xml_good (hit_count y) (Some e0) Hg0) as [h1 ->].
    by apply IH.
  - unfold HitCount_init.
    destruct (refresh_xml_good (mk_HitCount None (Some m) ∅) (Some e0) Hg0)
      as [h1 ->].
    by apply IH.
Qed.

Lemma kid_rules_attached style children : ∀ pre,
  kid_rules (pre ++ children) (select_kids (length pre) children style None)
  = attached children style.
Proof.
  unfold kid_rules, attached.
  induction children as [|x children IH]; intros pre; [done|].
  specialize (IH (pre ++ [x])).
  rewrite length_app, Nat.add_1_r, <- app_assoc in IH.
  change ([x] ++ children) with (x :: children) in IH.
  cbn [select_kids]. destruct (HIT_COUNT_STYLE x) as [s|] eqn:Es.
  - destruct (String.eqb_spec s style) as [->|Hne]; cbn [negb].
    + cbn [omap list_omap]. rewrite list_lookup_middle by done. rewrite IH.
      by rewrite filter_cons_True.
    + rewrite IH. rewrite filter_cons_False; [done|]. congruence.
  - rewrite IH. rewrite filter_cons_False; [done|]. congruence.
Qed.

Lemma uid_in_ByName u l : uid_in u l = true → ByName u ∈ l.
Proof.
  unfold uid_in. intros H. apply existsb_exists in H as (a & Hin & Ha).
  apply list_elem_of_In in Hin. destruct a as [s|r]; [|done].
  by apply String.eqb_eq in Ha as ->.
Qed.

Lemma same_child (P : Prop) (children : list Rule) i x :
  children !! i = Some x →
  ∃ h, children !! i = Some (mk_Rule (uid x) (HIT_COUNT_STYLE x) h)
       ∧ (P → h = hit_count x).
Proof. intros H. exists (hit_count x). by destruct x. Qed.

Lemma refresh_length dev children style rules all_rules :
  length (children_after (refresh dev children style rules all_rules))
  = length children.
Proof.
  unfold refresh. destruct (version_ltb _ _); [done|].
  destruct (if all_rules then _ else _) as [b|]; [|done].
  destruct (op dev (hit_count_cmd _ _ _)) as [res|e]; [|done].
  destruct (collect _ (findall res response_path) children ∅)
    as [children' r] eqn:Ec.
  by eapply collect_length.
Qed.

(** What [refresh] leaves of a child: its uid and style always, and its
    hit count unless it is a kid whose uid a returned entry carries. *)
Lemma refresh_kept dev children style rules all_rules i x :
  let o := refresh dev children style rules all_rules in
  children !! i = Some x →
  length (children_after o) = length children
  ∧ ∃ h, children_after o !! i
         = Some (mk_Rule (uid x) (HIT_COUNT_STYLE x) h)
         ∧ (i ∉ select_kids 0 children style rules
            ∨ (∀ cmd res, issued o = [cmd] → op dev cmd = Ok res →
                 Some (uid x) ∉ entry_names (findall res response_path))
            → h = hit_count x).
Proof.
  intros o Hi. subst o. unfold refresh.
  destruct (version_ltb _ _); [by split; [|apply same_child]|].
  set (kids := select_kids 0 children style rules).
  destruct (if all_rules then _ else _) as [b|];
    [|by split; [|apply same_child]].
  destruct (op dev (hit_count_cmd _ _ _)) as [res|e] eqn:Eop;
    [|by split; [|apply same_child]].
  destruct (collect kids (findall res response_path) children ∅)
    as [children' r] eqn:Ec.
  cbn [issued children_after].
  split; [by eapply collect_length|].
  destruct (collect_frame _ _ _ _ _ _ Ec i x Hi) as (h & Hh & Hkeep).
  exists h. split; [done|]. intros [Hk|Hr]; apply Hkeep; [by left|right].
  by apply (Hr _ res eq_refl).
Qed.

(** X4: [refresh] never adds, removes, reorders or renames children, and
    it leaves the hit count of a child as it was when the child has
    another style, when [rules] is given and holds no string equal to
    its uid, or when no returned entry carries its uid. *)
Theorem refresh_frame dev children style rules all_rules i x :
  let o := refresh dev children style rules all_rules in
  children !! i = Some x →
  length (children_after o) = length children
  ∧ ∃ h, children_after o !! i
         = Some (mk_Rule (uid x) (HIT_COUNT_STYLE x) h)
         ∧ (HIT_COUNT_STYLE x ≠ Some style
            ∨ (∃ l, rules = Some l ∧ uid_in (uid x) l = false)
            ∨ (∀ cmd res, issued o = [cmd] → op dev cmd = Ok res →
                 Some (uid x) ∉ entry_names (findall res response_path))
            → h = hit_count x).
Proof.
  intros o Hi.
  destruct (refresh_kept dev children style rules all_rules i x Hi)
    as (Hlen & h & Hh & Hkeep).
  split; [done|]. exists h. split; [done|].
  intros Hc. apply Hkeep.
  destruct Hc as [Hs|[(l & -> & Hu)|Hr]]; [left|left|by right].
  - intros Hin. apply select_kids_elem in Hin as (x' & _ & Hx' & Hs' & _).
    rewrite Nat.sub_0_r in Hx'. congruence.
  - intros Hin. apply select_kids_elem in Hin as (x' & _ & Hx' & _ & Hl).
    rewrite Nat.sub_0_r in Hx'. congruence.
Qed.

Lemma refresh_frame_witness :
  let o := refresh (device (10, 0, 0)%nat None response_r1_r9) mixed_children
                   "security" None false in
  length (children_after o) = 3%nat
  ∧ ∃ h, children_after o !! 1%nat = Some (mk_Rule "r9" (Some "nat") h)
         ∧ (Some "nat" ≠ Some "security"
            ∨ (∃ l, None = Some l ∧ uid_in "r9" l = false)
            ∨ (∀ cmd res,
                 issued o = [cmd] →
                 op (device (10, 0, 0)%nat None response_r1_r9) cmd = Ok res →
                 Some "r9" ∉ entry_names (findall res response_path))
            → h = blank "r9").
Proof.
  intros o.
  exact (refresh_frame (device (10, 0, 0)%nat None response_r1_r9)
           mixed_children "security" None false 1 (nat_rule "r9") eq_refl).
Defined.

(** X5: when [rules] is given, only a child that a string of the list
    names is a kid.  If no string of [rules] is the uid of a child of the
    requested style (so, in particular, if [rules] holds rule objects
    only), the call changes no child, whatever the device answers. *)
Theorem refresh_only_named dev children style l all_rules :
  (∀ s, ByName s ∈ l → s ∉ uid <$> attached children style) →
  children_after (refresh dev children style (Some l) all_rules) = children.
Proof.
  intros Hnone. apply list_eq. intros i.
  destruct (children !! i) as [x|] eqn:Hi.
  - destruct (refresh_kept dev children style (Some l) all_rules i x Hi)
      as (_ & h & Hh & Hkeep).
    rewrite Hh, Hkeep; [by destruct x|]. left.
    intros Hin. apply select_kids_elem in Hin as (x' & _ & Hx' & Hs & Hl).
    rewrite Nat.sub_0_r in Hx'. assert (x' = x) as -> by congruence.
    apply uid_in_ByName in Hl. apply (Hnone _ Hl).
    apply list_elem_of_fmap. exists x. split; [done|].
    apply list_elem_of_filter. split; [done|]. by eapply list_elem_of_lookup_2.
  - apply lookup_ge_None. apply lookup_ge_None in Hi.
    by rewrite refresh_length.
Qed.

Lemma refresh_only_named_witness :
  children_after
    (refresh (device (10, 0, 0)%nat None response_r1_r9) mixed_children
             "security" (Some [ByRule (security_rule "r1"); ByName "r9"])
             false)
  = mixed_children.
Proof.
  apply refresh_only_named. intros s Hin. set_unfold in Hin.
  destruct Hin as [Hin|[Hin|[]]]; [done|]. injection Hin as ->.
  apply (bool_decide_unpack _). by vm_compute.
Defined.

(** X6: with [rules] omitted and [all_rules] false, on PAN-OS 8.1 or
    later, a rulebase that has children of the requested style sends one
    command whose [<list>] holds one [<member>] per such child, in the
    order of [children], with the uid of the child as text. *)
Theorem refresh_attached_rules dev children style :
  version_ltb (retrieve_panos_version dev) (8, 1, 0)%nat = false →
  attached children style ≠ [] →
  issued (refresh dev children style None false)
  = [hit_count_cmd (vsys_or_default dev) style
       [Elem "list" [] None (member ∘ uid <$> attached children style)]].
Proof.
  intros Hv Hne. unfold refresh. rewrite Hv.
  pose proof (kid_rules_attached style children []) as Hk. simpl in Hk.
  rewrite Hk. cbn [default or_list].
  destruct (attached children style) as [|x mine] eqn:Ea; [done|].
  cbn [fmap list_fmap or_list].
  assert (Hm : ∀ l : list Rule,
            (member ∘ member_text) <$> (ByRule <$> l) = (member ∘ uid) <$> l).
  { intros l. rewrite <- list_fmap_compose. done. }
  specialize (Hm mine). cbn [fmap] in Hm. rewrite Hm.
  by destruct (op dev _) as [res|e]; [destruct (collect _ _ _ _)|].
Qed.

Lemma refresh_attached_rules_witness :
  issued (refresh (device (10, 0, 0)%nat None response_r1_r9) mixed_children
                  "security" None false)
  = [hit_count_cmd "vsys1" "security"
       [Elem "list" [] None [member "r1"; member "r2"]]].
Proof.
  apply (refresh_attached_rules (device (10, 0, 0)%nat None response_r1_r9)
           mixed_children "security"); [reflexivity|].
  by vm_compute.
Defined.

(** X7: the dict a call returns has a key for exactly the names the
    entries of the response carry; a call that sends nothing returns the
    empty dict. *)
Theorem refresh_keys dev children style rules all_rules ans n :
  let o := refresh dev children style rules all_rules in
  returned o = Ok ans →
  is_Some (ans !! n)
  ↔ ∃ cmd res, issued o = [cmd] ∧ op dev cmd = Ok res
               ∧ Some n ∈ entry_names (findall res response_path).
Proof.
  intros o Hret. subst o. unfold refresh in *.
  destruct (version_ltb _ _); [done|].
  destruct (if all_rules then _ else _) as [b|].
  2:{ simpl in *. injection Hret as <-. rewrite lookup_empty. split.
      - by intros [? ?].
      - by intros (cmd & res & ? & _). }
  destruct (op dev (hit_count_cmd _ _ _)) as [res|e] eqn:Eop; [|done].
  destruct (collect _ (findall res response_path) children ∅)
    as [children' r] eqn:Ec.
  simpl in *. subst r.
  rewrite (collect_keys _ _ _ _ _ _ n Ec), lookup_empty. split.
  - intros [[? ?]|Hin]; [done|]. by eexists _, res.
  - intros (cmd & res' & [= <-] & Hop & Hin). right.
    rewrite Eop in Hop. by injection Hop as ->.
Qed.

Lemma refresh_keys_witness :
  let o := refresh (device (10, 0, 0)%nat None response_r1_r9) mixed_children
                   "security" None false in
  ∃ ans, returned o = Ok ans
         ∧ is_Some (ans !! "r9") ∧ ¬ is_Some (ans !! "r2").
Proof.
  intros o. destruct (returned o) as [ans|e] eqn:Hret; [|by vm_compute in Hret].
  exists ans. split; [done|]. split.
  - apply (refresh_keys _ _ _ _ _ ans "r9" Hret).
    eexists _, response_r1_r9. split; [reflexivity|]. split; [reflexivity|].
    apply (bool_decide_unpack _). by vm_compute.
  - intros Hk. apply (refresh_keys _ _ _ _ _ ans "r2" Hret) in Hk
      as (cmd & res & _ & Hop & Hin).
    injection Hop as <-. revert Hin. apply (bool_decide_unpack _).
    by vm_compute.
Defined.

(** X8: the exceptions of [refresh].  A call that raises has met one of
    four things: a device below PAN-OS 8.1 ([PanDeviceError], nothing
    sent); an exception of the transport, passed on with no child
    changed; a returned entry without a [name] attribute
    ([KeyError]); a returned entry with an integer field that [int()]
    rejects ([ValueError]). *)
Theorem refresh_failures dev children style rules all_rules e :
  let o := refresh dev children style rules all_rules in
  returned o = Raise e →
  (version_ltb (retrieve_panos_version dev) (8, 1, 0)%nat = true
   ∧ e = PanDeviceError "Rule hit count is supported in PAN-OS 8.1+"
   ∧ issued o = [] ∧ children_after o = children)
  ∨ ∃ cmd, issued o = [cmd]
      ∧ ((op dev cmd = Raise e ∧ children_after o = children)
         ∨ ∃ res, op dev cmd = Ok res
             ∧ ((e = KeyError "name"
                 ∧ None ∈ entry_names (findall res response_path))
                ∨ (e = ValueError
                   ∧ ∃ elm, elm ∈ findall res response_path
                            ∧ bad_int FIELDS (Some elm)))).
Proof.
  intros o Hret. subst o. unfold refresh in *.
  destruct (version_ltb _ _).
  { simpl in *. injection Hret as <-. by left. }
  destruct (if all_rules then _ else _) as [b|]; [|done].
  right. eexists. split.
  { by destruct (op dev _) as [res|e']; [destruct (collect _ _ _ _)|]. }
  destruct (op dev (hit_count_cmd _ _ _)) as [res|e'] eqn:Eop.
  - right. exists res. split; [done|].
    destruct (collect _ (findall res response_path) children ∅)
      as [children' r] eqn:Ec.
    simpl in Hret. subst r. by eapply collect_raise.
  - left. simpl in *. by injection Hret as <-.
Qed.

Lemma refresh_failures_witness :
  let dev := unreachable (10, 0, 0)%nat in
  let o := refresh dev mixed_children "security" None true in
  ∃ cmd, issued o = [cmd] ∧ op dev cmd = Raise (External "URLError")
         ∧ children_after o = mixed_children.
Proof.
  intros dev o.
  destruct (refresh_failures dev mixed_children "security" None true
              (External "URLError") eq_refl)
    as [(Hv & _)|(cmd & Hcmd & [[Hop Hch]|(res & Hop & _)])].
  - by vm_compute in Hv.
  - by exists cmd.
  - by vm_compute in Hop.
Defined.

(** X9: on PAN-OS 8.1 or later, a call returns a dict whenever the
    device answers the command with a response all of whose entries have
    a [name] attribute and hold integer text in the integer fields they
    carry. *)
Theorem refresh_succeeds dev children style rules all_rules :
  version_ltb (retrieve_panos_version dev) (8, 1, 0)%nat = false →
  (∀ cmd, ∃ res,
     op dev cmd = Ok res
     ∧ (None ∉ entry_names (findall res response_path))
     ∧ ∀ elm, elm ∈ findall res response_path → ¬ bad_int FIELDS (Some elm)) →
  ∃ ans, returned (refresh dev children style rules all_rules) = Ok ans.
Proof.
  intros Hv Hop. unfold refresh. rewrite Hv.
  destruct (if all_rules then _ else _) as [b|]; [|by eexists].
  destruct (Hop (hit_count_cmd (vsys_or_default dev) style b))
    as (res & -> & Hn & Hg).
  destruct (collect_ok (select_kids 0 children style rules)
              (findall res response_path) children ∅ Hn Hg)
    as (children' & ans & ->).
  by exists ans.
Qed.

Lemma refresh_succeeds_witness :
  ∃ ans, returned (refresh (device (10, 0, 0)%nat None response_r1_r9)
                           mixed_children "security" None true) = Ok ans.
Proof.
  apply refresh_succeeds; [reflexivity|].
  intros cmd. exists response_r1_r9. split; [reflexivity|]. split.
  - apply (bool_decide_unpack _). by vm_compute.
  - intros elm Hin (param & path & s & Hf & Hs & Hi).
    assert (He : findall response_r1_r9 response_path
                 = [entry_r1;
                    Elem "entry" [("name", "r9")] None
                      [Elem "latest" [] (Some "yes") [];
                       Elem "hit-count" [] (Some "7") []]])
      by (by vm_compute).
    rewrite He in Hin. unfold FIELDS in Hf. set_unfold in Hin. set_unfold in Hf.
    destruct_or!; simplify_eq; vm_compute in Hs; simplify_eq;
      by vm_compute in Hi.
Defined.

(** ** Refreshing twice *)

Lemma collect_same_rules kids entries children ans children' r :
  collect kids entries children ans = (children', r) →
  same_rules children' children.
Proof.
  intros Hc. apply Forall2_same_length_lookup. split.
  - by eapply collect_length.
  - intros i x' x Hx' Hx.
    destruct (collect_frame _ _ _ _ _ _ Hc i x Hx) as (h & Hh & _).
    rewrite Hh in Hx'. by injection Hx' as <-.
Qed.

Lemma select_kids_same style rules : ∀ c1 c0 k,
  same_rules c1 c0 →
  select_kids k c1 style rules = select_kids k c0 style rules.
Proof.
  intros c1 c0 k H. revert k.
  induction H as [|a b c1 c0 [Hu Hs] _ IH]; intros k; [done|].
  cbn [select_kids]. by rewrite Hu, Hs, IH.
Qed.

Lemma find_kid_same c1 c0 kids n :
  same_rules c1 c0 →
  fst <$> find_kid c1 kids n = fst <$> find_kid c0 kids n.
Proof.
  intros H. induction kids as [|k kids IH]; [done|]. cbn [find_kid].
  destruct (c1 !! k) as [a|] eqn:Ea.
  - destruct (Forall2_lookup_l _ _ _ _ _ H Ea) as (b & -> & Hu & _).
    rewrite Hu. by destruct (String.eqb (uid b) n).
  - apply (Forall2_length _ _ _) in H as Hlen.
    apply lookup_ge_None in Ea. rewrite Hlen in Ea.
    apply lookup_ge_None in Ea. by rewrite Ea.
Qed.

Lemma kid_rules_same c1 c0 kids :
  same_rules c1 c0 →
  uid <$> kid_rules c1 kids = uid <$> kid_rules c0 kids.
Proof.
  intros H. unfold kid_rules. induction kids as [|k kids IH]; [done|].
  cbn [omap list_omap].
  destruct (c1 !! k) as [a|] eqn:Ea.
  - destruct (Forall2_lookup_l _ _ _ _ _ H Ea) as (b & -> & Hu & _).
    rewrite !fmap_cons. by rewrite Hu, IH.
  - apply (Forall2_length _ _ _) in H as Hlen.
    apply lookup_ge_None in Ea. rewrite Hlen in Ea.
    apply lookup_ge_None in Ea. by rewrite Ea.
Qed.

(** A child is touched only when it is the first kid of its uid. *)
Lemma collect_untouched kids entries : ∀ children ans children' r i x,
  collect kids entries children ans = (children', r) →
  children !! i = Some x →
  fst <$> find_kid children kids (uid x) ≠ Some i →
  children' !! i = Some x.
Proof.
  induction entries as [|e entries IH];
    intros children ans children' r i x H Hi Hfirst.
  { simpl in H. by injection H as <- <-. }
  simpl in H. destruct (get (attrib e) "name") as [m|];
    [|by injection H as <- <-].
  destruct (find_kid children kids m) as [[j y]|] eqn:Ek.
  - pose proof (find_kid_Some _ _ _ _ _ Ek) as [Hj Hu].
    destruct (HitCount_refresh (hit_count y) e) as [h1 r1].
    assert (Hne : i ≠ j).
    { intros ->. assert (y = x) as -> by congruence.
      apply Hfirst. by rewrite Hu, Ek. }
    assert (Hi1 : <[j := mk_Rule (uid y) (HIT_COUNT_STYLE y) h1]> children !! i
                  = Some x) by (by rewrite list_lookup_insert_ne).
    destruct r1 as [[]|err]; [|by injection H as <- <-].
    apply (IH _ _ _ _ i x H Hi1).
    rewrite (find_kid_insert children kids (uid x) j y
               (mk_Rule (uid y) (HIT_COUNT_STYLE y) h1) Hj eq_refl).
    destruct (find_kid children kids (uid x)) as [[j' y']|]; [|done].
    simpl in *. by destruct (decide (j' = j)) as [->|].
  - destruct (HitCount_init None (Some m) (Some e)) as [h0|err];
      [|by injection H as <- <-].
    by apply (IH _ _ _ _ i x H Hi).
Qed.

Lemma collect_ok_inv kids entries : ∀ children ans children' ans',
  collect kids entries children ans = (children', Ok ans') →
  (None ∉ entry_names entries)
  ∧ ∀ elm, elm ∈ entries → ¬ bad_int FIELDS (Some elm).
Proof.
  induction entries as [|e entries IH]; intros children ans children' ans' H.
  { split; [by intros ?%elem_of_nil|]. by intros elm ?%elem_of_nil. }
  simpl in H. unfold entry_names. rewrite fmap_cons.
  destruct (get (attrib e) "name") as [m|]; [|done].
  assert (Hstep : ∀ c a h, collect kids entries c a = (children', Ok ans') →
                    (∃ h', _refresh_xml h (Some e) = (h', Ok ())) →
                    Some m ≠ None
                    ∧ (None ∉ entry_names entries)
                    ∧ ∀ elm, elm ∈ e :: entries → ¬ bad_int FIELDS (Some elm)).
  { intros c a h Hc [h' Hr]. destruct (IH _ _ _ _ Hc) as [Hn Hg].
    split; [done|]. split; [done|].
    intros elm [->|Hin]%elem_of_cons; [|by apply Hg].
    intros Hb. destruct (refresh_fields_bad FIELDS h (Some e) Hb) as [h'' Hbad].
    unfold _refresh_xml in Hr. congruence. }
  assert (Hfin : Some m ≠ None
                 ∧ (None ∉ entry_names entries)
                 ∧ ∀ elm, elm ∈ e :: entries → ¬ bad_int FIELDS (Some elm)).
  { destruct (find_kid children kids m) as [[j y]|].
    - unfold HitCount_refresh in H.
      destruct (_refresh_xml (hit_count y) (Some e)) as [h1 [[]|err]] eqn:Er;
        [|done].
      eapply Hstep; [exact H|by eexists].
    - unfold HitCount_init in H.
      destruct (_refresh_xml _ (Some e)) as [h1 [[]|err]] eqn:Er; [|done].
      eapply Hstep; [exact H|by eexists]. }
  destruct Hfin as (Hm & Hn & Hg). split; [|done].
  by apply not_elem_of_cons.
Qed.

(** Running the loop again on what it left changes nothing. *)
Lemma collect_again kids entries children children' ans' :
  collect kids entries children ∅ = (children', Ok ans') →
  collect kids entries children' ∅ = (children', Ok ans').
Proof.
  intros H1.
  pose proof (collect_same_rules _ _ _ _ _ _ H1) as Hsame.
  destruct (collect_ok_inv _ _ _ _ _ _ H1) as [Hn Hg].
  destruct (collect_ok kids entries children' ∅ Hn Hg) as (c2 & ans2 & H2).
  rewrite H2. f_equal; [|f_equal].
  - apply list_eq. intros i.
    destruct (children !! i) as [x|] eqn:Hi.
    2:{ apply lookup_ge_None in Hi.
        rewrite <- (collect_length _ _ _ _ _ _ H1) in Hi.
        pose proof Hi as Hi2.
        rewrite <- (collect_length _ _ _ _ _ _ H2) in Hi2.
        apply lookup_ge_None in Hi, Hi2. by rewrite Hi, Hi2. }
    destruct (collect_frame _ _ _ _ _ _ H1 i x Hi) as (h1 & Hx1 & _).
    pose proof (find_kid_same children' children kids (uid x) Hsame) as Hfk.
    destruct (decide (fst <$> find_kid children kids (uid x) = Some i))
      as [Hfirst|Hfirst].
    + destruct (find_kid children kids (uid x)) as [[j y]|] eqn:Ek; [|done].
      simpl in Hfirst. injection Hfirst as ->.
      pose proof (find_kid_Some _ _ _ _ _ Ek) as [Hy _].
      assert (y = x) as -> by congruence.
      destruct (find_kid children' kids (uid x)) as [[j1 y1]|] eqn:Ek1;
        [|done].
      simpl in Hfk. injection Hfk as ->.
      pose proof (find_kid_Some _ _ _ _ _ Ek1) as [Hy1 _].
      pose proof (collect_spec _ _ _ _ _ _ (uid x) H1) as S1.
      pose proof (collect_spec _ _ _ _ _ _ (uid x) H2) as S2.
      rewrite Ek in S1. rewrite Ek1 in S2.
      destruct (last (named (uid x) entries)) as [elm|].
      * destruct S1 as (_ & g1 & Hg1 & Hc1).
        destruct S2 as (_ & g2 & Hg2 & Hc2).
        rewrite Hc1 in Hy1. injection Hy1 as <-. cbn [hit_count] in Hg2.
        pose proof (refresh_xml_overwrite _ _ _ _ _ Hg1 Hg2) as Hg3.
        rewrite Hg1 in Hg3. injection Hg3 as <-.
        by rewrite Hc1, Hc2.
      * destruct S1 as [_ Hc1]. destruct S2 as [_ Hc2].
        by rewrite (Hc2 _ _ eq_refl).
    + pose proof (collect_untouched _ _ _ _ _ _ i x H1 Hi Hfirst) as Hu.
      rewrite Hu. apply (collect_untouched _ _ _ _ _ _ i x H2 Hu).
      by rewrite Hfk.
  - apply map_eq. intros n.
    pose proof (find_kid_same children' children kids n Hsame) as Hfk.
    pose proof (collect_spec _ _ _ _ _ _ n H1) as S1.
    pose proof (collect_spec _ _ _ _ _ _ n H2) as S2.
    destruct (last (named n entries)) as [elm|].
    + destruct (find_kid children kids n) as [[j y]|],
               (find_kid children' kids n) as [[j1 y1]|]; try done.
      * simpl in Hfk. injection Hfk as ->.
        destruct S1 as [-> _], S2 as [-> _]. done.
      * destruct S1 as (g1 & Hg1 & ->), S2 as (g2 & Hg2 & ->). congruence.
    + destruct S1 as [-> _], S2 as [-> _]. done.
Qed.

Lemma refresh_eq dev children style rules all_rules :
  refresh dev children style rules all_rules
  = if version_ltb (retrieve_panos_version dev) (8, 1, 0)%nat then
      mk_outcome [] children
        (Raise (PanDeviceError "Rule hit count is supported in PAN-OS 8.1+"))
    else
      match request_body children style rules all_rules with
      | None => mk_outcome [] children (Ok ∅)
      | Some b =>
          let cmd := hit_count_cmd (vsys_or_default dev) style b in
          match op dev cmd with
          | Raise e => mk_outcome [cmd] children (Raise e)
          | Ok res =>
              let '(children', r) :=
                collect (select_kids 0 children style rules)
                        (findall res response_path) children ∅ in
              mk_outcome [cmd] children' r
          end
      end.
Proof. reflexivity. Qed.

Lemma request_body_same c children style rules all_rules :
  same_rules c children →
  request_body c style rules all_rules
  = request_body children style rules all_rules.
Proof.
  intros Hc. unfold request_body. destruct all_rules; [done|].
  rewrite (select_kids_same style rules c children 0 Hc).
  set (kids := select_kids 0 children style rules).
  destruct (default [] rules) as [|a0 l0]; [|done]. cbn [or_list].
  pose proof (kid_rules_same c children kids Hc) as Hk.
  assert (Hm : ∀ l : list Rule,
            (member ∘ member_text) <$> (ByRule <$> l) = member <$> (uid <$> l)).
  { intros l. by rewrite <- !list_fmap_compose. }
  assert (Hor : ∀ l : list rule_arg, or_list l [] = l) by (by intros []).
  rewrite !Hor.
  destruct (kid_rules c kids) as [|a l], (kid_rules children kids) as [|b k];
    try done.
  rewrite !Hm, Hk. done.
Qed.

(** X19: refreshing is idempotent against a device that answers alike:
    after a call that returned a dict, the same call on the children it
    left sends the same command, leaves every child as it is and returns
    the same dict. *)
Theorem refresh_idempotent dev children style rules all_rules ans :
  let o := refresh dev children style rules all_rules in
  returned o = Ok ans →
  refresh dev (children_after o) style rules all_rules
  = mk_outcome (issued o) (children_after o) (Ok ans).
Proof.
  intros o Hret. subst o.
  rewrite (refresh_eq dev children) in Hret |- *.
  destruct (version_ltb _ _) eqn:Hv; [done|].
  destruct (request_body children style rules all_rules) as [b|] eqn:Eb.
  2:{ cbn [children_after issued returned] in *. injection Hret as <-.
      by rewrite refresh_eq, Hv, Eb. }
  cbv zeta in Hret |- *.
  destruct (op dev (hit_count_cmd _ _ _)) as [res|e] eqn:Eop; [|done].
  destruct (collect _ (findall res response_path) children ∅)
    as [children' r] eqn:Ec.
  cbn [children_after issued returned] in *. subst r.
  pose proof (collect_same_rules _ _ _ _ _ _ Ec) as Hsame.
  rewrite refresh_eq, Hv, (request_body_same _ _ _ _ _ Hsame), Eb.
  cbv zeta. rewrite Eop, (select_kids_same style rules _ _ 0 Hsame).
  by rewrite (collect_again _ _ _ _ _ Ec).
Qed.

Lemma refresh_idempotent_witness :
  let dev := device (10, 0, 0)%nat None response_r1_r9 in
  let o := refresh dev mixed_children "security" None false in
  ∃ ans, returned o = Ok ans
         ∧ refresh dev (children_after o) "security" None false
           = mk_outcome (issued o) (children_after o) (Ok ans).
Proof.
  intros dev o.
  destruct (returned o) as [ans|e] eqn:Hret; [|by vm_compute in Hret].
  exists ans. split; [done|].
  exact (refresh_idempotent dev mixed_children "security" None false ans Hret).
Defined.

End RefreshFacts.

(* ===================================================================== *)
(** * More on [RuleAuditComment.history] *)
(* ===================================================================== *)

Module HistoryFacts.
Import Py ET OpState OpStateViews Classes Examples OpStateExamples.

Lemma chars_app (a b : string) : chars (a +:+ b) = chars a ++ chars b.
Proof.
  unfold chars. induction a as [|c a IH]; [done|].
  change (c :: String.list_ascii_of_string (a +:+ b)
          = c :: (String.list_ascii_of_string a
                  ++ String.list_ascii_of_string b)).
  by rewrite IH.
Qed.

Lemma str_chars (s : string) : str (chars s) = s.
Proof. apply String.string_of_list_ascii_of_string. Qed.

Lemma split_chars_length sep l : ∀ cur,
  length (split_chars sep cur l) = S (length (filter (fun c => c = sep) l)).
Proof.
  induction l as [|c l IH]; intros cur; [done|]. simpl.
  destruct (Ascii.eqb_spec c sep) as [->|Hne].
  - rewrite filter_cons_True by done. simpl. by rewrite IH.
  - rewrite filter_cons_False by done. by rewrite IH.
Qed.

Lemma split_chars_nosep sep l : ∀ cur,
  sep ∉ l → split_chars sep cur l = [str (rev cur ++ l)].
Proof.
  induction l as [|c l IH]; intros cur Hn.
  { simpl. by rewrite app_nil_r. }
  apply not_elem_of_cons in Hn as [Hne Hn]. simpl.
  destruct (Ascii.eqb_spec c sep) as [->|_]; [done|].
  rewrite IH by done. simpl. by rewrite <- app_assoc.
Qed.

Lemma split_chars_sep sep l1 : ∀ cur, ∃ front,
  ∀ l2, split_chars sep cur (l1 ++ sep :: l2)
        = front ++ split_chars sep [] l2.
Proof.
  induction l1 as [|c l1 IH]; intros cur.
  { exists [str (rev cur)]. intros l2. simpl. by rewrite Ascii.eqb_refl. }
  destruct (Ascii.eqb_spec c sep) as [->|Hne].
  - destruct (IH []) as [front Hf]. exists (str (rev cur) :: front).
    intros l2. simpl. by rewrite Ascii.eqb_refl, Hf.
  - destruct (IH (c :: cur)) as [front Hf]. exists front.
    intros l2. simpl. apply Ascii.eqb_neq in Hne. by rewrite Hne, Hf.
Qed.

(** The last segment of a text that ends in [/R]. *)
Lemma split_last Q R :
  "/"%char ∉ chars R →
  index_from_end (split "/" (Q +:+ "/" +:+ R)) 1 = Some R.
Proof.
  intros HR. unfold split, index_from_end.
  rewrite chars_app. change (chars ("/" +:+ R)) with ("/"%char :: chars R).
  destruct (split_chars_sep "/" (chars Q) []) as [front ->].
  rewrite split_chars_nosep by done. simpl.
  rewrite rev_app_distr. simpl. by rewrite str_chars.
Qed.

Lemma split_chars_first sep l l2 : ∀ cur,
  sep ∉ l →
  split_chars sep cur (l ++ sep :: l2)
  = str (rev cur ++ l) :: split_chars sep [] l2.
Proof.
  induction l as [|c l IH]; intros cur Hn.
  - simpl. by rewrite Ascii.eqb_refl, app_nil_r.
  - apply not_elem_of_cons in Hn as [Hne Hn]. simpl.
    destruct (Ascii.eqb_spec c sep) as [->|_]; [done|].
    rewrite IH by done. simpl. by rewrite <- app_assoc.
Qed.

(** The last but one segment of a text that ends in [/T/S]. *)
Lemma split_last_but_one P T S :
  "/"%char ∉ chars T → "/"%char ∉ chars S →
  index_from_end (split "/" (P +:+ "/" +:+ T +:+ "/" +:+ S)) 2 = Some T.
Proof.
  intros HT HS. unfold split, index_from_end.
  rewrite chars_app.
  change (chars ("/" +:+ T +:+ "/" +:+ S))
    with ("/"%char :: chars (T +:+ "/" +:+ S)).
  rewrite chars_app. change (chars ("/" +:+ S)) with ("/"%char :: chars S).
  destruct (split_chars_sep "/" (chars P) []) as [front ->].
  rewrite split_chars_first by done.
  rewrite split_chars_nosep by done. simpl.
  rewrite rev_app_distr. simpl. by rewrite str_chars.
Qed.

Lemma no_separator_one_segment s :
  "/"%char ∉ chars s → index_from_end (split "/" s) 2 = None.
Proof.
  intros Hn. unfold split, index_from_end. by rewrite split_chars_nosep.
Qed.

Lemma separator_two_segments s :
  "/"%char ∈ chars s → is_Some (index_from_end (split "/" s) 2).
Proof.
  intros Hin. unfold split, index_from_end. apply lookup_lt_is_Some.
  rewrite length_rev, split_chars_length.
  assert (H : "/"%char ∈ filter (fun c => c = "/"%char) (chars s)).
  { by apply list_elem_of_filter. }
  destruct (filter _ (chars s)); [by apply elem_of_nil in H|simpl; lia].
Qed.

Lemma last_segment_exists s : is_Some (index_from_end (split "/" s) 1).
Proof.
  unfold split, index_from_end. apply lookup_lt_is_Some.
  rewrite length_rev, split_chars_length. lia.
Qed.

Lemma logs_of_ok entries : ∀ logs,
  logs_of entries = Ok logs →
  Forall2 (fun x l => AuditCommentLog_init x = Ok l) entries logs.
Proof.
  induction entries as [|x entries IH]; intros logs H.
  { simpl in H. injection H as <-. constructor. }
  simpl in H. destruct (AuditCommentLog_init x) as [l|] eqn:El; [|done].
  simpl in H. destruct (logs_of entries) as [ls|]; [|done].
  simpl in H. injection H as <-. constructor; [done|]. by apply IH.
Qed.

Lemma logs_of_raise entries : ∀ e,
  logs_of entries = Raise e →
  e = ValueError
  ∧ ∃ x s, x ∈ entries ∧ _str (Some x) "config_ver" = Some s
           ∧ Py.int s = None.
Proof.
  induction entries as [|x entries IH]; intros e H; [done|].
  simpl in H. destruct (AuditCommentLog_init x) as [l|e'] eqn:El.
  - simpl in H. destruct (logs_of entries) as [ls|e''] eqn:Els; [done|].
    simpl in H. injection H as <-.
    destruct (IH _ eq_refl) as (-> & y & s & Hin & Hs & Hi).
    split; [done|]. exists y, s. split; [by right|done].
  - simpl in H. injection H as <-.
    unfold AuditCommentLog_init, _int, bind in El.
    destruct (_str (Some x) "config_ver") as [s|] eqn:Es; [|done].
    destruct (Py.int s) eqn:Ei; [done|]. injection El as <-.
    split; [done|]. exists x, s. split; [by left|done].
Qed.

(** X10: a rule without a rulebase parent gets no history and no query
    is sent.  When [xpath_short()] has no [/] the call raises
    [IndexError] (the rule-type segment is taken first); otherwise it
    raises [PanDeviceError], with [rule has empty parent] for a rule
    without parent and [<uid> has non-rulebase parent] for a parent
    that is no [Rulebase], [PreRulebase] or [PostRulebase]. *)
Theorem history_without_rulebase dev self count direction skip :
  match parent self with
  | Some p => is_rulebase p = false
  | None => True
  end →
  history dev self count direction skip
  = ([], Raise
           (if bool_decide ("/"%char ∈ chars (xpath_short self)) then
              PanDeviceError
                match parent self with
                | None => "rule has empty parent"
                | Some _ => rule_uid self +:+ " has non-rulebase parent"
                end
            else IndexError)).
Proof.
  intros Hp. unfold history. case_bool_decide as Hs.
  - destruct (separator_two_segments _ Hs) as [rt ->].
    destruct (parent self) as [p|]; [|done]. by rewrite Hp.
  - by rewrite no_separator_one_segment.
Qed.

Lemma history_without_rulebase_witness :
  history (device (10, 0, 0)%nat None empty_response)
          (mk_RuleObj "r1" "/rulebase/security/rules" None) 100 "backward" None
  = ([], Raise (PanDeviceError "rule has empty parent"))
  ∧ history (device (10, 0, 0)%nat None empty_response)
            (mk_RuleObj "r1" "/rulebase/security/rules"
               (Some (mk_Parent false "/vsys" None))) 100 "backward" None
    = ([], Raise (PanDeviceError "r1 has non-rulebase parent")).
Proof.
  split.
  - exact (history_without_rulebase (device (10, 0, 0)%nat None empty_response)
             (mk_RuleObj "r1" "/rulebase/security/rules" None)
             100 "backward" None I).
  - exact (history_without_rulebase (device (10, 0, 0)%nat None empty_response)
             (mk_RuleObj "r1" "/rulebase/security/rules"
                (Some (mk_Parent false "/vsys" None)))
             100 "backward" None eq_refl).
Defined.

(** X11: which segments the filter names.  For a rule under a rulebase
    whose [xpath_short()] ends in [/T/S] and whose parent's [xpath()]
    ends in [/R] (no [/] in [T], [S] and [R]), the one query sent has
    the filter built from the uid, [T], [R] and the vsys of the
    parent. *)
Theorem history_segments dev self p count direction skip P T S Q R :
  parent self = Some p → is_rulebase p = true →
  xpath_short self = P +:+ "/" +:+ T +:+ "/" +:+ S →
  "/"%char ∉ chars T → "/"%char ∉ chars S →
  parent_xpath p = Q +:+ "/" +:+ R → "/"%char ∉ chars R →
  (history dev self count direction skip).1
  = [mk_log_query "config" count
       (history_query (rule_uid self) T R (parent_vsys p))
       (history_extra_qs direction skip)].
Proof.
  intros Hp Hrb Hx HT HS Hpx HR. unfold history.
  rewrite Hx, (split_last_but_one P T S HT HS), Hp, Hrb, Hpx.
  rewrite (split_last Q R HR). cbn [negb].
  by destruct (xapi_log dev _).
Qed.

Lemma history_segments_witness :
  (history (device (10, 0, 0)%nat None empty_response) rule_r1
           100 "backward" None).1
  = [mk_log_query "config" 100
       (history_query "r1" "security" "rulebase" (Some "vsys1"))
       (history_extra_qs "backward" None)].
Proof.
  apply (history_segments (device (10, 0, 0)%nat None empty_response) rule_r1
           (mk_Parent true
              "/config/devices/entry[@name='localhost.localdomain']/vsys/entry[@name='vsys1']/rulebase"
              (Some "vsys1"))
           100 "backward" None
           "/config/devices/entry[@name='localhost.localdomain']/vsys/entry[@name='vsys1']/rulebase"
           "security" "rules"
           "/config/devices/entry[@name='localhost.localdomain']/vsys/entry[@name='vsys1']"
           "rulebase");
    try reflexivity; apply (bool_decide_unpack _); by vm_compute.
Defined.

(** X12: what [history] returns for a rule under a rulebase whose
    [xpath_short()] has a [/].  One query is sent.  An exception of the
    transport is passed on.  Otherwise the call returns one log per
    [result/log/logs/entry] of the response, in document order, each
    holding the texts of [admin] and [comment], the integer of
    [config_ver] and the time of [time_generated]; or it raises
    [ValueError], which happens only when the [config_ver] of some entry
    is not an integer. *)
Theorem history_outcome dev self p count direction skip :
  parent self = Some p → is_rulebase p = true →
  "/"%char ∈ chars (xpath_short self) →
  ∃ q, (history dev self count direction skip).1 = [q]
    ∧ match xapi_log dev q with
      | Raise e => (history dev self count direction skip).2 = Raise e
      | Ok resp =>
          let entries := findall resp ["result"; "log"; "logs"; "entry"] in
          match (history dev self count direction skip).2 with
          | Ok logs =>
              Forall2
                (fun x l =>
                   admin l = _str (Some x) "admin"
                   ∧ comment l = _str (Some x) "comment"
                   ∧ _int (Some x) "config_ver" = Ok (config_version l)
                   ∧ time l = _datetime (Some x) "time_generated"
                                        "%Y/%m/%d %H:%M:%S")
                entries logs
          | Raise e =>
              e = ValueError
              ∧ ∃ x s, x ∈ entries ∧ _str (Some x) "config_ver" = Some s
                       ∧ Py.int s = None
          end
      end.
Proof.
  intros Hp Hrb Hs. unfold history.
  destruct (separator_two_segments _ Hs) as [rt ->].
  rewrite Hp, Hrb. cbn [negb].
  destruct (last_segment_exists (parent_xpath p)) as [rbt ->].
  eexists. split.
  { by destruct (xapi_log dev _). }
  destruct (xapi_log dev _) as [resp|e]; [|done]. simpl.
  destruct (logs_of _) as [logs|e] eqn:El.
  - apply logs_of_ok in El. eapply Forall2_impl; [exact El|].
    intros x l Hl. unfold AuditCommentLog_init, bind in Hl.
    destruct (_int (Some x) "config_ver") as [v|]; [|done].
    by injection Hl as <-.
  - by apply logs_of_raise.
Qed.

Lemma history_outcome_witness :
  ∃ l1 l2,
    (history (device (10, 0, 0)%nat None audit_response) rule_r1
             100 "backward" None).2 = Ok [l1; l2]
    ∧ comment l1 = Some "allow dns" ∧ config_version l1 = Some 7
    ∧ comment l2 = None ∧ time l2 = Some (Unparsed "not-a-date").
Proof.
  destruct (history_outcome (device (10, 0, 0)%nat None audit_response) rule_r1
              (mk_Parent true
                 "/config/devices/entry[@name='localhost.localdomain']/vsys/entry[@name='vsys1']/rulebase"
                 (Some "vsys1"))
              100 "backward" None eq_refl eq_refl) as (q & Hq & H).
  { apply (bool_decide_unpack _). by vm_compute. }
  change (xapi_log _ q) with (@Ok Element audit_response) in H.
  cbv zeta in H.
  destruct (history _ _ _ _ _).2 as [logs|e] eqn:E; [|by vm_compute in E].
  assert (He : findall audit_response ["result"; "log"; "logs"; "entry"]
               = [audit_entry; audit_entry_bad_time]) by (by vm_compute).
  rewrite He in H.
  apply Forall2_cons_inv_l in H as (l1 & logs' & H1 & H & ->).
  apply Forall2_cons_inv_l in H as (l2 & logs'' & H2 & H & ->).
  apply Forall2_nil_inv_l in H as ->.
  exists l1, l2. split; [done|].
  destruct H1 as (_ & Hc1 & Hv1 & _), H2 as (_ & Hc2 & _ & Ht2).
  split; [by rewrite Hc1|]. split.
  - assert (Hv : _int (Some audit_entry) "config_ver" = Ok (Some 7))
      by (by vm_compute).
    rewrite Hv in Hv1. by injection Hv1 as <-.
  - split; [by rewrite Hc2|]. rewrite Ht2. by vm_compute.
Defined.

(** X15: the filter for the classes of this module.  When the rule's
    [xpath_short()] ends in the xpath its class registers and the
    parent's [xpath()] ends in the xpath of its rulebase class, the
    rule-type clause of the filter is [security], [nat] or [pbf] (the
    [HIT_COUNT_STYLE] of the class) and the rulebase clause is
    [rulebase], [pre-rulebase] or [post-rulebase]. *)
Theorem history_rule_classes dev self p count direction skip c k P Q :
  parent self = Some p → is_rulebase p = true →
  xpath_short self = P +:+ rule_xpath c →
  parent_xpath p = Q +:+ rulebase_xpath k →
  (history dev self count direction skip).1
  = [mk_log_query "config" count
       (history_query (rule_uid self) (class_HIT_COUNT_STYLE c)
          match k with
          | Rulebase => "rulebase"
          | PreRulebase => "pre-rulebase"
          | PostRulebase => "post-rulebase"
          end
          (parent_vsys p))
       (history_extra_qs direction skip)].
Proof.
  intros Hp Hrb Hx Hpx. unfold history. rewrite Hx, Hp, Hrb, Hpx.
  assert (Hno : ∀ s, bool_decide ("/"%char ∉ chars s) = true →
                     "/"%char ∉ chars s).
  { intros s. apply bool_decide_eq_true. }
  assert (Hrule : index_from_end (split "/" (P +:+ rule_xpath c)) 2
                  = Some (class_HIT_COUNT_STYLE c)).
  { destruct c.
    - apply (split_last_but_one P "security" "rules"); by apply Hno.
    - apply (split_last_but_one P "nat" "rules"); by apply Hno.
    - apply (split_last_but_one P "pbf" "rules"); by apply Hno. }
  rewrite Hrule. cbn [negb].
  assert (Hbase : index_from_end (split "/" (Q +:+ rulebase_xpath k)) 1
                  = Some match k with
                         | Rulebase => "rulebase"
                         | PreRulebase => "pre-rulebase"
                         | PostRulebase => "post-rulebase"
                         end).
  { destruct k.
    - apply (split_last Q "rulebase"); by apply Hno.
    - apply (split_last Q "pre-rulebase"); by apply Hno.
    - apply (split_last Q "post-rulebase"); by apply Hno. }
  rewrite Hbase. by destruct (xapi_log dev _).
Qed.

Lemma history_rule_classes_witness :
  (history (device (10, 0, 0)%nat None empty_response)
           (mk_RuleObj "n1" "/config/shared/pre-rulebase/nat/rules"
              (Some (mk_Parent true "/config/shared/pre-rulebase" None)))
           10 "forward" None).1
  = [mk_log_query "config" 10
       (history_query "n1" "nat" "pre-rulebase" None)
       (history_extra_qs "forward" None)].
Proof.
  exact (history_rule_classes (device (10, 0, 0)%nat None empty_response)
           (mk_RuleObj "n1" "/config/shared/pre-rulebase/nat/rules"
              (Some (mk_Parent true "/config/shared/pre-rulebase" None)))
           (mk_Parent true "/config/shared/pre-rulebase" None)
           10 "forward" None NatRule PreRulebase
           "/config/shared/pre-rulebase" "/config/shared"
           eq_refl eq_refl eq_refl eq_refl).
Defined.

End HistoryFacts.

(* ===================================================================== *)
(** * [current], [update] and a rule's own [refresh] *)
(* ===================================================================== *)

Module RuleOpStateFacts.
Import Py ET OpState OpStateViews RuleOpState Examples OpStateExamples.
Import HitCountResponse RefreshFacts.

Lemma find_child_tagged t cs c :
  find_child t cs = Some c →
  ∃ more, List.filter (fun c => String.eqb (tag c) t) cs = c :: more.
Proof.
  induction cs as [|c0 cs IH]; [done|]. simpl.
  destruct (String.eqb (tag c0) t); [|done].
  intros [= <-]. by eexists.
Qed.

Lemma find_child_none t cs :
  find_child t cs = None →
  List.filter (fun c => String.eqb (tag c) t) cs = [].
Proof.
  induction cs as [|c0 cs IH]; [done|]. simpl.
  by destruct (String.eqb (tag c0) t).
Qed.

(** A chain of first children is the first element [findall] gives. *)
Lemma find_path_head path : ∀ e rest c,
  find_path path e = Some c →
  head (findall_from path (e :: rest)) = Some c.
Proof.
  induction path as [|t path IH]; intros e rest c H.
  { simpl in *. by injection H as <-. }
  simpl in H. unfold find in H.
  destruct (find_child t (children e)) as [c1|] eqn:Ec; [|done].
  apply find_child_tagged in Ec as [more Hm].
  cbn [findall_from]. rewrite bind_cons. unfold children_tagged at 1.
  rewrite Hm. simpl. by apply IH.
Qed.

(** X13: [current] and [update] each hand one command to the device,
    [<show><config><list><audit-comments><xpath>] and
    [<set><audit-comment>] with [<xpath>] and [<comment>], and pass on
    an exception of the transport.  [update] returns [None] whatever the
    response holds.  [current] returns the text of the first
    [result/entry/comment] of the response in document order, that is
    of the first element of the list that runs through the [result]
    children, through the [entry] children of each and through the
    [comment] children of each of those; it returns [None] when that
    list is empty.  When the first [entry] of the first [result] has a
    comment, that comment is the one. *)
Theorem audit_comment_commands dev xpath comment :
  (current dev xpath).1 = [current_cmd xpath]
  ∧ text <$> find_path ["config"; "list"; "audit-comments"; "xpath"]
                       (current_cmd xpath) = Some (Some xpath)
  ∧ match op dev (current_cmd xpath) with
    | Raise e => (current dev xpath).2 = Raise e
    | Ok ans =>
        let found :=
          (children_tagged "result" ans ≫= children_tagged "entry")
            ≫= children_tagged "comment" in
        findall ans ["result"; "entry"; "comment"] = found
        ∧ (current dev xpath).2
          = Ok match found with
               | c :: _ => text c
               | [] => None
               end
        ∧ ∀ c, find_path ["result"; "entry"; "comment"] ans = Some c →
               (current dev xpath).2 = Ok (text c)
    end
  ∧ (update dev xpath comment).1 = [update_cmd xpath comment]
  ∧ text <$> find_path ["audit-comment"; "xpath"] (update_cmd xpath comment)
    = Some (Some xpath)
  ∧ text <$> find_path ["audit-comment"; "comment"] (update_cmd xpath comment)
    = Some (Some comment)
  ∧ match op dev (update_cmd xpath comment) with
    | Raise e => (update dev xpath comment).2 = Raise e
    | Ok _ => (update dev xpath comment).2 = Ok ()
    end.
Proof.
  split; [|split; [done|split]].
  { unfold current. by destruct (op dev _). }
  { unfold current. destruct (op dev (current_cmd xpath)) as [ans|e]; [|done].
    assert (Hfound : findall ans ["result"; "entry"; "comment"]
                     = (children_tagged "result" ans
                          ≫= children_tagged "entry")
                         ≫= children_tagged "comment").
    { unfold findall. cbn [findall_from].
      change ([ans] ≫= children_tagged "result")
        with (children_tagged "result" ans ++ []).
      by rewrite app_nil_r. }
    cbv zeta. split; [exact Hfound|]. rewrite <- Hfound.
    cbn [snd]. split.
    - by destruct (findall ans ["result"; "entry"; "comment"]).
    - intros c Hc. unfold findall.
      by rewrite (find_path_head _ _ [] _ Hc). }
  split.
  { unfold update. by destruct (op dev _). }
  split; [done|]. split; [done|].
  unfold update. by destruct (op dev _).
Qed.

(** The comment of a later entry is found when the first has none. *)
Example current_skips_entries_without_comment :
  (current (device (10, 0, 0)%nat None comment_response) "/x").2
  = Ok (Some "allow dns")
  ∧ find_path ["result"; "entry"; "comment"] comment_response = None.
Proof. split; by vm_compute. Qed.

Lemma refresh_single dev children style n res :
  version_ltb (retrieve_panos_version dev) (8, 1, 0)%nat = false →
  (∀ cmd, op dev cmd = Ok res) →
  refresh dev children style (Some [ByName n]) false
  = let '(children', r) :=
      collect (select_kids 0 children style (Some [ByName n]))
              (findall res response_path) children ∅ in
    mk_outcome [hit_count_cmd (vsys_or_default dev) style
                  [Elem "list" [] None [member n]]] children' r.
Proof.
  intros Hv Hop. unfold refresh. rewrite Hv.
  cbn [default from_option id or_list fmap list_fmap compose member_text].
  by rewrite Hop.
Qed.

(** X14: a rule's own [hit_count.refresh()] on PAN-OS 8.1 or later.  One
    command is sent, naming this one rule.  If the call succeeds and the
    rule is the first child of its style with the name, its hit count
    is replaced by what the last returned entry of that name parses to;
    when the response has no entry of that name the hit count keeps the
    values it had. *)
Theorem hit_count_refresh_bound dev children style n i x res :
  version_ltb (retrieve_panos_version dev) (8, 1, 0)%nat = false →
  first_match children style n = Some (i, x) →
  (∀ cmd, op dev cmd = Ok res) →
  let r := HitCount_refresh_bound dev children style n in
  r.1.1 = [hit_count_cmd (vsys_or_default dev) style
             [Elem "list" [] None [member n]]]
  ∧ (r.2 = Ok () →
     match last (named n (findall res response_path)) with
     | Some elm =>
         ∃ h, _refresh_xml (hit_count x) (Some elm) = (h, Ok ())
              ∧ r.1.2 !! i = Some (mk_Rule (uid x) (HIT_COUNT_STYLE x) h)
     | None => r.1.2 !! i = Some x
     end).
Proof.
  intros Hv Hfirst Hop r. subst r.
  unfold HitCount_refresh_bound.
  rewrite (refresh_single dev children style n res Hv Hop).
  set (kids := select_kids 0 children style (Some [ByName n])).
  destruct (collect kids (findall res response_path) children ∅)
    as [children' ret] eqn:Ec.
  cbn [issued children_after returned fst snd].
  split; [done|]. destruct ret as [ans|e]; [|done]. intros _.
  pose proof (collect_spec _ _ _ _ _ _ n Ec) as Hspec.
  assert (Hk : find_kid children kids n = Some (i, x)).
  { unfold kids.
    pose proof (find_kid_select [] children style (Some [ByName n]) n) as Hs.
    simpl in Hs. rewrite Hs.
    - unfold first_match in Hfirst. rewrite Hfirst. done.
    - by rewrite String.eqb_refl. }
  rewrite Hk in Hspec.
  destruct (last (named n (findall res response_path))) as [elm|].
  - by destruct Hspec as (_ & h & Hh & Hc); exists h.
  - destruct Hspec as [_ Hc]. by apply Hc.
Qed.

Lemma hit_count_refresh_bound_witness :
  let r := HitCount_refresh_bound (device (10, 0, 0)%nat None response_r1_r9)
                                  mixed_children "security" "r1" in
  r.1.1 = [hit_count_cmd "vsys1" "security"
             [Elem "list" [] None [member "r1"]]]
  ∧ ∃ h, r.1.2 !! 0%nat = Some (mk_Rule "r1" (Some "security") h)
         ∧ getattr h "hit_count" = Some (PyInt 42).
Proof.
  intros r.
  destruct (hit_count_refresh_bound (device (10, 0, 0)%nat None response_r1_r9)
              mixed_children "security" "r1" 0 (security_rule "r1")
              response_r1_r9 eq_refl eq_refl (fun _ => eq_refl)) as [Hcmd Hh].
  split; [exact Hcmd|].
  specialize (Hh eq_refl).
  assert (Hl : last (named "r1" (findall response_r1_r9 response_path))
               = Some entry_r1) by (by vm_compute).
  rewrite Hl in Hh. destruct Hh as (h & Hr & Hi).
  exists h. split; [exact Hi|].
  assert (Hv : (_refresh_xml (hit_count (security_rule "r1"))
                             (Some entry_r1)).1.(attrs) !! "hit_count"
               = Some (PyInt 42)) by (by vm_compute).
  by rewrite Hr in Hv.
Defined.

End RuleOpStateFacts.

(* ===================================================================== *)
(** * The declarations of [SecurityRule], [NatRule] and
      [PolicyBasedForwarding] *)
(* ===================================================================== *)

Module DeclarationFacts.
Import Py Classes Declarations.

Lemma check_all_sound f rest : ∀ seen,
  check_all f seen rest = true →
  ∀ i p, rest !! i = Some p → f (seen ++ take i rest) p = true.
Proof.
  induction rest as [|p0 rest IH]; intros seen H i p Hi; [done|].
  simpl in H. apply andb_true_iff in H as [H0 H].
  destruct i as [|i].
  - simpl in *. injection Hi as <-. by rewrite app_nil_r.
  - simpl in *. rewrite (cons_middle p0), app_assoc. by apply IH.
Qed.

Lemma elem_of_take_lookup {A} (l : list A) i q :
  q ∈ take i l → ∃ j, (j < i)%nat ∧ l !! j = Some q.
Proof.
  intros Hin. apply list_elem_of_lookup in Hin as [j Hj].
  apply lookup_take_Some in Hj as [Hj Hlt]. by exists j.
Qed.

Lemma selector_sound known k vs :
  selector known k vs = true →
  ∃ q allowed, q ∈ known ∧ p_name q = k
               ∧ get_values (p_args q) = Some allowed
               ∧ ∀ v, v ∈ vs → v ∈ allowed.
Proof.
  unfold selector. intros H. apply existsb_exists in H as (q & Hq & H).
  apply andb_true_iff in H as [Hn Hv]. apply String.eqb_eq in Hn.
  destruct (get_values (p_args q)) as [allowed|] eqn:Eg; [|done].
  exists q, allowed. split; [by apply list_elem_of_In|]. split; [done|].
  split; [done|]. intros v Hin.
  rewrite forallb_forall in Hv. apply list_elem_of_In in Hin.
  specialize (Hv v Hin). by apply bool_decide_eq_true in Hv.
Qed.

Lemma setup_checked c : setup_ok c = true.
Proof. destruct c; vm_compute; reflexivity. Qed.

Lemma setup_params_ok c params :
  _setup c = Some params → params_ok params = true.
Proof.
  intros H. pose proof (setup_checked c) as Hc. unfold setup_ok in Hc.
  by rewrite H in Hc.
Qed.

(** X16: in each of the three classes a condition only names a
    parameter declared earlier in the same [_setup], one that declares
    [values], and every value the condition accepts is one of them. *)
Theorem setup_conditions c params i p k cv :
  _setup c = Some params →
  params !! i = Some p →
  (k, cv) ∈ get_condition (p_args p) →
  ∃ j q allowed,
    (j < i)%nat ∧ params !! j = Some q ∧ p_name q = k
    ∧ get_values (p_args q) = Some allowed
    ∧ ∀ v, v ∈ accepted cv → v ∈ allowed.
Proof.
  intros Hs Hi Hk. apply setup_params_ok in Hs. unfold params_ok in Hs.
  repeat (apply andb_true_iff in Hs as [Hs ?]).
  pose proof (check_all_sound _ _ _ Hs i p Hi) as Hp. simpl in Hp.
  unfold conditions_ok in Hp. rewrite forallb_forall in Hp.
  apply list_elem_of_In in Hk. specialize (Hp _ Hk). simpl in Hp.
  apply selector_sound in Hp as (q & allowed & Hq & Hn & Hv & Hall).
  apply elem_of_take_lookup in Hq as (j & Hlt & Hj).
  by exists j, q, allowed.
Qed.

Lemma setup_conditions_witness :
  ∃ j q allowed,
    (j < 10)%nat ∧ default [] (_setup NatRule) !! j = Some q
    ∧ p_name q = "source_translation_address_type"
    ∧ get_values (p_args q) = Some allowed
    ∧ ∀ v, v ∈ accepted (Str "interface-address") → v ∈ allowed.
Proof.
  destruct (default [] (_setup NatRule) !! 10%nat) as [p|] eqn:E;
    [|by vm_compute in E].
  apply (setup_conditions NatRule (default [] (_setup NatRule)) 10 p
           "source_translation_address_type" (Str "interface-address"));
    [reflexivity|exact E|].
  vm_compute in E. injection E as <-.
  apply (bool_decide_unpack _). by vm_compute.
Defined.

(** X17: every [{name}] segment of a path, whether given to the
    constructor or to a profile, names the parameter itself or one
    declared before it, and that parameter declares [values]. *)
Theorem setup_placeholders c params i p path n :
  _setup c = Some params →
  params !! i = Some p →
  path ∈ paths p → n ∈ placeholders path →
  ∃ j q allowed,
    (j ≤ i)%nat ∧ params !! j = Some q ∧ p_name q = n
    ∧ get_values (p_args q) = Some allowed.
Proof.
  intros Hs Hi Hpath Hn. apply setup_params_ok in Hs. unfold params_ok in Hs.
  repeat (apply andb_true_iff in Hs as [Hs ?]).
  match goal with
  | H : check_all placeholders_ok _ _ = true |- _ =>
      pose proof (check_all_sound _ _ _ H i p Hi) as Hp
  end.
  simpl in Hp. unfold placeholders_ok in Hp. rewrite forallb_forall in Hp.
  apply list_elem_of_In in Hpath. specialize (Hp _ Hpath).
  rewrite forallb_forall in Hp.
  apply list_elem_of_In in Hn. specialize (Hp _ Hn).
  apply selector_sound in Hp as (q & allowed & Hq & Hname & Hv & _).
  rewrite <- (take_S_r _ _ _ Hi) in Hq.
  apply elem_of_take_lookup in Hq as (j & Hlt & Hj).
  exists j, q, allowed. split; [lia|done].
Qed.

Lemma setup_placeholders_witness :
  ∃ j q allowed,
    (j ≤ 17)%nat ∧ default [] (_setup PolicyBasedForwarding) !! j = Some q
    ∧ p_name q = "forward_next_hop_type"
    ∧ get_values (p_args q) = Some allowed.
Proof.
  destruct (default [] (_setup PolicyBasedForwarding) !! 17%nat) as [p|] eqn:E;
    [|by vm_compute in E].
  apply (setup_placeholders PolicyBasedForwarding
           (default [] (_setup PolicyBasedForwarding)) 17 p
           "action/{action}/nexthop/{forward_next_hop_type}"
           "forward_next_hop_type");
    [reflexivity|exact E| |].
  - vm_compute in E. injection E as <-.
    apply (bool_decide_unpack _). by vm_compute.
  - apply (bool_decide_unpack _). by vm_compute.
Defined.

(** X18: each [_setup] runs through (no [add_profile] meets an empty
    list) and in the list it leaves the names are pairwise distinct, a
    parameter is excluded exactly when its constructor gives no path and
    exactly when it has a version profile, every profile gives a path,
    and a default is one of the declared [values] when both are
    given. *)
Theorem setup_shape c :
  ∃ params,
    _setup c = Some params
    ∧ NoDup (p_name <$> params)
    ∧ ∀ p, p ∈ params →
        (get_exclude (p_args p) = true ↔ get_path (p_args p) = None)
        ∧ (get_exclude (p_args p) = true ↔ p_profiles p ≠ [])
        ∧ (∀ pr, pr ∈ p_profiles p → is_Some (get_path pr.2))
        ∧ (∀ d vs, get_default (p_args p) = Some d →
                   get_values (p_args p) = Some vs → d ∈ vs).
Proof.
  pose proof (setup_checked c) as Hc. unfold setup_ok in Hc.
  destruct (_setup c) as [params|]; [|done].
  exists params. split; [done|]. unfold params_ok in Hc.
  repeat (apply andb_true_iff in Hc as [Hc ?]).
  split; [by eapply bool_decide_eq_true|].
  intros p Hin.
  match goal with
  | H : forallb shape_ok _ = true |- _ => rewrite forallb_forall in H;
      apply list_elem_of_In in Hin; specialize (H p Hin); rename H into Hp
  end.
  unfold shape_ok in Hp. repeat (apply andb_true_iff in Hp as [Hp ?]).
  apply bool_decide_eq_true in Hp.
  split; [done|]. split; [by eapply bool_decide_eq_true|]. split.
  - intros pr Hpr.
    match goal with
    | H : forallb _ (p_profiles p) = true |- _ => rewrite forallb_forall in H;
        apply list_elem_of_In in Hpr; specialize (H pr Hpr);
        by apply bool_decide_eq_true in H
    end.
  - intros d vs Hd Hv.
    match goal with
    | H : match get_default _ with _ => _ end = true |- _ =>
        rewrite Hd, Hv in H; by apply bool_decide_eq_true in H
    end.
Qed.

End DeclarationFacts.
